(** * Deferred (src/deferred.js): a shallow embedding and its verification

    The JavaScript objects live in a store: a [Deferred] is a reference
    (an index) into [heap], and the variables closed over by its
    constructor are the fields of the [node] stored there.  Methods are
    state-and-exception passing functions.  [setTimeout(f, 0)] appends a
    task to a FIFO queue that [tick] runs one task at a time.  Calls that
    recurse through the store ([runErrback] into the next links, a callback
    into [runCallback] of a child, ...) go through [dispatch], which is
    defined by recursion on a fuel argument.

    User supplied functions are [FUser name body]: every application is
    recorded in the [trace] (a ghost log of observable events, together
    with [console.log] lines) and then returns or throws what [body] says.
    The closures the library itself creates (the splice adapters in
    [runCallback], the listeners of [when] and [select]) are the other
    constructors of [fn]. *)

From Stdlib Require Import ZArith String List Bool Lia.
From stdpp Require Import base list.
Import ListNotations.
Local Open Scope string_scope.
Local Open Scope nat_scope.
Local Open Scope list_scope.
Set Warnings "-register-all".

(** ** Values, functions, events *)

Set Warnings "-notation-for-abbreviation".
Notation ref := nat (only parsing).

Inductive value : Type :=
| VUndef
| VBool (b : bool)
| VNum (n : Z)
| VStr (s : string)
| VErr (msg : string)          (* new Error(msg) *)
| VArr (elems : list value)    (* contents of an array *)
| VDef (d : ref).              (* a Deferred object *)

Inductive uresult : Type :=
| URet (v : value)
| UThrow (e : value).

Inductive fn : Type :=
| FUser (name : string) (body : list value -> uresult)
| FSpliceThen (parent : ref) (persistentI : nat) (persistentDeferred : ref)
| FSpliceErr (parent : ref) (persistentI : nat) (persistentDeferred : ref)
| FWhenThen (frame : nat) (index : nat)
| FWhenErr (frame : nat)
| FSelectThen (frame : nat) (persistentI : nat)
| FSelectErr (frame : nat)
| FSelectId.

Inductive event : Type :=
| EvCall (name : string) (args : list value)
| EvLog (msg : string) (detail : list value)
| EvUncaught (e : value).

(** The closures handed to [setTimeout]. *)
Inductive task : Type :=
| TRunCallback (that : ref)
| TRunErrback (that : ref) (e : value)
| TThenAbort (that : ref)
| TThenErrback (next that : ref)
| TThenCallback (that : ref) (callbackFunction : fn)
| TOrIfError (that : ref).

(** ** The store *)

Record node : Type := mkNode {
  root : option ref;
  branch : option ref;
  callbacked : bool;
  callbackArgs : list value;
  errbacked : bool;
  errbackError : value;
  aborted : bool;
  abortArgs : list value;
  abortFunctions : list fn;
  nextLinks : list ref;
  callbackFunctions : list fn;
  errbackFunctions : list fn;
  progressFunctions : list fn;
  done : value;
  outOf : value;
  partialResultFunctions : list fn;
  finallyFunction : option fn
}.

(** Local variables of one call of [when]. *)
Record when_frame : Type := mkWhen {
  when_d : ref;
  returnValues : list value;
  when_total : nat;
  deferredsDone : nat;
  when_args : list value
}.

(** Local variables of one call of [select]. *)
Record select_frame : Type := mkSelect {
  select_d : ref;
  select_done : bool;
  select_total : nat;
  winner : value;
  select_args : list value;
  errored : bool
}.

Record state : Type := mkState {
  heap : list node;
  timers : list task;
  trace : list event;
  defaultErrorHandler : option fn;
  whens : list when_frame;
  selects : list select_frame
}.

Definition initial : state := mkState [] [] [] None [] [].

(** Field updates. *)
Definition set_root r (n : node) : node :=
  mkNode r (branch n) (callbacked n) (callbackArgs n) (errbacked n)
    (errbackError n) (aborted n) (abortArgs n) (abortFunctions n)
    (nextLinks n) (callbackFunctions n) (errbackFunctions n)
    (progressFunctions n) (done n) (outOf n) (partialResultFunctions n)
    (finallyFunction n).
Definition set_branch b (n : node) : node :=
  mkNode (root n) b (callbacked n) (callbackArgs n) (errbacked n)
    (errbackError n) (aborted n) (abortArgs n) (abortFunctions n)
    (nextLinks n) (callbackFunctions n) (errbackFunctions n)
    (progressFunctions n) (done n) (outOf n) (partialResultFunctions n)
    (finallyFunction n).
Definition set_callbacked c a (n : node) : node :=
  mkNode (root n) (branch n) c a (errbacked n)
    (errbackError n) (aborted n) (abortArgs n) (abortFunctions n)
    (nextLinks n) (callbackFunctions n) (errbackFunctions n)
    (progressFunctions n) (done n) (outOf n) (partialResultFunctions n)
    (finallyFunction n).
Definition set_callbackArgs a (n : node) : node :=
  set_callbacked (callbacked n) a n.
Definition set_errbacked c e (n : node) : node :=
  mkNode (root n) (branch n) (callbacked n) (callbackArgs n) c
    e (aborted n) (abortArgs n) (abortFunctions n)
    (nextLinks n) (callbackFunctions n) (errbackFunctions n)
    (progressFunctions n) (done n) (outOf n) (partialResultFunctions n)
    (finallyFunction n).
Definition set_aborted c a (n : node) : node :=
  mkNode (root n) (branch n) (callbacked n) (callbackArgs n) (errbacked n)
    (errbackError n) c a (abortFunctions n)
    (nextLinks n) (callbackFunctions n) (errbackFunctions n)
    (progressFunctions n) (done n) (outOf n) (partialResultFunctions n)
    (finallyFunction n).
Definition set_abortFunctions l (n : node) : node :=
  mkNode (root n) (branch n) (callbacked n) (callbackArgs n) (errbacked n)
    (errbackError n) (aborted n) (abortArgs n) l
    (nextLinks n) (callbackFunctions n) (errbackFunctions n)
    (progressFunctions n) (done n) (outOf n) (partialResultFunctions n)
    (finallyFunction n).
Definition set_nextLinks l (n : node) : node :=
  mkNode (root n) (branch n) (callbacked n) (callbackArgs n) (errbacked n)
    (errbackError n) (aborted n) (abortArgs n) (abortFunctions n)
    l (callbackFunctions n) (errbackFunctions n)
    (progressFunctions n) (done n) (outOf n) (partialResultFunctions n)
    (finallyFunction n).
Definition set_callbackFunctions l (n : node) : node :=
  mkNode (root n) (branch n) (callbacked n) (callbackArgs n) (errbacked n)
    (errbackError n) (aborted n) (abortArgs n) (abortFunctions n)
    (nextLinks n) l (errbackFunctions n)
    (progressFunctions n) (done n) (outOf n) (partialResultFunctions n)
    (finallyFunction n).
Definition set_errbackFunctions l (n : node) : node :=
  mkNode (root n) (branch n) (callbacked n) (callbackArgs n) (errbacked n)
    (errbackError n) (aborted n) (abortArgs n) (abortFunctions n)
    (nextLinks n) (callbackFunctions n) l
    (progressFunctions n) (done n) (outOf n) (partialResultFunctions n)
    (finallyFunction n).
Definition set_progressFunctions l (n : node) : node :=
  mkNode (root n) (branch n) (callbacked n) (callbackArgs n) (errbacked n)
    (errbackError n) (aborted n) (abortArgs n) (abortFunctions n)
    (nextLinks n) (callbackFunctions n) (errbackFunctions n)
    l (done n) (outOf n) (partialResultFunctions n)
    (finallyFunction n).
Definition set_partialResultFunctions l (n : node) : node :=
  mkNode (root n) (branch n) (callbacked n) (callbackArgs n) (errbacked n)
    (errbackError n) (aborted n) (abortArgs n) (abortFunctions n)
    (nextLinks n) (callbackFunctions n) (errbackFunctions n)
    (progressFunctions n) (done n) (outOf n) l
    (finallyFunction n).
Definition set_finallyFunction f (n : node) : node :=
  mkNode (root n) (branch n) (callbacked n) (callbackArgs n) (errbacked n)
    (errbackError n) (aborted n) (abortArgs n) (abortFunctions n)
    (nextLinks n) (callbackFunctions n) (errbackFunctions n)
    (progressFunctions n) (done n) (outOf n) (partialResultFunctions n)
    f.

Definition set_heap h (s : state) : state :=
  mkState h (timers s) (trace s) (defaultErrorHandler s) (whens s) (selects s).
Definition set_timers t (s : state) : state :=
  mkState (heap s) t (trace s) (defaultErrorHandler s) (whens s) (selects s).
Definition set_trace t (s : state) : state :=
  mkState (heap s) (timers s) t (defaultErrorHandler s) (whens s) (selects s).
Definition set_defaultErrorHandler f (s : state) : state :=
  mkState (heap s) (timers s) (trace s) f (whens s) (selects s).
Definition set_whens w (s : state) : state :=
  mkState (heap s) (timers s) (trace s) (defaultErrorHandler s) w (selects s).
Definition set_selects w (s : state) : state :=
  mkState (heap s) (timers s) (trace s) (defaultErrorHandler s) (whens s) w.

(** ** The monad: state, JavaScript exceptions, and no answer *)

Inductive outcome (A : Type) : Type :=
| Ret (a : A) (s : state)
| Throw (e : value) (s : state)
| OutOfFuel
| Dangling.
Arguments Ret {A} a s.
Arguments Throw {A} e s.
Arguments OutOfFuel {A}.
Arguments Dangling {A}.

Definition M (A : Type) : Type := state -> outcome A.

Definition ret {A} (a : A) : M A := fun s => Ret a s.
Definition throw {A} (e : value) : M A := fun s => Throw e s.
Definition bind {A B} (m : M A) (k : A -> M B) : M B :=
  fun s =>
    match m s with
    | Ret a s' => k a s'
    | Throw e s' => Throw e s'
    | OutOfFuel => OutOfFuel
    | Dangling => Dangling
    end.
Definition try_catch {A} (m : M A) (h : value -> M A) : M A :=
  fun s =>
    match m s with
    | Throw e s' => h e s'
    | o => o
    end.

Declare Scope js_scope.
Delimit Scope js_scope with js.
Notation "x <- c1 ;; c2" := (bind c1 (fun x => c2))
  (at level 100, c1 at next level, right associativity) : js_scope.
Notation "c1 ;; c2" := (bind c1 (fun _ => c2))
  (at level 100, right associativity) : js_scope.
Local Open Scope js_scope.

Definition get_state : M state := fun s => Ret s s.
Definition put_state (s : state) : M unit := fun _ => Ret tt s.

Definition get_node (d : ref) : M node :=
  fun s => match heap s !! d with Some n => Ret n s | None => Dangling end.
Definition modify_node (d : ref) (f : node -> node) : M unit :=
  fun s =>
    match heap s !! d with
    | Some n => Ret tt (set_heap (<[d := f n]> (heap s)) s)
    | None => Dangling
    end.
Definition emit (ev : event) : M unit :=
  fun s => Ret tt (set_trace (trace s ++ [ev]) s).
Definition console_log (msg : string) (detail : list value) : M unit :=
  emit (EvLog msg detail).
Definition setTimeout (t : task) : M unit :=
  fun s => Ret tt (set_timers (timers s ++ [t]) s).

Definition TypeError : value := VErr "TypeError".

(** [e.stack ? e.stack : e.message]: reading a property of [undefined]
    throws, any other value yields something printable. *)
Definition stack_or_message (e : value) : M value :=
  match e with
  | VUndef => throw TypeError
  | _ => ret e
  end.

Definition truthy (v : value) : bool :=
  match v with
  | VUndef => false
  | VBool b => b
  | VNum n => negb (n =? 0)%Z
  | VStr s => negb (String.eqb s "")
  | VErr _ | VArr _ | VDef _ => true
  end.

(** [v === false] *)
Definition is_false (v : value) : bool :=
  match v with VBool false => true | _ => false end.

(** [for (i = from; i < len; ++i) acc = body(i, acc)], where [len] (the
    length of an array of the store) is read again before every
    iteration. *)
Fixpoint for_loop {A} (fuel : nat) (len : M nat) (body : nat -> A -> M A)
    (i : nat) (acc : A) : M A :=
  match fuel with
  | O => fun _ => OutOfFuel
  | S fuel' =>
      n <- len ;;
      if i <? n then acc' <- body i acc ;; for_loop fuel' len body (S i) acc'
      else ret acc
  end.

(** The variables of a Deferred as its constructor leaves them. *)
Definition fresh_node (root branch : ref) : node :=
  mkNode (Some root) (Some branch)
    false [] false (VErr "errback called without error as argument!")
    false [] [] [] [] [] [] VUndef VUndef [] None.

(** [new Deferred(root, branch)]: a missing [root] or [branch] is the new
    object itself. *)
Definition new_Deferred (root branch : option ref) : M ref :=
  fun s =>
    let this := length (heap s) in
    Ret this
      (set_heap (heap s ++ [fresh_node (default this root) (default this branch)]) s).

Definition arg0 (args : list value) : value := default VUndef (args !! 0).

(** [a[i] = v] on a JavaScript array: the array grows, with holes, when
    [i] is past its end. *)
Definition array_set (a : list value) (i : nat) (v : value) : list value :=
  if i <? length a then <[i := v]> a
  else a ++ replicate (i - length a) VUndef ++ [v].

(** ** The methods of a Deferred

    [rec] stands for a call through the store (see [dispatch] below) and
    [fuel] bounds the iterations of the loops of one method. *)

Inductive call : Type :=
| CApply (f : fn) (args : list value)
| CRunErrback (that : ref) (e : value) (faultyFunction : option fn)
| CRunCallback (that : ref) (args : list value)
| CSetBranch (that : ref) (newBranch : ref)
| CPropagateAbort (that : ref) (args : list value).

Section Methods.
Variable fuel : nat.
Variable rec : call -> M value.

Definition isAborted (that : ref) : M bool :=
  n <- get_node that ;; ret (aborted n).

Definition getCallbackArgs (that : ref) : M (list value) :=
  n <- get_node that ;; ret (callbackArgs n).

Definition length_of {A} (that : ref) (field : node -> list A) : M nat :=
  n <- get_node that ;; ret (length (field n)).

(** [a[i]] where [a] is an array of the store and the element is then
    used as an object or called: [undefined] there is a TypeError. *)
Definition element {A} (that : ref) (field : node -> list A) (i : nat) : M A :=
  n <- get_node that ;;
  match field n !! i with
  | Some x => ret x
  | None => throw TypeError
  end.

(** The end of [runErrback], reached unless the default handler ran or
    the error was thrown again. *)
Definition runErrback_finish (that : ref) (errorHandled : value) : M value :=
  (* We don't need these anymore since it's no longer possible to call abort *)
  modify_node that (fun n => set_branch None (set_root None n)) ;;
  n <- get_node that ;;
  match finallyFunction n with
  | Some f => rec (CApply f [])
  | None => ret VUndef
  end ;;
  ret errorHandled.

Definition runErrback (that : ref) (e : value) (faultyFunction : option fn)
    : M value :=
  n <- get_node that ;;
  if errbacked n then ret (VDef that) else
  if aborted n then ret (VDef that) else
  modify_node that (set_errbacked true e) ;;
  (* go through all errbackFunctions *)
  errorHandled <-
    for_loop fuel (length_of that errbackFunctions)
      (fun i _ =>
         try_catch
           (f <- element that errbackFunctions i ;;
            rec (CApply f [e]) ;;
            ret (VBool true))
           (fun e2 =>
              m <- stack_or_message e2 ;;
              console_log "error in errback, won't continue! " [m] ;;
              throw (VErr "error in errback, won't continue!")))
      0 (VBool false) ;;
  if is_false errorHandled then
    (* every next link is asked, until one of them answers something truthy *)
    errorHandled <-
      for_loop fuel (length_of that nextLinks)
        (fun j errorHandled =>
           if truthy errorHandled then ret errorHandled
           else
             next <- element that nextLinks j ;;
             n <- get_node that ;;
             rec (CRunErrback next (errbackError n) None))
        0 errorHandled ;;
    if is_false errorHandled then
      s <- get_state ;;
      n <- get_node that ;;
      match defaultErrorHandler s with
      | Some handler =>
          rec (CApply handler [errbackError n]) ;;
          ret VUndef
      | None =>
          match faultyFunction with
          | None =>
              m <- stack_or_message e ;;
              console_log
                "error not handled in errback or in the rest of the chain! rethrowing..."
                [m]
          | Some _ => console_log "Error in callback Function: " []
          end ;;
          throw (errbackError n)
      end
    else runErrback_finish that errorHandled
  else runErrback_finish that errorHandled.

Definition setBranch (that : ref) (newBranch : ref) : M value :=
  modify_node that (set_branch (Some newBranch)) ;;
  n <- get_node that ;;
  if length (nextLinks n) =? 1 then
    next <- element that nextLinks 0 ;;
    rec (CSetBranch next newBranch) ;;
    ret VUndef
  else
    for_loop fuel (length_of that nextLinks)
      (fun i _ =>
         next <- element that nextLinks i ;;
         rec (CSetBranch next next))
      0 VUndef.

Definition reArrangeBranch (that : ref) : M value :=
  next <- element that nextLinks 0 ;;
  rec (CSetBranch next next).

Definition then_ (that : ref) (callbackFunction : fn) : M ref :=
  n <- get_node that ;;
  next <-
    (if 0 <? length (callbackFunctions n) then
       next <- new_Deferred (root n) None ;;
       modify_node that (fun n => set_nextLinks (nextLinks n ++ [next]) n) ;;
       match branch n with
       | Some b =>
           if length (callbackFunctions n) =? 1 then reArrangeBranch b
           else ret VUndef
       | None => ret VUndef
       end ;;
       ret next
     else
       next <- new_Deferred (root n) (branch n) ;;
       modify_node that (fun n => set_nextLinks (nextLinks n ++ [next]) n) ;;
       ret next) ;;
  modify_node that
    (fun n => set_callbackFunctions (callbackFunctions n ++ [callbackFunction]) n) ;;
  n <- get_node that ;;
  if aborted n then
    setTimeout (TThenAbort that) ;;
    ret that
  else
    (if errbacked n then setTimeout (TThenErrback next that)
     else if callbacked n then setTimeout (TThenCallback that callbackFunction)
     else ret tt) ;;
    ret next.

Definition orIfError (that : ref) (errbackFunction : fn) : M ref :=
  n <- get_node that ;;
  if aborted n then
    console_log "Deferred has been aborted, can't add errback!" [] ;;
    ret that
  else
    modify_node that
      (fun n => set_errbackFunctions (errbackFunctions n ++ [errbackFunction]) n) ;;
    (if errbacked n then setTimeout (TOrIfError that) else ret tt) ;;
    ret that.

Definition runCallback (that : ref) (args : list value) : M value :=
  n <- get_node that ;;
  if callbacked n then throw (VErr "Deferred has already been callbacked!") else
  if errbacked n then ret VUndef else
  modify_node that (set_callbacked true args) ;;
  match finallyFunction n with
  | Some f => rec (CApply f []) ;; ret VUndef
  | None =>
      (* go through all callbackFunctions *)
      for_loop fuel (length_of that callbackFunctions)
        (fun i _ =>
           next <- element that nextLinks i ;;
           skip <- isAborted next ;;
           if skip then ret tt
           else
             try_catch
               (f <- element that callbackFunctions i ;;
                returnValueFromCallback <- rec (CApply f args) ;;
                match returnValueFromCallback with
                | VDef persistentDeferred =>
                    t <- then_ persistentDeferred
                           (FSpliceThen that i persistentDeferred) ;;
                    orIfError t (FSpliceErr that i persistentDeferred) ;;
                    ret tt
                | _ =>
                    next <- element that nextLinks i ;;
                    rec (CRunCallback next [returnValueFromCallback]) ;;
                    ret tt
                end)
               (fun e =>
                  next <- element that nextLinks i ;;
                  n <- get_node that ;;
                  rec (CRunErrback next e (callbackFunctions n !! i)) ;;
                  ret tt))
        0 tt ;;
      modify_node that (fun n => set_branch None (set_root None n)) ;;
      ret VUndef
  end.

Definition callback (that : ref) (args : list value) : M ref :=
  n <- get_node that ;;
  if aborted n then ret that else
  if errbacked n then ret that else
  modify_node that (set_callbackArgs args) ;;
  setTimeout (TRunCallback that) ;;
  ret that.

Definition errback (that : ref) (e : value) : M ref :=
  n <- get_node that ;;
  if aborted n then ret that else
  if errbacked n then
    console_log "Deferred is already errbacked, won't run errback!" [] ;;
    ret that
  else
    setTimeout (TRunErrback that e) ;;
    ret that.

(** [runAbortFunctions] is only ever called without arguments, so its
    [arguments] object, which the abort listeners receive, is empty. *)
Definition runAbortFunctions (that : ref) (arguments : list value) : M unit :=
  n <- get_node that ;;
  if negb (callbacked n) && negb (errbacked n) then
    for_loop fuel (length_of that abortFunctions)
      (fun i _ =>
         f <- element that abortFunctions i ;;
         rec (CApply f arguments) ;;
         ret tt)
      0 tt
  else ret tt.

Definition propagateAbort (that : ref) (arguments : list value) : M value :=
  n <- get_node that ;;
  if aborted n then ret VUndef else
  modify_node that (set_aborted true arguments) ;;
  runAbortFunctions that [] ;;
  for_loop fuel (length_of that nextLinks)
    (fun i _ =>
       next <- element that nextLinks i ;;
       rec (CPropagateAbort next []) ;;
       ret tt)
    0 tt ;;
  modify_node that (fun n => set_root None (set_branch None n)) ;;
  ret VUndef.

Definition abort (that : ref) (arguments : list value) : M ref :=
  n <- get_node that ;;
  if aborted n then
    console_log "Deferred has already been aborted, can't abort again!" [] ;;
    ret that
  else if callbacked n then
    console_log "Deferred has already been callbacked, can't abort after that!" [] ;;
    ret that
  else if errbacked n then
    console_log "Deferred has already been errbacked, can't abort after that!" [] ;;
    ret that
  else
    propagateAbort that arguments ;;
    ret that.

Definition abortBranch (that : ref) : M ref :=
  n <- get_node that ;;
  match branch n with
  | Some b => abort b [] ;; ret that
  | None => throw TypeError
  end.

Definition abortAll (that : ref) : M ref :=
  n <- get_node that ;;
  match root n with
  | Some r => abort r [] ;; ret that
  | None => abort that [] ;; ret that
  end.

Definition onAbort (that : ref) (abortFunction : fn) : M ref :=
  modify_node that
    (fun n => set_abortFunctions (abortFunctions n ++ [abortFunction]) n) ;;
  n <- get_node that ;;
  (if aborted n then
     f <- element that abortFunctions (length (abortFunctions n) - 1) ;;
     rec (CApply f (abortArgs n)) ;;
     ret tt
   else ret tt) ;;
  ret that.

(** The parameters [done] and [outOf] of [progress] hide the variables
    of the same names of the constructor, which are never assigned. *)
Definition progress (that : ref) (done outOf : value) : M ref :=
  n <- get_node that ;;
  if aborted n then
    console_log "The deferred has been aborted, can't set progress!" [] ;;
    ret that
  else
    for_loop fuel (length_of that progressFunctions)
      (fun i _ =>
         f <- element that progressFunctions i ;;
         rec (CApply f [done; outOf]) ;;
         ret tt)
      0 tt ;;
    ret that.

Definition onProgress (that : ref) (pf : fn) : M ref :=
  n <- get_node that ;;
  if aborted n then
    console_log "The deferred has been aborted, won't register progress function!" [] ;;
    ret that
  else
    modify_node that
      (fun n => set_progressFunctions (progressFunctions n ++ [pf]) n) ;;
    n <- get_node that ;;
    (match done n, outOf n with
     | VUndef, _ | _, VUndef => ret tt
     | d, o => rec (CApply pf [d; o]) ;; ret tt
     end) ;;
    ret that.

Definition partialResult (that : ref) (partialResult : value) : M value :=
  n <- get_node that ;;
  if aborted n then
    console_log "The deferred has been aborted, won't call partial result!" [] ;;
    ret (VDef that)
  else
    for_loop fuel (length_of that partialResultFunctions)
      (fun i _ =>
         f <- element that partialResultFunctions i ;;
         rec (CApply f [partialResult]) ;;
         ret tt)
      0 tt ;;
    ret VUndef.

Definition onPartialResult (that : ref) (prf : fn) : M ref :=
  n <- get_node that ;;
  if aborted n then
    console_log "The deferred has been aborted, won't register partial result function!" [] ;;
    ret that
  else
    modify_node that
      (fun n => set_partialResultFunctions (partialResultFunctions n ++ [prf]) n) ;;
    ret that.

Definition andAtLast (that : ref) (finalFunction : fn) : M value :=
  n <- get_node that ;;
  match finallyFunction n with
  | Some _ => throw (VErr "Finally function already exists")
  | None =>
      modify_node that (set_finallyFunction (Some finalFunction)) ;;
      ret VUndef
  end.

Definition finally (that : ref) (finalFunction : fn) : M value :=
  andAtLast that finalFunction ;;
  ret VUndef.

(** *** The closures the library creates, and user functions *)

Definition get_when (fr : nat) : M when_frame :=
  fun s => match whens s !! fr with Some w => Ret w s | None => Dangling end.
Definition put_when (fr : nat) (w : when_frame) : M unit :=
  fun s => Ret tt (set_whens (<[fr := w]> (whens s)) s).
Definition get_select (fr : nat) : M select_frame :=
  fun s => match selects s !! fr with Some w => Ret w s | None => Dangling end.
Definition put_select (fr : nat) (w : select_frame) : M unit :=
  fun s => Ret tt (set_selects (<[fr := w]> (selects s)) s).

(** [v.m(...)] for a method [m] of Deferred: [v] must be one. *)
Definition as_deferred (v : value) : M ref :=
  match v with
  | VDef d => ret d
  | _ => throw TypeError
  end.

Definition same_object (v w : value) : bool :=
  match v, w with
  | VDef a, VDef b => a =? b
  | _, _ => false
  end.

Definition apply (f : fn) (args : list value) : M value :=
  match f with
  | FUser name body =>
      emit (EvCall name args) ;;
      match body args with
      | URet v => ret v
      | UThrow e => throw e
      end
  | FSpliceThen parent persistentI persistentDeferred =>
      next <- element parent nextLinks persistentI ;;
      a <- getCallbackArgs persistentDeferred ;;
      rec (CRunCallback next a) ;;
      ret VUndef
  | FSpliceErr parent persistentI persistentDeferred =>
      (* If there is no error handler on the earlier deferred, throw it "out/up one level". *)
      inner <- get_node persistentDeferred ;;
      if length (errbackFunctions inner) =? 0 then
        next <- element parent nextLinks persistentI ;;
        p <- get_node parent ;;
        rec (CRunErrback next (arg0 args) (callbackFunctions p !! persistentI)) ;;
        ret VUndef
      else ret VUndef
  | FWhenThen fr index =>
      w <- get_when fr ;;
      put_when fr
        (mkWhen (when_d w) (array_set (returnValues w) index (arg0 args))
           (when_total w) (deferredsDone w + 1) (when_args w)) ;;
      w <- get_when fr ;;
      partialResult (when_d w) (VArr (returnValues w)) ;;
      w <- get_when fr ;;
      progress (when_d w) (VNum (Z.of_nat (deferredsDone w)))
        (VNum (Z.of_nat (when_total w))) ;;
      w <- get_when fr ;;
      (if deferredsDone w =? when_total w then
         callback (when_d w) (returnValues w) ;; ret tt
       else ret tt) ;;
      ret VUndef
  | FWhenErr fr =>
      w <- get_when fr ;;
      rec (CRunErrback (when_d w) (arg0 args) None) ;;
      ret VUndef
  | FSelectThen fr persistentI =>
      w <- get_select fr ;;
      if select_done w then ret VUndef
      else
        put_select fr
          (mkSelect (select_d w) true (select_total w) (winner w)
             (select_args w) (errored w)) ;;
        callback (select_d w) [arg0 args] ;;
        w <- get_select fr ;;
        let winner' := default VUndef (select_args w !! persistentI) in
        put_select fr
          (mkSelect (select_d w) (select_done w) (select_total w) winner'
             (select_args w) (errored w)) ;;
        for_loop fuel (ret (select_total w))
          (fun i2 _ =>
             w <- get_select fr ;;
             let a := default VUndef (select_args w !! i2) in
             if same_object a (winner w) then ret tt
             else d <- as_deferred a ;; abort d [] ;; ret tt)
          0 tt ;;
        ret VUndef
  | FSelectErr fr =>
      (* Only one errback is allowed (and it is enough) *)
      w <- get_select fr ;;
      (if errored w then ret tt
       else errback (select_d w) (arg0 args) ;; ret tt) ;;
      w <- get_select fr ;;
      put_select fr
        (mkSelect (select_d w) (select_done w) (select_total w) (winner w)
           (select_args w) true) ;;
      ret VUndef
  | FSelectId => ret (arg0 args)
  end.
End Methods.

(** Calls through the store: one unit of fuel per nested call. *)
Fixpoint dispatch (fuel : nat) (c : call) : M value :=
  match fuel with
  | O => fun _ => OutOfFuel
  | S fuel' =>
      match c with
      | CApply f args => apply fuel' (dispatch fuel') f args
      | CRunErrback that e faultyFunction =>
          runErrback fuel' (dispatch fuel') that e faultyFunction
      | CRunCallback that args => runCallback fuel' (dispatch fuel') that args
      | CSetBranch that newBranch => setBranch fuel' (dispatch fuel') that newBranch
      | CPropagateAbort that args => propagateAbort fuel' (dispatch fuel') that args
      end
  end.

(** ** The combinators and the default handler *)

Definition registerDefaultErrorHandler (handler : fn) : M unit :=
  fun s => Ret tt (set_defaultErrorHandler (Some handler) s).

Definition not_a_deferred : value :=
  VErr "Parameter passed to select() is not a deferred object.".

Definition when (fuel : nat) (arguments : list value) : M ref :=
  d <- new_Deferred None None ;;
  s <- get_state ;;
  let fr := length (whens s) in
  put_state
    (set_whens (whens s ++ [mkWhen d [] (length arguments) 0 arguments]) s) ;;
  for_loop fuel (ret (length arguments))
    (fun i _ =>
       match default VUndef (arguments !! i) with
       | VDef a =>
           t <- then_ (dispatch fuel) a (FWhenThen fr i) ;;
           orIfError t (FWhenErr fr) ;;
           ret tt
       | _ => throw not_a_deferred
       end)
    0 tt ;;
  ret d.

Definition select (fuel : nat) (arguments : list value) : M ref :=
  d <- new_Deferred None None ;;
  s <- get_state ;;
  let fr := length (selects s) in
  put_state
    (set_selects
       (selects s ++ [mkSelect d false (length arguments) VUndef arguments false]) s) ;;
  for_loop fuel (ret (length arguments))
    (fun i _ =>
       match default VUndef (arguments !! i) with
       | VDef a =>
           t <- then_ (dispatch fuel) a (FSelectThen fr i) ;;
           orIfError t (FSelectErr fr) ;;
           ret tt
       | _ => throw not_a_deferred
       end)
    0 tt ;;
  (* Hack not to get an error when using select without calling a .then on it. *)
  then_ (dispatch fuel) d FSelectId.

(** ** The event loop *)

Definition run_task (fuel : nat) (t : task) : M value :=
  match t with
  | TRunCallback that =>
      n <- get_node that ;;
      dispatch fuel (CRunCallback that (callbackArgs n))
  | TRunErrback that e => dispatch fuel (CRunErrback that e None)
  | TThenAbort that =>
      n <- get_node that ;;
      next <- element that nextLinks (length (nextLinks n) - 1) ;;
      dispatch fuel (CPropagateAbort next [])
  | TThenErrback next that =>
      n <- get_node that ;;
      dispatch fuel (CRunErrback next (errbackError n) None)
  | TThenCallback that callbackFunction =>
      n <- get_node that ;;
      dispatch fuel (CApply callbackFunction (callbackArgs n))
  | TOrIfError that =>
      n <- get_node that ;;
      if aborted n then ret VUndef
      else
        (* errbackFunctions(errbackError): the array is not a function *)
        try_catch (throw TypeError)
          (fun e =>
             m <- stack_or_message e ;;
             console_log "error in errback, won't continue! " [m] ;;
             ret VUndef)
  end.

(** One turn of the loop: the oldest task runs; what it throws is
    reported by the host and the loop goes on. *)
Definition tick (fuel : nat) (s : state) : option state :=
  match timers s with
  | [] => Some s
  | t :: rest =>
      match run_task fuel t (set_timers rest s) with
      | Ret _ s' => Some s'
      | Throw e s' => Some (set_trace (trace s' ++ [EvUncaught e]) s')
      | OutOfFuel | Dangling => None
      end
  end.

Fixpoint run_loop (rounds fuel : nat) (s : state) : option state :=
  match timers s with
  | [] => Some s
  | _ :: _ =>
      match rounds with
      | O => None
      | S rounds' =>
          match tick fuel s with
          | Some s' => run_loop rounds' fuel s'
          | None => None
          end
      end
  end.

(** The state a program is left in, whether it returned or threw. *)
Definition final {A} (o : outcome A) : option state :=
  match o with
  | Ret _ s | Throw _ s => Some s
  | OutOfFuel | Dangling => None
  end.

(** Unfolding policy: a method unfolds once it is applied to a state. *)
Arguments ret {A} a s /.
Arguments throw {A} e s /.
Arguments bind {A B} m k s /.
Arguments try_catch {A} m h s /.
Arguments get_state s /.
Arguments put_state s _ /.
Arguments get_node d s /.
Arguments modify_node d f s /.
Arguments emit ev s /.
Arguments console_log msg detail s /.
Arguments setTimeout t s /.
Arguments stack_or_message e s /.
Arguments new_Deferred root branch s /.
Arguments for_loop : simpl never.
Arguments isAborted that s /.
Arguments getCallbackArgs that s /.
Arguments length_of {A} that field s /.
Arguments element {A} that field i s /.
Arguments runErrback_finish rec that errorHandled s /.
Arguments runErrback fuel rec that e faultyFunction s /.
Arguments setBranch fuel rec that newBranch s /.
Arguments reArrangeBranch rec that s /.
Arguments then_ rec that callbackFunction s /.
Arguments orIfError that errbackFunction s /.
Arguments runCallback fuel rec that args s /.
Arguments callback that args s /.
Arguments errback that e s /.
Arguments runAbortFunctions fuel rec that arguments s /.
Arguments propagateAbort fuel rec that arguments s /.
Arguments abort fuel rec that arguments s /.
Arguments abortBranch fuel rec that s /.
Arguments abortAll fuel rec that s /.
Arguments onAbort rec that abortFunction s /.
Arguments progress fuel rec that done outOf s /.
Arguments onProgress rec that pf s /.
Arguments partialResult fuel rec that partialResult s /.
Arguments onPartialResult that prf s /.
Arguments andAtLast that finalFunction s /.
Arguments finally that finalFunction s /.
Arguments get_when fr s /.
Arguments put_when fr w s /.
Arguments get_select fr s /.
Arguments put_select fr w s /.
Arguments as_deferred v s /.
Arguments apply fuel rec !f args s /.
Arguments dispatch : simpl never.
Arguments registerDefaultErrorHandler handler s /.
Arguments when fuel arguments s /.
Arguments select fuel arguments s /.
Arguments run_task fuel !t s /.


(** ** Vocabulary of the statements *)

(** A node that has not been resolved: none of the three flags is set. *)
Definition pending (n : node) : bool :=
  negb (callbacked n) && negb (errbacked n) && negb (aborted n).

(** A user function that returns (does not throw) on [args]. *)
Definition returns_on (args : list value) (f : fn) : bool :=
  match f with
  | FUser _ body => match body args with URet _ => true | UThrow _ => false end
  | _ => false
  end.

(** The trace left by calling the user functions [fs] in turn on [args]. *)
Definition calls (fs : list fn) (args : list value) : list event :=
  flat_map (fun f => match f with FUser name _ => [EvCall name args] | _ => [] end) fs.

Arguments calls : simpl never.

(** Both back links cleared, as at the end of a resolution. *)
Definition unlinked (n : node) : node := set_branch None (set_root None n).


(** What [then] followed by [orIfError] leaves in the store for an input
    that had no continuation yet: the input points at a new next link,
    and the new next link carries the error listener. *)
Definition linked_input (F : fn) (next : ref) (na : node) : node :=
  set_callbackFunctions [F] (set_nextLinks (nextLinks na ++ [next]) na).
Definition listening_link (G : fn) (this : ref) (na : node) : node :=
  set_errbackFunctions [G]
    (fresh_node (default this (root na)) (default this (branch na))).

(** A pending Deferred that no continuation and no finally hook has been
    attached to yet (listeners and error handlers are not restricted). *)
Definition unattached (n : node) : Prop :=
  callbacked n = false /\ errbacked n = false /\ aborted n = false /\
  callbackFunctions n = [] /\ nextLinks n = [] /\ finallyFunction n = None.

(** A user function that returns whatever it is called with. *)
Definition always_returns (f : fn) : Prop :=
  forall args, returns_on args f = true.

(** A pending leaf whose only registration is the error listener [G]. *)
Definition listening (G : fn) (n : node) : Prop :=
  callbacked n = false /\ errbacked n = false /\ aborted n = false /\
  callbackFunctions n = [] /\ nextLinks n = [] /\
  errbackFunctions n = [G] /\ finallyFunction n = None.

(** The store as [when] leaves it: [J] is the Deferred [when] returns,
    and every input [a] of index [i] carries the listener
    [FWhenThen fr i] and points at a link of its own, [J + 1 + i], which
    carries [FWhenErr fr]. *)
Definition when_wired (s : state) (fr : nat) (ds : list ref) (J : ref) : Prop :=
  whens s !! fr = Some (mkWhen J [] (length ds) 0 (VDef <$> ds)) /\
  NoDup ds /\
  (forall i a, ds !! i = Some a ->
     a < J /\
     exists na nt,
       heap s !! a = Some na /\
       callbacked na = false /\ errbacked na = false /\ aborted na = false /\
       finallyFunction na = None /\ errbackFunctions na = [] /\
       callbackFunctions na = [FWhenThen fr i] /\
       nextLinks na = [J + 1 + i] /\
       heap s !! (J + 1 + i) = Some nt /\ listening (FWhenErr fr) nt) /\
  heap s !! J = Some (fresh_node J J).

(** The abort listeners of the inputs of [select] that lose against the
    input of index [k]: [afs] lists the [abortFunctions] of every input,
    in input order. *)
Definition abort_calls (k : nat) (afs : list (list fn)) : list event :=
  concat (imap (fun i fs => if i =? k then [] else calls fs []) afs).
Arguments abort_calls : simpl never.

(** A leaf of the tree that nothing has been attached to except, possibly,
    error handlers. *)
Definition bare_link (n : node) : Prop :=
  callbacked n = false /\ errbacked n = false /\ aborted n = false /\
  callbackFunctions n = [] /\ nextLinks n = [] /\ abortFunctions n = [] /\
  finallyFunction n = None.

(** The store as [select] leaves it: [d] is the Deferred [select]
    creates, [o] the one it returns, and every input [a] of index [i]
    carries the listener [FSelectThen fr i] and points at a link of its
    own, [d + 1 + i]. *)
Definition select_wired (s : state) (fr : nat) (ds : list ref) (d o : ref) : Prop :=
  selects s !! fr
    = Some (mkSelect d false (length ds) VUndef (VDef <$> ds) false) /\
  NoDup ds /\
  (forall i a, ds !! i = Some a ->
     a < d /\
     exists na nt,
       heap s !! a = Some na /\
       callbacked na = false /\ errbacked na = false /\ aborted na = false /\
       finallyFunction na = None /\
       callbackFunctions na = [FSelectThen fr i] /\
       nextLinks na = [d + 1 + i] /\
       Forall (fun f => returns_on [] f = true) (abortFunctions na) /\
       heap s !! (d + 1 + i) = Some nt /\ bare_link nt) /\
  (exists nd,
     heap s !! d = Some nd /\
     callbacked nd = false /\ errbacked nd = false /\ aborted nd = false /\
     finallyFunction nd = None /\
     callbackFunctions nd = [FSelectId] /\ nextLinks nd = [o]) /\
  (exists no, heap s !! o = Some no /\ bare_link no) /\
  o = d + 1 + length ds.

(** ** The tree and its branches *)

(** The store holds a forest: a next link is younger than the node that
    points at it, and no node is the next link of two nodes, or twice of
    one. *)
Definition forest (h : list node) : Prop :=
  (forall p np c, h !! p = Some np -> c ∈ nextLinks np -> p < c < length h) /\
  (forall p np q nq i j c,
     h !! p = Some np -> h !! q = Some nq ->
     nextLinks np !! i = Some c -> nextLinks nq !! j = Some c ->
     p = q /\ i = j).

(** [descends h c y]: [y] is [c] or lies below it. *)
Inductive descends (h : list node) (c : ref) : ref -> Prop :=
| descends_here : descends h c c
| descends_child p np y :
    descends h c p -> h !! p = Some np -> y ∈ nextLinks np -> descends h c y.

(** [on_chain h c y]: [y] is reached from [c] through nodes that have
    exactly one next link each. *)
Inductive on_chain (h : list node) (c : ref) : ref -> Prop :=
| chain_head : on_chain h c c
| chain_next y ny z :
    on_chain h c y -> h !! y = Some ny -> nextLinks ny = [z] -> on_chain h c z.

(** [headed h c b]: in the subtree of [c] the branch pointers are what
    [setBranch] makes them when it is called on [c] with [b]: [c] points
    at [b]; an only next link continues the branch; the next links of a
    node with none or several of them each start a branch of their own. *)
Inductive headed (h : list node) : ref -> ref -> Prop :=
| headed_node c b n :
    h !! c = Some n -> branch n = Some b ->
    (forall x, nextLinks n = [x] -> headed h x b) ->
    (length (nextLinks n) <> 1 -> forall x, x ∈ nextLinks n -> headed h x x) ->
    headed h c b.

(** [rebranched h h']: the store [h'] differs from [h] in branch pointers
    only. *)
Definition rebranched (h h' : list node) : Prop :=
  length h' = length h /\
  forall x n, h !! x = Some n -> exists b, h' !! x = Some (set_branch b n).

(** The rule of claim C4 for the next links of [p]. *)
Definition branch_rule (h : list node) (p : ref) : Prop :=
  forall np, h !! p = Some np ->
  forall c, c ∈ nextLinks np ->
  exists nc, h !! c = Some nc /\
    (branch nc = Some c <-> 2 <= length (nextLinks np)) /\
    (length (nextLinks np) < 2 -> branch nc = branch np).

(** ** Small programs, used to exhibit concrete states *)

Definition log_fn (name : string) : fn := FUser name (fun _ => URet VUndef).

(** The state a program leaves when it is run in the initial state. *)
Definition state_after {A} (m : M A) : state :=
  default initial (final (m initial)).

(** The node behind a reference. *)
Definition node_at (s : state) (d : ref) : node :=
  default (fresh_node d d) (heap s !! d).

(** ... and once the event loop has run dry. *)
Definition settled (s : state) : state := default s (run_loop 16 16 s).

(** [d = new Deferred(); a = d.then(f1); b = d.then(f2); a.orIfError(h)] *)
Definition two_children_one_handler : M ref :=
  d <- new_Deferred None None ;;
  a <- then_ (dispatch 8) d (log_fn "f1") ;;
  b <- then_ (dispatch 8) d (log_fn "f2") ;;
  orIfError a (log_fn "h").

(** [d = new Deferred(); d.orIfError(h)] *)
Definition one_handler : M ref :=
  d <- new_Deferred None None ;;
  orIfError d (log_fn "h").

(** [d = new Deferred(); d.orIfError(h0); d.errback("E")] *)
Definition failed_with_handler : M ref :=
  d <- new_Deferred None None ;;
  orIfError d (log_fn "h0") ;;
  errback d (VStr "E").

(** [p = new Deferred(); inner = new Deferred(); inner.orIfError(hi);
    c = p.then(function () { return inner; }); c.orIfError(hc)] *)
Definition splice_setup (inner_has_handler : bool) : M ref :=
  p <- new_Deferred None None ;;
  inner <- new_Deferred None None ;;
  (if inner_has_handler then orIfError inner (log_fn "hi") else ret inner) ;;
  c <- then_ (dispatch 8) p (FUser "f" (fun _ => URet (VDef inner))) ;;
  orIfError c (log_fn "hc").

(** [d = new Deferred(); d.onProgress(p0)] *)
Definition one_progress_listener : M ref :=
  d <- new_Deferred None None ;;
  onProgress (dispatch 8) d (log_fn "p0").

(** [d = new Deferred(); d.then(f); d.andAtLast(fin)] *)
Definition callback_and_finally : M value :=
  d <- new_Deferred None None ;;
  then_ (dispatch 8) d (log_fn "f") ;;
  andAtLast d (log_fn "fin").

(** [slow = new Deferred(); fast = new Deferred(); slow.onAbort(g)] *)
Definition slow_and_fast : M ref :=
  slow <- new_Deferred None None ;;
  fast <- new_Deferred None None ;;
  onAbort (dispatch 8) slow (log_fn "slowAborted").

(** [a = new Deferred(); b = new Deferred(); j = when(a, b);
    j.onProgress(p); j.onPartialResult(pr); j.orIfError(h);
    a.errback("E")] *)
Definition when_then_first_failure : M ref :=
  a <- new_Deferred None None ;;
  b <- new_Deferred None None ;;
  j <- when 8 [VDef a; VDef b] ;;
  onProgress (dispatch 8) j (log_fn "p") ;;
  onPartialResult j (log_fn "pr") ;;
  orIfError j (log_fn "h") ;;
  errback a (VStr "E").

(** The claim C8 at one later event: in state [s], reached after the
    first failure, the input [b] succeeds with [v] and the event loop
    runs; nothing observable happens. *)
Definition later_success_ignored (s : state) (b : ref) (v : value) : Prop :=
  forall s1 s2,
    callback b [v] s = Ret b s1 ->
    run_loop 16 16 s1 = Some s2 ->
    trace s2 = trace s.

(** The trace after that event, computed. *)
Definition trace_after_success (s : state) (b : ref) (v : value)
    : option (list event) :=
  match callback b [v] s with
  | Ret _ s1 =>
      match run_loop 16 16 s1 with
      | Some s2 => Some (trace s2)
      | None => None
      end
  | _ => None
  end.

(** [a = new Deferred(); b = new Deferred(); c = new Deferred()] *)
Definition three_inputs : M ref :=
  new_Deferred None None ;; new_Deferred None None ;; new_Deferred None None.

(** [d = new Deferred(); d.callback(1)], the event loop runs dry, and then
    [d.then(f)]: the state right after that call. *)
Definition then_after_resolve : state :=
  let s1 := settled (state_after (d <- new_Deferred None None ;; callback d [VNum 1])) in
  default s1 (final (then_ (dispatch 8) 0 (log_fn "f") s1)).

(** [r = new Deferred(); a = r.then(f); a.then(g)] *)
Definition chain_of_three : M ref :=
  r <- new_Deferred None None ;;
  a <- then_ (dispatch 8) r (log_fn "f") ;;
  then_ (dispatch 8) a (log_fn "g").

(** [r = new Deferred(); a = r.then(f); a.then(g); a.then(h)] *)
Definition branching_below_the_head : M ref :=
  r <- new_Deferred None None ;;
  a <- then_ (dispatch 8) r (log_fn "f") ;;
  then_ (dispatch 8) a (log_fn "g") ;;
  then_ (dispatch 8) a (log_fn "h").

(** ** [breakBackLinks]

    The method calls no other method of the store: it recurses through
    the next links, and clears the back links of the node once for every
    next link it has gone through. *)
Fixpoint breakBackLinks (fuel : nat) (that : ref) : M value :=
  match fuel with
  | O => fun _ => OutOfFuel
  | S fuel' =>
      for_loop fuel' (length_of that nextLinks)
        (fun i _ =>
           next <- element that nextLinks i ;;
           breakBackLinks fuel' next ;;
           modify_node that (fun n => set_root None (set_branch None n)) ;;
           ret VUndef)
        0 VUndef
  end.

Arguments breakBackLinks : simpl never.

(** ** Vocabulary for the statements about the rest of the code *)

(** The calls of abort listeners that an abort of [c] makes: the
    listeners of a node run, without arguments, unless the node has been
    callbacked or errbacked, and before those of the nodes below it; the
    next links are gone through in order.  [depth] bounds the depth. *)
Fixpoint abort_trace (depth : nat) (h : list node) (c : ref) : list event :=
  match depth with
  | O => []
  | S depth' =>
      match h !! c with
      | None => []
      | Some n =>
          (if negb (callbacked n) && negb (errbacked n)
           then calls (abortFunctions n) [] else [])
          ++ flat_map (abort_trace depth' h) (nextLinks n)
      end
  end.

(** A node after [propagateAbort] has gone through it with [args]. *)
Definition aborted_with (args : list value) (n : node) : node :=
  set_root None (set_branch None (set_aborted true args n)).

(** [d = new Deferred(); a = d.then(f1); b = d.then(f2); a.onAbort(g)] *)
Definition two_children_one_listener : M ref :=
  d <- new_Deferred None None ;;
  a <- then_ (dispatch 8) d (log_fn "f1") ;;
  b <- then_ (dispatch 8) d (log_fn "f2") ;;
  onAbort (dispatch 8) a (log_fn "g").

(** [d = new Deferred(); d.onAbort(g1); d.onAbort(g2)] *)
Definition two_listeners : M ref :=
  d <- new_Deferred None None ;;
  onAbort (dispatch 8) d (log_fn "g1") ;;
  onAbort (dispatch 8) d (log_fn "g2").

(** [d = new Deferred(); d.callback(1)], and the event loop has run dry. *)
Definition resolved_alone : state :=
  settled (state_after (d <- new_Deferred None None ;; callback d [VNum 1])).

(** [d = new Deferred(); d.orIfError(h); d.andAtLast(fin)] *)
Definition handler_and_finally : M value :=
  d <- new_Deferred None None ;;
  orIfError d (log_fn "h") ;;
  andAtLast d (log_fn "fin").

(** [d = new Deferred(); c = d.then(f)] *)
Definition one_link : M ref :=
  d <- new_Deferred None None ;;
  then_ (dispatch 8) d (log_fn "f").

(** [d = new Deferred(); c = d.then(f); c.orIfError(h)] *)
Definition link_with_handler : M ref :=
  d <- new_Deferred None None ;;
  c <- then_ (dispatch 8) d (FUser "f" (fun _ => UThrow (VStr "boom"))) ;;
  orIfError c (log_fn "h").

(** [d = new Deferred(); d.then(f1); d.then(f2)], where [f1] throws. *)
Definition two_callbacks_first_throws : M ref :=
  d <- new_Deferred None None ;;
  then_ (dispatch 8) d (FUser "f1" (fun _ => UThrow (VStr "boom"))) ;;
  then_ (dispatch 8) d (log_fn "f2").

(** [d = new Deferred(); d.then(f).then(g)], where [f] returns 5. *)
Definition chain_of_callbacks : M ref :=
  d <- new_Deferred None None ;;
  c <- then_ (dispatch 8) d (FUser "f" (fun _ => URet (VNum 5))) ;;
  then_ (dispatch 8) c (log_fn "g").

(** [d = new Deferred(); a = d.then(f1); b = d.then(f2); d.abort()] *)
Definition aborted_with_two_links : M ref :=
  d <- new_Deferred None None ;;
  then_ (dispatch 8) d (log_fn "f1") ;;
  then_ (dispatch 8) d (log_fn "f2") ;;
  abort 8 (dispatch 8) d [].

(** [d = new Deferred(); a = d.then(f1); b = d.then(f2); a.abort();
    b.abort()] *)
Definition both_links_aborted : M ref :=
  d <- new_Deferred None None ;;
  a <- then_ (dispatch 8) d (log_fn "f1") ;;
  b <- then_ (dispatch 8) d (log_fn "f2") ;;
  abort 8 (dispatch 8) a [] ;;
  abort 8 (dispatch 8) b [].

(** [d = new Deferred(); d.orIfError(h0); d.errback("E")], and the event
    loop has run dry. *)
Definition failed_and_handled : state :=
  settled (state_after failed_with_handler).

(** The inputs [ds] of a [when] succeed one after the other, in the order
    [order] of their indices, the input of index [i] with the value
    [vs !! i]; the event loop takes one turn after each of them. *)
Fixpoint succeed_in_order (fuel : nat) (ds : list ref) (vs : list value)
    (order : list nat) (s : state) : option state :=
  match order with
  | [] => Some s
  | i :: rest =>
      match ds !! i, vs !! i with
      | Some a, Some v =>
          match callback a [v] s with
          | Ret _ s1 =>
              match tick fuel s1 with
              | Some s2 => succeed_in_order fuel ds vs rest s2
              | None => None
              end
          | _ => None
          end
      | _, _ => None
      end
  end.

(** A [when] under way: the inputs whose indices are in [todo] are still
    wired and pending, the others have succeeded and their values are in
    the aggregate; nothing is waiting in the event loop. *)
Definition when_progress (s : state) (fr : nat) (ds : list ref)
    (vs : list value) (J : ref) (todo : list nat) : Prop :=
  timers s = [] /\
  (exists rv,
     whens s !! fr
     = Some (mkWhen J rv (length ds) (length ds - length todo) (VDef <$> ds)) /\
     length rv <= length ds /\
     forall i, i < length ds -> i ∉ todo -> rv !! i = vs !! i) /\
  NoDup ds /\ NoDup todo /\
  (forall i, i ∈ todo ->
     exists a na nt,
       ds !! i = Some a /\ a < J /\
       heap s !! a = Some na /\
       callbacked na = false /\ errbacked na = false /\ aborted na = false /\
       finallyFunction na = None /\
       callbackFunctions na = [FWhenThen fr i] /\
       nextLinks na = [J + 1 + i] /\
       heap s !! (J + 1 + i) = Some nt /\
       callbacked nt = false /\ errbacked nt = false /\ aborted nt = false /\
       callbackFunctions nt = [] /\ finallyFunction nt = None) /\
  heap s !! J = Some (fresh_node J J).

(** [d = new Deferred(); d.then(f1); d.then(f2)] *)
Definition two_links : M ref :=
  d <- new_Deferred None None ;;
  then_ (dispatch 8) d (log_fn "f1") ;;
  then_ (dispatch 8) d (log_fn "f2").

(** ... with a default error handler registered. *)
Definition two_links_and_default_handler : M ref :=
  registerDefaultErrorHandler (log_fn "dflt") ;;
  two_links.

(** [d = new Deferred(); d.onProgress(p1); d.onProgress(p2);
    d.onPartialResult(r1)] *)
Definition three_listeners : M ref :=
  d <- new_Deferred None None ;;
  onProgress (dispatch 8) d (log_fn "p1") ;;
  onProgress (dispatch 8) d (log_fn "p2") ;;
  onPartialResult d (log_fn "r1").

(** [a = new Deferred(); b = new Deferred(); o = select(a, b);
    o.orIfError(h)] *)
Definition select_with_handler : M ref :=
  a <- new_Deferred None None ;;
  b <- new_Deferred None None ;;
  o <- select 4 [VDef a; VDef b] ;;
  orIfError o (log_fn "h").

(** [p = new Deferred(); inner = new Deferred();
    c = p.then(function () { return inner; }); c.then(g)] *)
Definition splice_with_continuation : M ref :=
  p <- new_Deferred None None ;;
  inner <- new_Deferred None None ;;
  c <- then_ (dispatch 8) p (FUser "f" (fun _ => URet (VDef inner))) ;;
  then_ (dispatch 8) c (log_fn "g").
(** * Reasoning tools *)

Lemma lookup_update_same (h : list node) d n n' :
  h !! d = Some n -> <[d := n']> h !! d = Some n'.
Proof. intros H. apply list_lookup_insert_eq. eapply lookup_lt_Some, H. Qed.

Lemma lookup_update_other (h : list node) d x n' :
  d <> x -> <[d := n']> h !! x = h !! x.
Proof. intros H. now apply list_lookup_insert_ne. Qed.

Lemma lookup_alloc_old (h : list node) x n m :
  h !! x = Some n -> (h ++ [m]) !! x = Some n.
Proof. intros H. now apply lookup_app_l_Some. Qed.

Lemma lookup_alloc_new (h : list node) m : (h ++ [m]) !! length h = Some m.
Proof. rewrite lookup_app_r by lia. now rewrite Nat.sub_diag. Qed.

Lemma lookup_fresh_ne (h : list node) x n : h !! x = Some n -> x <> length h.
Proof. intros H%lookup_lt_Some. lia. Qed.

(** [dispatch] and [for_loop], one step at a time. *)
Lemma dispatch_apply fuel f args :
  dispatch (S fuel) (CApply f args) = apply fuel (dispatch fuel) f args.
Proof. reflexivity. Qed.
Lemma dispatch_runErrback fuel that e faulty :
  dispatch (S fuel) (CRunErrback that e faulty)
  = runErrback fuel (dispatch fuel) that e faulty.
Proof. reflexivity. Qed.
Lemma dispatch_runCallback fuel that args :
  dispatch (S fuel) (CRunCallback that args)
  = runCallback fuel (dispatch fuel) that args.
Proof. reflexivity. Qed.
Lemma dispatch_setBranch fuel that newBranch :
  dispatch (S fuel) (CSetBranch that newBranch)
  = setBranch fuel (dispatch fuel) that newBranch.
Proof. reflexivity. Qed.
Lemma dispatch_propagateAbort fuel that args :
  dispatch (S fuel) (CPropagateAbort that args)
  = propagateAbort fuel (dispatch fuel) that args.
Proof. reflexivity. Qed.

Lemma for_loop_unfold {A} fuel (len : M nat) (body : nat -> A -> M A) i acc :
  for_loop (S fuel) len body i acc =
  (n <- len ;;
   if i <? n then acc' <- body i acc ;; for_loop fuel len body (S i) acc'
   else ret acc).
Proof. reflexivity. Qed.

(** The invariant rule for [for_loop]: the array has [n] elements as long
    as the invariant holds, and every iteration returns and keeps it. *)
Lemma for_loop_rule {A} (I : nat -> A -> state -> Prop) (len : M nat)
    (body : nat -> A -> M A) (n : nat) :
  (forall i acc s, I i acc s -> len s = Ret n s) ->
  (forall i acc s, i < n -> I i acc s ->
     exists acc' s', body i acc s = Ret acc' s' /\ I (S i) acc' s') ->
  forall fuel i acc s, i <= n -> n - i < fuel -> I i acc s ->
  exists acc' s', for_loop fuel len body i acc s = Ret acc' s' /\ I n acc' s'.
Proof.
  intros Hlen Hbody fuel.
  induction fuel as [|fuel IH]; intros i acc s Hi Hfuel HI; [lia|].
  rewrite for_loop_unfold. cbn [bind]. rewrite (Hlen _ _ _ HI).
  destruct (Nat.ltb_spec i n) as [Hlt|Hge].
  - destruct (Hbody _ _ _ Hlt HI) as (acc' & s' & Hb & HI').
    cbn [bind]. rewrite Hb. apply IH; [lia|lia|exact HI'].
  - assert (i = n) as -> by lia. now exists acc, s.
Qed.

(** A loop over an empty range does nothing. *)
Lemma for_loop_done {A} (len : M nat) (body : nat -> A -> M A) fuel n i acc s :
  len s = Ret n s -> n <= i ->
  for_loop (S fuel) len body i acc s = Ret acc s.
Proof.
  intros Hlen Hi. rewrite for_loop_unfold. cbn [bind]. rewrite Hlen.
  destruct (Nat.ltb_spec i n); [lia|reflexivity].
Qed.

(** One iteration of a loop. *)
Lemma for_loop_step {A} (len : M nat) (body : nat -> A -> M A) fuel n i acc s :
  len s = Ret n s -> i < n ->
  for_loop (S fuel) len body i acc s =
  (acc' <- body i acc ;; for_loop fuel len body (S i) acc') s.
Proof.
  intros Hlen Hi. rewrite for_loop_unfold. cbn [bind]. rewrite Hlen.
  destruct (Nat.ltb_spec i n); [reflexivity|lia].
Qed.

(** Side conditions about indices into the store. *)
Ltac len_facts :=
  repeat match goal with
    | H : ?l !! ?i = Some _ |- _ =>
        lazymatch goal with
        | _ : i < length l |- _ => fail
        | _ => pose proof (lookup_lt_Some _ _ _ H)
        end
    end.
Ltac len_solve :=
  len_facts;
  repeat first
    [ rewrite length_app
    | rewrite length_insert
    | match goal with
      | H : context [length (_ ++ _)] |- _ => rewrite length_app in H
      | H : context [length (<[_ := _]> _)] |- _ => rewrite length_insert in H
      end ];
  cbn [length] in *;
  first [lia | congruence].

(** Reading the store after updates and allocations. *)
Ltac look :=
  match goal with
  | H : ?h !! ?d = Some _ |- context [?h !! ?d] => rewrite H
  | |- context [(?l ++ [?m]) !! ?x] =>
      first
        [ rewrite (lookup_app_l l [m] x) by len_solve
        | rewrite (lookup_app_r l [m] x) by len_solve;
          replace (x - length l) with 0 by len_solve ]
  | |- context [<[?d := ?v]> ?l !! ?x] =>
      first
        [ rewrite (list_lookup_insert_eq l d v) by len_solve
        | rewrite (list_lookup_insert_ne l d x v) by len_solve ]
  | H : ?l = _ |- context [?l] => tryif is_var l then fail else rewrite H
  end.
(** Stores in normal form: one update per index, allocations outermost. *)
Ltac norm :=
  repeat first
    [ rewrite list_insert_insert_eq
    | rewrite insert_app_l by len_solve ];
  cbn.

(** Two stores are equal when they agree at the given references and
    everywhere else. *)
Ltac split_on x ks :=
  lazymatch ks with
  | (?k, ?rest) => destruct (decide (x = k)) as [->|?]; [|split_on x rest]
  | tt => idtac
  end.

Ltac unf :=
  rewrite ?dispatch_apply, ?dispatch_runErrback, ?dispatch_runCallback,
    ?dispatch_setBranch, ?dispatch_propagateAbort.
(** Symbolic execution up to the next loop, and through loops over arrays
    whose length is known. *)
Ltac run := repeat (cbn; rewrite ?length_insert; repeat look; unf).
Ltac run_loops :=
  repeat (cbn; rewrite ?length_insert; repeat look; unf; rewrite ?for_loop_unfold).
(** Two states are equal when their six components are. *)
Lemma state_ext (s1 s2 : state) :
  heap s1 = heap s2 -> timers s1 = timers s2 -> trace s1 = trace s2 ->
  defaultErrorHandler s1 = defaultErrorHandler s2 ->
  whens s1 = whens s2 -> selects s1 = selects s2 ->
  s1 = s2.
Proof. destruct s1, s2. cbn. now intros -> -> -> -> -> ->. Qed.

Ltac st_eq :=
  apply state_ext;
  cbn [heap timers trace defaultErrorHandler whens selects
       set_heap set_timers set_trace set_defaultErrorHandler set_whens set_selects].
Ltac open_state s :=
  let h := fresh "h" in
  destruct s as [h ? ? ? ? ?];
  cbn [heap trace timers defaultErrorHandler whens selects] in *.

Ltac heap_eq ks :=
  apply list_eq; let x := fresh "x" in intros x; split_on x ks; now run.

(** * Facts about single methods *)

Lemma calls_app fs gs args : calls (fs ++ gs) args = calls fs args ++ calls gs args.
Proof. unfold calls. now rewrite flat_map_app. Qed.

Lemma returns_on_inv args f :
  returns_on args f = true ->
  exists name body v, f = FUser name body /\ body args = URet v.
Proof.
  destruct f as [name body| | | | | | |]; cbn; try discriminate.
  destruct (body args) as [v|] eqn:E; [|discriminate]. intros _. now exists name, body, v.
Qed.

Lemma calls_cons name body fs args :
  calls (FUser name body :: fs) args = EvCall name args :: calls fs args.
Proof. reflexivity. Qed.

Lemma calls_nil args : calls [] args = [].
Proof. reflexivity. Qed.

Lemma calls_take_S fs args i name body :
  fs !! i = Some (FUser name body) ->
  calls (take (S i) fs) args = calls (take i fs) args ++ [EvCall name args].
Proof. intros Hi. erewrite take_S_r by exact Hi. now rewrite calls_app. Qed.

(** Applying a user function that returns. *)
Lemma apply_returns fuel f args s :
  returns_on args f = true ->
  exists v, dispatch (S fuel) (CApply f args) s
            = Ret v (set_trace (trace s ++ calls [f] args) s).
Proof.
  intros (name & body & v & -> & Hb)%returns_on_inv. exists v.
  rewrite dispatch_apply. cbn. now rewrite Hb.
Qed.

(** [runErrback] on a node with handlers of its own: they all run, the
    node is errbacked and unlinked, and the answer is [true].  The next
    links are not looked at. *)
Lemma runErrback_handled (s : state) d n e faulty fuel :
  heap s !! d = Some n ->
  errbacked n = false -> aborted n = false ->
  errbackFunctions n <> [] ->
  Forall (fun f => returns_on [e] f = true) (errbackFunctions n) ->
  finallyFunction n = None ->
  dispatch (2 + length (errbackFunctions n) + fuel) (CRunErrback d e faulty) s
  = Ret (VBool true)
      (set_trace (trace s ++ calls (errbackFunctions n) [e])
         (set_heap (<[d := unlinked (set_errbacked true e n)]> (heap s)) s)).
Proof.
  intros Hd He Ha Hne Hall Hfin. open_state s.
  remember (errbackFunctions n) as hs eqn:Hhs. symmetry in Hhs.
  change (2 + length hs + fuel) with (S (S (length hs + fuel))).
  run.
  match goal with
  | |- context [for_loop ?f ?l ?b 0 ?a ?st] =>
      destruct (for_loop_rule
                  (fun j acc s' =>
                     acc = (if j is 0 then VBool false else VBool true) /\
                     s' = set_trace (trace st ++ calls (take j hs) [e]) st)
                  l b (length hs))
        with (fuel := f) (i := 0) (acc := a) (s := st)
        as (acc' & s' & -> & -> & ->)
  end.
  - intros i acc s' [_ ->]. run. reflexivity.
  - intros i acc s' Hi [-> ->].
    destruct (lookup_lt_is_Some_2 hs i Hi) as [f Hf].
    destruct (returns_on_inv _ _ (Forall_lookup_1 _ _ _ _ Hall Hf))
      as (name & body & v & -> & Hb).
    eexists _, _. split; [run; reflexivity|]. split; [reflexivity|].
    rewrite (calls_take_S _ _ _ _ _ Hf). cbn. now rewrite app_assoc.
  - lia.
  - lia.
  - split; [reflexivity|]. cbn. now rewrite calls_nil, app_nil_r.
  - destruct hs as [|h0 hs']; [congruence|]. rewrite firstn_all. run.
    norm. reflexivity.
Qed.

(** The loops that call every listener of one array of a node
    ([abortFunctions], [progressFunctions], [partialResultFunctions]):
    when the listeners return, the trace gains their calls and nothing
    else changes. *)
Lemma broadcast_loop (field : node -> list fn) (s : state) that n args fuel fuel' :
  heap s !! that = Some n ->
  Forall (fun f => returns_on args f = true) (field n) ->
  length (field n) < fuel -> 0 < fuel' ->
  for_loop fuel (length_of that field)
    (fun i _ =>
       f <- element that field i ;;
       dispatch fuel' (CApply f args) ;;
       ret tt)
    0 tt s
  = Ret tt (set_trace (trace s ++ calls (field n) args) s).
Proof.
  intros Hd Hall Hfuel Hfuel'. open_state s.
  destruct fuel' as [|fuel']; [lia|].
  match goal with
  | |- for_loop ?f ?l ?b 0 ?a ?st = _ =>
      destruct (for_loop_rule
                  (fun j (_ : unit) s' =>
                     s' = set_trace (trace st ++ calls (take j (field n)) args) st)
                  l b (length (field n)))
        with (fuel := f) (i := 0) (acc := a) (s := st)
        as ([] & s' & -> & ->)
  end.
  - intros i acc s' ->. run. reflexivity.
  - intros i acc s' Hi ->.
    destruct (lookup_lt_is_Some_2 (field n) i Hi) as [f Hf].
    destruct (returns_on_inv _ _ (Forall_lookup_1 _ _ _ _ Hall Hf))
      as (name & body & v & -> & Hb).
    eexists _, _. split; [run; reflexivity|].
    rewrite (calls_take_S _ _ _ _ _ Hf). cbn. now rewrite app_assoc.
  - lia.
  - lia.
  - cbn. now rewrite calls_nil, app_nil_r.
  - now rewrite firstn_all.
Qed.

Lemma pending_inv n :
  pending n = true ->
  callbacked n = false /\ errbacked n = false /\ aborted n = false.
Proof.
  unfold pending. destruct (callbacked n), (errbacked n), (aborted n); cbn;
    intros; try discriminate; auto.
Qed.

(** [abort] on a pending node whose only next link is a pending leaf
    without listeners: both become aborted and unlinked, and the abort
    listeners of the node are called, without arguments. *)
Lemma abort_with_one_link (s : state) a na t nt fuel :
  heap s !! a = Some na ->
  callbacked na = false -> errbacked na = false -> aborted na = false ->
  nextLinks na = [t] ->
  Forall (fun f => returns_on [] f = true) (abortFunctions na) ->
  heap s !! t = Some nt -> a <> t ->
  callbacked nt = false -> errbacked nt = false -> aborted nt = false ->
  abortFunctions nt = [] -> nextLinks nt = [] ->
  length (abortFunctions na) + 3 <= fuel ->
  abort fuel (dispatch fuel) a [] s
  = Ret a
      (set_trace (trace s ++ calls (abortFunctions na) [])
         (set_heap
            (<[a := unlinked (set_aborted true [] na)]>
               (<[t := unlinked (set_aborted true [] nt)]> (heap s))) s)).
Proof.
  intros Ha Hac Hae Haa Han Hall Ht Hne Htc Hte Hta Htf Htn Hfuel.
  open_state s.
  do 3 (destruct fuel as [|fuel]; [lia|]).
  run.
  erewrite (broadcast_loop abortFunctions) with (n := set_aborted true [] na);
    [|now run|exact Hall|cbn; lia|lia].
  run_loops. norm.
  rewrite (list_insert_insert_ne _ a t) by congruence. norm.
  rewrite (list_insert_insert_ne _ t a) by congruence. norm.
  reflexivity.
Qed.

(** The registration loop shared by [when] and [select]: every input
    gets the success listener [F i] and its new next link gets the error
    listener [G]. *)
Lemma registration_loop (F : nat -> fn) (G : fn) (s0 : state) (ds : list ref)
    fuel rec :
  (forall i a, ds !! i = Some a ->
     exists na, heap s0 !! a = Some na /\
       callbacked na = false /\ errbacked na = false /\ aborted na = false /\
       callbackFunctions na = []) ->
  NoDup ds ->
  length ds < fuel ->
  exists h1,
    for_loop fuel (ret (length (VDef <$> ds)))
      (fun i _ =>
         match default VUndef ((VDef <$> ds) !! i) with
         | VDef a => t <- then_ rec a (F i) ;; orIfError t G ;; ret tt
         | _ => throw not_a_deferred
         end)
      0 tt s0
    = Ret tt (set_heap h1 s0) /\
    length h1 = length (heap s0) + length ds /\
    (forall i a na, ds !! i = Some a -> heap s0 !! a = Some na ->
       h1 !! a = Some (linked_input (F i) (length (heap s0) + i) na) /\
       h1 !! (length (heap s0) + i)
         = Some (listening_link G (length (heap s0) + i) na)) /\
    (forall x, x < length (heap s0) -> x ∉ ds -> h1 !! x = heap s0 !! x).
Proof.
  intros Hin Hnd Hfuel. open_state s0.
  match goal with
  | |- context [for_loop ?fu ?le ?bo 0 ?ac ?st] =>
      destruct (for_loop_rule
                  (fun j (_ : unit) s' =>
                     exists hj, s' = set_heap hj st /\
                       length hj = length h + j /\
                       (forall i a na, ds !! i = Some a -> i < j ->
                          h !! a = Some na ->
                          hj !! a = Some (linked_input (F i) (length h + i) na) /\
                          hj !! (length h + i)
                            = Some (listening_link G (length h + i) na)) /\
                       (forall x, x < length h ->
                          (forall i, i < j -> ds !! i <> Some x) ->
                          hj !! x = h !! x))
                  le bo (length ds))
        with (fuel := fu) (i := 0) (acc := ac) (s := st)
        as ([] & s' & Hrun & h1 & -> & Hlen & Hreg & Hother)
  end.
  - intros i acc s' _. cbn. now rewrite length_fmap.
  - intros j acc s' Hj (hj & -> & Hlen & Hreg & Hother).
    destruct (lookup_lt_is_Some_2 ds j Hj) as [a Ha].
    destruct (Hin j a Ha) as (na & Hna & Hc & He & Hab & Hcf).
    assert (Ha_lt : a < length h) by (eapply lookup_lt_Some, Hna).
    assert (Hfresh : forall i, i < j -> ds !! i <> Some a).
    { intros i Hi Hia. pose proof (NoDup_lookup _ _ _ _ Hnd Hia Ha). lia. }
    assert (Hja : hj !! a = Some na) by (rewrite Hother; auto).
    rewrite list_lookup_fmap, Ha. cbn [fmap option_fmap option_map default].
    eexists tt, _. split; [run; norm; reflexivity|].
    eexists. split; [reflexivity|]. split; [len_solve|]. split.
    + intros i a' na' Hi Hlt Hna'.
      destruct (decide (i = j)) as [->|Hij].
      * assert (a' = a) as -> by congruence.
        assert (na' = na) as -> by congruence.
        unfold linked_input, listening_link.
        split; run; rewrite ?Hlen; reflexivity.
      * destruct (Hreg i a' na' Hi ltac:(lia) Hna') as [R1 R2].
        assert (a' <> a).
        { intros ->. pose proof (NoDup_lookup _ _ _ _ Hnd Hi Ha). lia. }
        assert (a' < length h) by (eapply lookup_lt_Some, Hna').
        split; run; reflexivity.
    + intros x Hx Hxi.
      assert (x <> a) by (intros ->; apply (Hxi j); [lia|exact Ha]).
      run. apply Hother; [assumption|]. intros i Hi. apply Hxi. lia.
  - lia.
  - lia.
  - exists h. split; [reflexivity|]. split; [lia|]. split; [intros; lia|].
    reflexivity.
  - exists h1. split; [exact Hrun|]. split; [exact Hlen|]. split.
    + intros i a na Hi Hna. apply Hreg; [assumption| |assumption].
      eapply lookup_lt_Some, Hi.
    + intros x Hx Hnot. apply Hother; [assumption|].
      intros i _ Hi. apply Hnot. eapply list_elem_of_lookup_2, Hi.
Qed.

(** A value that is not a Deferred takes the other branch. *)
Lemma not_deferred_match {A} (v : value) (f : ref -> A) (g : A) :
  (forall i, v <> VDef i) ->
  match v with VDef p => f p | _ => g end = g.
Proof. intros Hv. destruct v; try reflexivity. now destruct (Hv d). Qed.

(** * Facts about [select] *)

Lemma abort_calls_nil k : abort_calls k [] = [].
Proof. reflexivity. Qed.

Lemma abort_calls_snoc k afs j fs :
  afs !! j = Some fs ->
  abort_calls k (take (S j) afs)
  = abort_calls k (take j afs) ++ (if j =? k then [] else calls fs []).
Proof.
  intros Hj. unfold abort_calls.
  erewrite take_S_r by exact Hj.
  rewrite imap_app, concat_app. cbn.
  rewrite length_take_le by (apply Nat.lt_le_incl; eapply lookup_lt_Some, Hj).
  now rewrite Nat.add_0_r, app_nil_r.
Qed.

(** The loop of the success listener of [select] that aborts the losers.
    [s] is the state in which the loop starts: the winner is recorded in
    the frame, and every other input is still pending and linked to its
    bare link. *)
Lemma select_abort_loop (s : state) fr ds (d : ref) k ak w afs fuel :
  selects s !! fr = Some w ->
  select_args w = VDef <$> ds -> winner w = VDef ak ->
  NoDup ds -> ds !! k = Some ak ->
  length afs = length ds ->
  (forall i a, ds !! i = Some a -> i <> k ->
     a < d /\
     exists na nt,
       heap s !! a = Some na /\
       callbacked na = false /\ errbacked na = false /\ aborted na = false /\
       nextLinks na = [d + 1 + i] /\
       afs !! i = Some (abortFunctions na) /\
       Forall (fun f => returns_on [] f = true) (abortFunctions na) /\
       heap s !! (d + 1 + i) = Some nt /\ bare_link nt) ->
  (forall fs, fs ∈ afs -> length fs + 3 <= fuel) ->
  length ds < fuel ->
  exists h',
    for_loop fuel (ret (length ds))
      (fun i2 _ =>
         w <- get_select fr ;;
         let a := default VUndef (select_args w !! i2) in
         if same_object a (winner w) then ret tt
         else d <- as_deferred a ;; abort fuel (dispatch fuel) d [] ;; ret tt)
      0 tt s
    = Ret tt (set_trace (trace s ++ abort_calls k afs) (set_heap h' s)) /\
    length h' = length (heap s) /\
    (forall i a, ds !! i = Some a -> i <> k ->
       aborted <$> h' !! a = Some true) /\
    (forall x,
       (forall i a, ds !! i = Some a -> i <> k -> x <> a /\ x <> d + 1 + i) ->
       h' !! x = heap s !! x).
Proof.
  intros Hfr Hargs Hwin Hnd Hk Hafs Hin Hfuel1 Hfuel2. open_state s.
  Opaque abort.
  match goal with
  | |- context [for_loop ?fu ?le ?bo 0 ?ac ?st] =>
      destruct (for_loop_rule
                  (fun j (_ : unit) s' =>
                     exists hj,
                       s' = set_trace (trace st ++ abort_calls k (take j afs))
                              (set_heap hj st) /\
                       length hj = length h /\
                       (forall i a, ds !! i = Some a -> i <> k -> i < j ->
                          aborted <$> hj !! a = Some true) /\
                       (forall x,
                          (forall i a, ds !! i = Some a -> i <> k -> i < j ->
                             x <> a /\ x <> d + 1 + i) ->
                          hj !! x = h !! x))
                  le bo (length ds))
        with (fuel := fu) (i := 0) (acc := ac) (s := st)
        as ([] & s' & Hrun & h' & -> & Hlen & Hab & Hother)
  end.
  - intros i acc s' _. reflexivity.
  - intros j acc s' Hj (hj & -> & Hlen & Hab & Hother).
    destruct (lookup_lt_is_Some_2 ds j Hj) as [a Ha].
    destruct (lookup_lt_is_Some_2 afs j ltac:(lia)) as [fs Hfs].
    rewrite (abort_calls_snoc _ _ _ _ Hfs).
    cbn. rewrite Hfr. cbn. rewrite Hargs, Hwin, list_lookup_fmap, Ha. cbn.
    destruct (Nat.eqb_spec j k) as [->|Hjk].
    + assert (a = ak) as -> by congruence. rewrite Nat.eqb_refl.
      eexists tt, _. split; [reflexivity|]. exists hj.
      split; [now rewrite app_nil_r|]. split; [exact Hlen|]. split.
      * intros i a Hi Hik Hlt. apply (Hab i a); [assumption..|lia].
      * intros x Hx. apply Hother. intros i a Hi Hik Hlt.
        apply (Hx i a); [assumption..|lia].
    + destruct (Hin j a Ha Hjk)
        as (Had & na & nt & Hna & Hc & He & Hab' & Hnl & Hafsj & Hall & Hnt & Hbare).
      destruct Hbare as (Htc & Hte & Hta & Htcf & Htn & Htaf & Htf).
      assert (fs = abortFunctions na) as -> by congruence.
      destruct (Nat.eqb_spec a ak) as [Heq|Hne].
      { subst a. assert (j = k) by (eapply NoDup_lookup; eauto). lia. }
      assert (Hja : hj !! a = Some na).
      { rewrite Hother; [exact Hna|]. intros i a' Hi Hik Hlt.
        destruct (Hin i a' Hi Hik) as (Had' & _). split; [|lia].
        intros ->. assert (i = j) by (eapply NoDup_lookup; eauto). lia. }
      assert (Hjt : hj !! (d + 1 + j) = Some nt).
      { rewrite Hother; [exact Hnt|]. intros i a' Hi Hik Hlt.
        destruct (Hin i a' Hi Hik) as (Had' & _). lia. }
      cbn.
      match goal with
      | |- context [abort _ _ _ _ ?st] =>
          pose proof (abort_with_one_link st a na (d + 1 + j) nt fuel) as L
      end.
      Transparent abort.
      cbn [heap trace set_heap set_trace timers defaultErrorHandler whens selects] in L.
      rewrite L; try assumption; try lia.
      2:{ apply Hfuel1. eapply list_elem_of_lookup_2, Hafsj. }
      cbn [bind ret].
      eexists tt, _. split; [reflexivity|]. eexists.
      split; [st_eq; try reflexivity; now rewrite app_assoc|]. split; [len_solve|]. split.
      * intros i a' Hi Hik Hlt.
        destruct (decide (i = j)) as [->|Hij].
        -- assert (a' = a) as -> by congruence. now run.
        -- destruct (Hin i a' Hi Hik) as (Had' & _).
           assert (a' <> a).
           { intros ->. assert (i = j) by (eapply NoDup_lookup; eauto). lia. }
           run. apply (Hab i a'); [assumption..|lia].
      * intros x Hx.
        destruct (Hx j a Ha Hjk ltac:(lia)) as [X1 X2].
        run. apply Hother. intros i a' Hi Hik Hlt.
        apply (Hx i a'); [assumption..|lia].
  - lia.
  - lia.
  - exists h. split; [cbn; now rewrite abort_calls_nil, app_nil_r|].
    split; [reflexivity|]. split; [intros; lia|]. reflexivity.
  - exists h'.
    replace (take (length ds) afs) with afs in Hrun
      by (rewrite <- Hafs; symmetry; apply firstn_all).
    split; [exact Hrun|]. split; [exact Hlen|]. split.
    + intros i a Hi Hik. apply (Hab i a); [assumption..|]. eapply lookup_lt_Some, Hi.
    + intros x Hx. apply Hother. intros i a Hi Hik _. now apply (Hx i a).
Qed.

(** From a store wired by [select]: the first input to succeed resolves
    the output with its value and every other input is aborted. *)
Lemma select_first_success (s : state) fr ds d o k ak v afs fuel :
  select_wired s fr ds d o ->
  timers s = [] ->
  ds !! k = Some ak ->
  (forall i, v <> VDef i) ->
  afs = (fun a => abortFunctions (node_at s a)) <$> ds ->
  (forall fs, fs ∈ afs -> length fs + 3 <= fuel) ->
  length ds < fuel ->
  exists s1,
    callback ak [v] s = Ret ak s1 /\
    trace s1 = trace s /\
    exists s2,
    run_loop 2 (4 + fuel) s1 = Some s2 /\
    callbacked <$> heap s2 !! o = Some true /\
    callbackArgs <$> heap s2 !! o = Some [v] /\
    (forall i a, ds !! i = Some a -> i <> k ->
       aborted <$> heap s2 !! a = Some true) /\
    trace s2 = trace s ++ abort_calls k afs.
Proof.
  intros (Hfr & Hnd & Hin & (nd & Hd & Hdc & Hde & Hda & Hdf & Hdcf & Hdn)
          & (no & Ho & Hoc & Hoe & Hoa & Hocf & Hon & Hoaf & Hof) & Hoeq)
    Ht Hk Hv Hafs Hfuel1 Hfuel2.
  destruct (Hin k ak Hk)
    as (Hakd & nk & nt & Hnk & Hkc & Hke & Hka & Hkf & Hkcf & Hkn & Hkall
        & Hnt & Htc & Hte & Hta & Htcf & Htn & Htaf & Htf).
  assert (Hlen : k < length ds) by (eapply lookup_lt_Some, Hk).
  open_state s. subst timers0.
  run. eexists. split; [reflexivity|]. split; [reflexivity|].
  unfold tick. run. rewrite for_loop_unfold. run.
  rewrite list_lookup_fmap, Hk. run.
  match goal with
  | |- context [for_loop ?fu ?le ?bo 0 tt ?st] =>
      destruct (select_abort_loop st fr ds d k ak
                  (mkSelect d true (length ds) (VDef ak) (VDef <$> ds) false)
                  afs fu)
        as (h' & Hloop & Hlen' & Hab & Hother);
      [| | | | | | | | |
       rewrite (Hloop : for_loop fu le bo 0 tt st = _); clear Hloop]
  end.
  - now run.
  - reflexivity.
  - reflexivity.
  - exact Hnd.
  - exact Hk.
  - subst afs. now rewrite length_fmap.
  - intros i a Hi Hik.
    destruct (Hin i a Hi)
      as (Had & na & nt' & Hna & Hc & He & Ha & Hf & Hcf & Hn & Hall & Hnt' & Hbare).
    assert (a <> ak).
    { intros ->. assert (i = k) by (eapply NoDup_lookup; eauto). lia. }
    split; [exact Had|]. exists na, nt'. run.
    do 5 (split; [reflexivity|]). split.
    { subst afs. rewrite list_lookup_fmap, Hi. cbn. unfold node_at. cbn.
      now rewrite Hna. }
    split; [assumption|]. split; [reflexivity|assumption].
  - intros fs Hfs. specialize (Hfuel1 fs Hfs). lia.
  - lia.
  - cbn [heap set_heap set_selects set_timers set_trace] in Hother, Hlen'.
    assert (Hfree : forall x, x = ak \/ x = d \/ x = d + 1 + k \/ x = o ->
              forall i a, ds !! i = Some a -> i <> k -> x <> a /\ x <> d + 1 + i).
    { intros x Hx i a Hi Hik. destruct (Hin i a Hi) as (Had & _).
      assert (a <> ak).
      { intros ->. assert (i = k) by (eapply NoDup_lookup; eauto). lia. }
      assert (i < length ds) by (eapply lookup_lt_Some, Hi).
      lia. }
    assert (Hak' : h' !! ak = Some (set_callbacked true [v] (set_callbackArgs [v] nk))).
    { rewrite Hother by (apply Hfree; auto). now run. }
    assert (Htk' : h' !! (d + 1 + k) = Some nt).
    { rewrite Hother by (apply Hfree; auto). now run. }
    assert (Hd' : h' !! d = Some (set_callbackArgs [v] nd)).
    { rewrite Hother by (apply Hfree; auto). now run. }
    assert (Ho' : h' !! o = Some no).
    { rewrite Hother by (apply Hfree; auto). now run. }
    clear Hother.
    run_loops.
    rewrite (not_deferred_match v _ _ Hv).
    run_loops.
    eexists. split; [reflexivity|]. split; [now run|]. split; [now run|]. split.
    + intros i a Hi Hik.
      destruct (Hfree ak (or_introl eq_refl) i a Hi Hik).
      destruct (Hfree d (or_intror (or_introl eq_refl)) i a Hi Hik).
      destruct (Hfree (d + 1 + k) (or_intror (or_intror (or_introl eq_refl))) i a Hi Hik).
      destruct (Hfree o (or_intror (or_intror (or_intror eq_refl))) i a Hi Hik).
      run. now apply (Hab i a).
    + reflexivity.
Qed.

(** [select] on distinct inputs that have no continuation yet wires the
    store as [select_wired] says. *)
Lemma select_wires (s : state) ds fuel :
  (forall i a, ds !! i = Some a ->
     exists na, heap s !! a = Some na /\
       callbacked na = false /\ errbacked na = false /\ aborted na = false /\
       callbackFunctions na = [] /\ nextLinks na = [] /\
       finallyFunction na = None /\
       Forall (fun f => returns_on [] f = true) (abortFunctions na)) ->
  NoDup ds ->
  length ds < fuel ->
  exists s1,
    select fuel (VDef <$> ds) s = Ret (length (heap s) + 1 + length ds) s1 /\
    select_wired s1 (length (selects s)) ds (length (heap s))
      (length (heap s) + 1 + length ds) /\
    timers s1 = timers s /\ trace s1 = trace s /\
    (forall a, a ∈ ds ->
       abortFunctions (node_at s1 a) = abortFunctions (node_at s a)).
Proof.
  intros Hin Hnd Hfuel. open_state s. run.
  match goal with
  | |- context [for_loop ?fu ?le ?bo 0 tt ?st] =>
      destruct (registration_loop
                  (FSelectThen (length selects0)) (FSelectErr (length selects0))
                  st ds fu (dispatch fu))
        as (h1 & Hloop & Hlen & Hreg & Hother);
      [| | | rewrite (Hloop : for_loop fu le bo 0 tt st = _); clear Hloop]
  end.
  - intros i a Hi. destruct (Hin i a Hi) as (na & Hna & Hc & He & Ha & Hcf & _).
    exists na. run. auto.
  - exact Hnd.
  - exact Hfuel.
  - cbn [heap set_heap set_selects] in Hlen, Hreg, Hother.
    rewrite length_app in Hlen, Hreg, Hother. cbn [length] in Hlen, Hreg, Hother.
    rewrite length_fmap.
    assert (Hlt : forall a, a ∈ ds -> a < length h).
    { intros a [i Hi]%list_elem_of_lookup_1.
      destruct (Hin i a Hi) as (na & Hna & _). eapply lookup_lt_Some, Hna. }
    assert (Hd1 : h1 !! length h = Some (fresh_node (length h) (length h))).
    { rewrite Hother; [now run|lia|]. intros Hd. apply Hlt in Hd. lia. }
    run. eexists. split; [reflexivity|].
    split; [|split; [reflexivity|split; [reflexivity|]]].
    + unfold select_wired. cbn [heap selects set_heap set_selects].
      split; [now run|]. split; [exact Hnd|]. split; [|split; [|split]].
      * intros i a Hi.
        destruct (Hin i a Hi) as (na & Hna & Hc & He & Ha & Hcf & Hn & Hf & Hall).
        assert (a < length h) by (eapply lookup_lt_Some, Hna).
        destruct (Hreg i a na Hi) as [R1 R2]; [now run|].
        split; [assumption|].
        exists (linked_input (FSelectThen (length selects0) i) (length h + 1 + i) na),
          (listening_link (FSelectErr (length selects0)) (length h + 1 + i) na).
        assert (i < length ds) by (eapply lookup_lt_Some, Hi).
        run. unfold linked_input, listening_link, bare_link. cbn.
        rewrite Hn. repeat split; assumption.
      * eexists. run. repeat split; reflexivity.
      * eexists. run. unfold bare_link. repeat split; reflexivity.
      * reflexivity.
    + intros a Ha. pose proof (Hlt a Ha).
      destruct (list_elem_of_lookup_1 _ _ Ha) as [i Hi].
      destruct (Hin i a Hi) as (na & Hna & _).
      destruct (Hreg i a na Hi) as [R1 R2]; [now run|].
      unfold node_at. run. reflexivity.
Qed.

(** * Facts about [when] *)

(** An input of [when] fails while the output [J] is still pending and has
    error handlers: the failure reaches [J] through the link of the
    input. *)
Lemma when_input_fails_first (s : state) fr w J nJ a na t nt e fuel :
  whens s !! fr = Some w -> when_d w = J ->
  heap s !! J = Some nJ ->
  errbacked nJ = false -> aborted nJ = false ->
  errbackFunctions nJ <> [] ->
  Forall (fun f => returns_on [e] f = true) (errbackFunctions nJ) ->
  finallyFunction nJ = None ->
  heap s !! a = Some na ->
  errbacked na = false -> aborted na = false ->
  errbackFunctions na = [] -> nextLinks na = [t] -> finallyFunction na = None ->
  heap s !! t = Some nt ->
  errbacked nt = false -> aborted nt = false ->
  errbackFunctions nt = [FWhenErr fr] -> finallyFunction nt = None ->
  a <> t -> a <> J -> t <> J ->
  timers s = [] ->
  exists s1,
    errback a e s = Ret a s1 /\
    trace s1 = trace s /\
    tick (5 + length (errbackFunctions nJ) + fuel) s1
    = Some (set_trace (trace s ++ calls (errbackFunctions nJ) [e])
              (set_heap
                 (<[a := unlinked (set_errbacked true e na)]>
                    (<[t := unlinked (set_errbacked true e nt)]>
                       (<[J := unlinked (set_errbacked true e nJ)]> (heap s))))
                 s)).
Proof.
  intros Hfr HwJ HJ HJe HJa HJne HJall HJf Ha Hae Haa Haef Han Haf
    Ht Hte Hta Htef Htf Hne1 Hne2 Hne3 Htm.
  open_state s. subst timers0.
  change (5 + length (errbackFunctions nJ) + fuel)
    with (S (S (S (2 + length (errbackFunctions nJ) + fuel)))).
  remember (2 + length (errbackFunctions nJ) + fuel) as F eqn:HF.
  run.
  eexists. split; [reflexivity|]. split; [reflexivity|].
  unfold tick.
  run_loops.
  match goal with
  | |- context [dispatch _ (CRunErrback J e None) ?st] =>
      pose proof (runErrback_handled st J nJ e None fuel) as L
  end.
  cbn [heap] in L. rewrite HF, L; try assumption; [|now run]. clear L.
  run_loops. f_equal. st_eq; try reflexivity. heap_eq (a, (t, (J, tt))).
Qed.

(** An input fails when the output has already failed: the input and its
    link become errbacked, and that is all. *)
Lemma when_input_fails_later (s : state) fr w J nJ a na t nt e fuel :
  whens s !! fr = Some w -> when_d w = J ->
  heap s !! J = Some nJ -> errbacked nJ = true ->
  heap s !! a = Some na ->
  errbacked na = false -> aborted na = false ->
  errbackFunctions na = [] -> nextLinks na = [t] -> finallyFunction na = None ->
  heap s !! t = Some nt ->
  errbacked nt = false -> aborted nt = false ->
  errbackFunctions nt = [FWhenErr fr] -> finallyFunction nt = None ->
  a <> t -> a <> J -> t <> J ->
  timers s = [] ->
  exists s1,
    errback a e s = Ret a s1 /\
    trace s1 = trace s /\
    tick (5 + fuel) s1
    = Some (set_heap
              (<[a := unlinked (set_errbacked true e na)]>
                 (<[t := unlinked (set_errbacked true e nt)]> (heap s)))
              s).
Proof.
  intros Hfr HwJ HJ HJe Ha Hae Haa Haef Han Haf
    Ht Hte Hta Htef Htf Hne1 Hne2 Hne3 Htm.
  open_state s. subst timers0. run.
  eexists. split; [reflexivity|]. split; [reflexivity|].
  unfold tick. run_loops. f_equal. st_eq; try reflexivity. heap_eq (a, (t, tt)).
Qed.

(** An input succeeds when the output has already failed: the value is
    stored in the aggregate, the partial-result and progress listeners of
    the output are called all the same, and the output itself is left as
    it was. *)
Lemma when_input_succeeds_later (s : state) fr w J nJ a na t nt i v fuel :
  whens s !! fr = Some w -> when_d w = J ->
  heap s !! J = Some nJ -> errbacked nJ = true -> aborted nJ = false ->
  Forall (fun f => returns_on [VArr (array_set (returnValues w) i v)] f = true)
    (partialResultFunctions nJ) ->
  Forall (fun f => returns_on [VNum (Z.of_nat (deferredsDone w + 1));
                               VNum (Z.of_nat (when_total w))] f = true)
    (progressFunctions nJ) ->
  heap s !! a = Some na ->
  callbacked na = false -> errbacked na = false -> aborted na = false ->
  callbackFunctions na = [FWhenThen fr i] -> nextLinks na = [t] ->
  finallyFunction na = None ->
  heap s !! t = Some nt ->
  callbacked nt = false -> errbacked nt = false -> aborted nt = false ->
  callbackFunctions nt = [] -> finallyFunction nt = None ->
  a <> t -> a <> J -> t <> J ->
  timers s = [] ->
  length (partialResultFunctions nJ) < fuel ->
  length (progressFunctions nJ) < fuel ->
  exists s1,
    callback a [v] s = Ret a s1 /\
    trace s1 = trace s /\
    tick (4 + fuel) s1
    = Some (set_trace
              (trace s
               ++ calls (partialResultFunctions nJ)
                    [VArr (array_set (returnValues w) i v)]
               ++ calls (progressFunctions nJ)
                    [VNum (Z.of_nat (deferredsDone w + 1));
                     VNum (Z.of_nat (when_total w))])
              (set_whens
                 (<[fr := mkWhen (when_d w) (array_set (returnValues w) i v)
                            (when_total w) (deferredsDone w + 1) (when_args w)]>
                    (whens s))
                 (set_heap
                    (<[a := unlinked (set_callbacked true [v] na)]>
                       (<[t := unlinked (set_callbacked true [VUndef] nt)]>
                          (heap s)))
                    s))).
Proof.
  intros Hfr HwJ HJ HJe HJa Hps Hqs Ha Hac Hae Haa Hacf Han Haf
    Ht Htc Hte Hta Htcf Htf Hne1 Hne2 Hne3 Htm Hf1 Hf2.
  open_state s. subst timers0.
  change (4 + fuel) with (S (S (S (S fuel)))).
  remember (S (S fuel)) as F eqn:HF.
  run.
  eexists. split; [reflexivity|]. split; [reflexivity|].
  unfold tick. run_loops.
  erewrite (broadcast_loop partialResultFunctions) with (n := nJ);
    [|now run|exact Hps|lia|lia].
  run.
  erewrite (broadcast_loop progressFunctions) with (n := nJ);
    [|now run|exact Hqs|lia|lia].
  run.
  assert (Hcb : forall st, heap st !! J = Some nJ ->
            (if deferredsDone w + 1 =? when_total w
             then callback J (array_set (returnValues w) i v) ;; ret tt
             else ret tt) st = Ret tt st).
  { intros st Hst. destruct (deferredsDone w + 1 =? when_total w); [|reflexivity].
    cbn. now rewrite Hst, HJa, HJe. }
  rewrite Hcb by now run. clear Hcb.
  subst F. run_loops.
  f_equal. st_eq; try reflexivity.
  - heap_eq (a, (t, tt)).
  - now rewrite <- app_assoc.
Qed.

(** [when] on distinct inputs that have no continuation and no error
    handler yet wires the store as [when_wired] says. *)
Lemma when_wires (s : state) ds fuel :
  (forall i a, ds !! i = Some a ->
     exists na, heap s !! a = Some na /\ unattached na /\
       errbackFunctions na = []) ->
  NoDup ds ->
  length ds < fuel ->
  exists s1,
    when fuel (VDef <$> ds) s = Ret (length (heap s)) s1 /\
    when_wired s1 (length (whens s)) ds (length (heap s)) /\
    timers s1 = timers s /\ trace s1 = trace s.
Proof.
  intros Hin Hnd Hfuel. open_state s. run.
  match goal with
  | |- context [for_loop ?fu ?le ?bo 0 tt ?st] =>
      destruct (registration_loop
                  (FWhenThen (length whens0)) (FWhenErr (length whens0))
                  st ds fu (dispatch fu))
        as (h1 & Hloop & Hlen & Hreg & Hother);
      [| | | rewrite (Hloop : for_loop fu le bo 0 tt st = _); clear Hloop]
  end.
  - intros i a Hi.
    destruct (Hin i a Hi) as (na & Hna & (Hc & He & Ha & Hcf & _) & _).
    exists na. run. auto.
  - exact Hnd.
  - exact Hfuel.
  - cbn [heap set_heap set_whens] in Hlen, Hreg, Hother.
    rewrite length_app in Hlen, Hreg, Hother. cbn [length] in Hlen, Hreg, Hother.
    rewrite length_fmap.
    assert (Hlt : forall a, a ∈ ds -> a < length h).
    { intros a [i Hi]%list_elem_of_lookup_1.
      destruct (Hin i a Hi) as (na & Hna & _). eapply lookup_lt_Some, Hna. }
    assert (Hd1 : h1 !! length h = Some (fresh_node (length h) (length h))).
    { rewrite Hother; [now run|lia|]. intros Hd. apply Hlt in Hd. lia. }
    run. eexists. split; [reflexivity|].
    split; [|split; reflexivity].
    unfold when_wired. cbn [heap whens set_heap set_whens].
    split; [now run|]. split; [exact Hnd|]. split; [|exact Hd1].
    intros i a Hi.
    destruct (Hin i a Hi)
      as (na & Hna & (Hc & He & Ha & Hcf & Hn & Hf) & Hef).
    assert (a < length h) by (eapply lookup_lt_Some, Hna).
    destruct (Hreg i a na Hi) as [R1 R2]; [now run|].
    split; [assumption|].
    exists (linked_input (FWhenThen (length whens0) i) (length h + 1 + i) na),
      (listening_link (FWhenErr (length whens0)) (length h + 1 + i) na).
    split; [exact R1|]. unfold linked_input, listening_link, listening. cbn.
    do 5 (split; [assumption|]). split; [reflexivity|].
    split; [now rewrite Hn|]. split; [exact R2|]. repeat split; reflexivity.
Qed.

(** * Facts about branches *)

Lemma descends_ge h c y : forest h -> descends h c y -> c <= y.
Proof.
  intros [F1 _]. induction 1 as [|p np y _ IH Hp Hy]; [lia|].
  pose proof (F1 p np y Hp Hy). lia.
Qed.

Lemma descends_lt h c y : forest h -> c < length h -> descends h c y -> y < length h.
Proof.
  intros [F1 _] Hc. destruct 1 as [|p np y _ Hp Hy]; [lia|].
  pose proof (F1 p np y Hp Hy). lia.
Qed.

Lemma descends_below h c n x y :
  h !! c = Some n -> x ∈ nextLinks n -> descends h x y -> descends h c y.
Proof.
  intros Hc Hx. induction 1 as [|p np y _ IH Hp Hy].
  - eapply descends_child; [apply descends_here|exact Hc|exact Hx].
  - eapply descends_child; [exact IH|exact Hp|exact Hy].
Qed.

Lemma descends_shape h h' c y :
  (forall x, nextLinks <$> h' !! x = nextLinks <$> h !! x) ->
  descends h c y -> descends h' c y.
Proof.
  intros Hs. induction 1 as [|p np y _ IH Hp Hy]; [constructor|].
  pose proof (Hs p) as E. rewrite Hp in E. cbn in E.
  destruct (h' !! p) as [np'|] eqn:Hp'; [|discriminate].
  injection E as E. eapply descends_child; [exact IH|exact Hp'|now rewrite E].
Qed.

Lemma forest_shape h h' :
  length h' = length h ->
  (forall x, nextLinks <$> h' !! x = nextLinks <$> h !! x) ->
  forest h -> forest h'.
Proof.
  intros Hl Hs [F1 F2]. split.
  - intros p np c Hp Hc. pose proof (Hs p) as E. rewrite Hp in E. cbn in E.
    destruct (h !! p) as [np0|] eqn:Hp0; [|discriminate]. injection E as E.
    rewrite Hl. apply (F1 p np0 c Hp0). now rewrite <- E.
  - intros p np q nq i j c Hp Hq Hi Hj.
    pose proof (Hs p) as E. rewrite Hp in E. cbn in E.
    destruct (h !! p) as [np0|] eqn:Hp0; [|discriminate]. injection E as E.
    pose proof (Hs q) as E'. rewrite Hq in E'. cbn in E'.
    destruct (h !! q) as [nq0|] eqn:Hq0; [|discriminate]. injection E' as E'.
    rewrite E in Hi. rewrite E' in Hj.
    now apply (F2 p np0 q nq0 i j c).
Qed.

Lemma children_nodup h p np : forest h -> h !! p = Some np -> NoDup (nextLinks np).
Proof.
  intros [_ F2] Hp. apply NoDup_alt. intros i j c Hi Hj.
  now destruct (F2 p np p np i j c).
Qed.

Lemma children_bound h p np :
  forest h -> h !! p = Some np -> length (nextLinks np) <= length h.
Proof.
  intros F Hp. pose proof (children_nodup h p np F Hp) as ND.
  replace (length h) with (length (seq 0 (length h))) by apply length_seq.
  apply submseteq_length, NoDup_submseteq; [exact ND|].
  intros c Hc. apply elem_of_seq. destruct F as [F1 _].
  pose proof (F1 p np c Hp Hc). lia.
Qed.

(** The subtrees of two next links of a node share no node. *)
Lemma siblings_disjoint h p np i j x x' y :
  forest h -> h !! p = Some np ->
  nextLinks np !! i = Some x -> nextLinks np !! j = Some x' -> i <> j ->
  descends h x y -> ~ descends h x' y.
Proof.
  intros F Hp Hi Hj Hij Hx.
  assert (Hpx : p < x) by (destruct F as [F1 _]; apply (F1 p np x Hp); eapply list_elem_of_lookup_2; eauto).
  assert (Hpx' : p < x') by (destruct F as [F1 _]; apply (F1 p np x' Hp); eapply list_elem_of_lookup_2; eauto).
  induction Hx as [|q nq y Hq IH Hnq Hy].
  - intros Hx'. inversion Hx' as [|q nq y' Hq Hnq Hy]; subst.
    + destruct F as [_ F2]. destruct (F2 p np p np i j _ Hp Hp Hi Hj). congruence.
    + apply list_elem_of_lookup_1 in Hy as [k Hk].
      destruct F as [F1 F2]. destruct (F2 p np q nq i k _ Hp Hnq Hi Hk) as [<- _].
      pose proof (descends_ge h x' p (conj F1 F2) Hq). lia.
  - intros Hx'. inversion Hx' as [|q' nq' y' Hq' Hnq' Hy']; subst.
    + apply list_elem_of_lookup_1 in Hy as [k Hk].
      destruct F as [F1 F2]. destruct (F2 p np q nq j k _ Hp Hnq Hj Hk) as [<- _].
      pose proof (descends_ge h x p (conj F1 F2) Hq). lia.
    + apply list_elem_of_lookup_1 in Hy as [k Hk].
      apply list_elem_of_lookup_1 in Hy' as [k' Hk'].
      destruct F as [F1 F2]. destruct (F2 q nq q' nq' k k' _ Hnq Hnq' Hk Hk') as [<- _].
      now apply IH.
Qed.

(** [headed] looks at the branch pointers and next links of the subtree
    only. *)
Lemma headed_agree h h' c b :
  headed h c b ->
  (forall y, descends h c y ->
     branch <$> h' !! y = branch <$> h !! y /\
     nextLinks <$> h' !! y = nextLinks <$> h !! y) ->
  headed h' c b.
Proof.
  induction 1 as [c b n Hc Hb _ IH1 _ IH2]. intros Hag.
  destruct (Hag c (descends_here h c)) as [Eb El].
  rewrite Hc in Eb, El. cbn in Eb, El.
  destruct (h' !! c) as [n'|] eqn:Hc'; [|discriminate].
  injection Eb as Eb. injection El as El.
  apply (headed_node h' c b n' Hc'); [congruence| |].
  - intros x Hx. rewrite El in Hx. apply (IH1 x Hx).
    intros y Hy. apply Hag. eapply descends_below; [exact Hc| |exact Hy].
    rewrite Hx. apply list_elem_of_here.
  - intros Hl x Hx. rewrite El in Hl, Hx. apply (IH2 Hl x Hx).
    intros y Hy. apply Hag. eapply descends_below; [exact Hc|exact Hx|exact Hy].
Qed.

Lemma headed_descends h c b y :
  headed h c b -> descends h c y -> exists b', headed h y b'.
Proof.
  intros Hh Hd. induction Hd as [|p np y _ IH Hp Hy]; [now exists b|].
  destruct IH as [b' IH]. inversion IH as [c' b'' n Hc Hb H1 H2]; subst.
  assert (n = np) as -> by congruence.
  destruct (decide (length (nextLinks np) = 1)) as [E|E].
  - destruct (nextLinks np) as [|x [|]] eqn:El; try discriminate.
    apply list_elem_of_singleton in Hy as ->. exists b'. now apply H1.
  - exists y. now apply H2.
Qed.

Lemma headed_chain h c b y :
  headed h c b -> on_chain h c y ->
  exists ny, h !! y = Some ny /\ branch ny = Some b /\ headed h y b.
Proof.
  intros Hh Hc. induction Hc as [|y ny z _ IH Hy Hz].
  - inversion Hh; subst. eauto.
  - destruct IH as (ny' & Hy' & Hb & IH).
    inversion IH as [c' b'' n Hc' Hb' H1 H2]; subst.
    assert (n = ny) as -> by congruence.
    specialize (H1 z Hz). inversion H1; subst. eauto.
Qed.

Lemma rebranched_refl h : rebranched h h.
Proof.
  split; [reflexivity|]. intros x n Hx. exists (branch n). now destruct n.
Qed.

Lemma rebranched_trans h1 h2 h3 :
  rebranched h1 h2 -> rebranched h2 h3 -> rebranched h1 h3.
Proof.
  intros [L1 R1] [L2 R2]. split; [congruence|]. intros x n Hx.
  destruct (R1 x n Hx) as [b1 H1]. destruct (R2 x _ H1) as [b2 H2].
  exists b2. rewrite H2. now destruct n.
Qed.

Lemma rebranched_insert h c n b :
  h !! c = Some n -> rebranched h (<[c := set_branch b n]> h).
Proof.
  intros Hc. split; [apply length_insert|]. intros x m Hx.
  destruct (decide (x = c)) as [->|Hne].
  - exists b. rewrite (lookup_update_same h c n) by exact Hc. congruence.
  - exists (branch m). rewrite lookup_update_other by congruence.
    rewrite Hx. now destruct m.
Qed.

Lemma rebranched_links h h' :
  rebranched h h' -> forall x, nextLinks <$> h' !! x = nextLinks <$> h !! x.
Proof.
  intros [L R] x. destruct (h !! x) as [n|] eqn:Hx.
  - destruct (R x n Hx) as [b ->]. now destruct n.
  - apply lookup_ge_None in Hx. rewrite <- L in Hx.
    apply lookup_ge_None in Hx. now rewrite Hx.
Qed.

Lemma rebranched_forest h h' : rebranched h h' -> forest h -> forest h'.
Proof.
  intros R. apply forest_shape; [apply R|now apply rebranched_links].
Qed.

Lemma rebranched_descends h h' c y :
  rebranched h h' -> descends h c y <-> descends h' c y.
Proof.
  intros R. split; apply descends_shape; intros x.
  - now apply rebranched_links.
  - symmetry. now apply rebranched_links.
Qed.

Lemma get_node_eq h t tr de w sl c n :
  h !! c = Some n ->
  get_node c (mkState h t tr de w sl) = Ret n (mkState h t tr de w sl).
Proof. intros H. unfold get_node. cbn. now rewrite H. Qed.

Lemma modify_node_eq h t tr de w sl c n f :
  h !! c = Some n ->
  modify_node c f (mkState h t tr de w sl)
  = Ret tt (mkState (<[c := f n]> h) t tr de w sl).
Proof. intros H. unfold modify_node. cbn. now rewrite H. Qed.

Lemma element_eq {A} h t tr de w sl c n (field : node -> list A) i x :
  h !! c = Some n -> field n !! i = Some x ->
  element c field i (mkState h t tr de w sl) = Ret x (mkState h t tr de w sl).
Proof. intros H Hx. unfold element, get_node. cbn. rewrite H. cbn. now rewrite Hx. Qed.

Lemma nextLinks_set_branch b n : nextLinks (set_branch b n) = nextLinks n.
Proof. now destruct n. Qed.
Lemma nextLinks_set_callbackFunctions l n :
  nextLinks (set_callbackFunctions l n) = nextLinks n.
Proof. now destruct n. Qed.
Lemma nextLinks_set_nextLinks l n : nextLinks (set_nextLinks l n) = l.
Proof. now destruct n. Qed.
Lemma branch_set_branch b n : branch (set_branch b n) = b.
Proof. now destruct n. Qed.
Lemma branch_set_callbackFunctions l n :
  branch (set_callbackFunctions l n) = branch n.
Proof. now destruct n. Qed.
Lemma branch_set_nextLinks l n : branch (set_nextLinks l n) = branch n.
Proof. now destruct n. Qed.

Ltac fields :=
  rewrite ?nextLinks_set_callbackFunctions, ?nextLinks_set_branch,
    ?nextLinks_set_nextLinks, ?branch_set_callbackFunctions,
    ?branch_set_nextLinks, ?branch_set_branch in *.

(** [setBranch] returns on a forest, changes branch pointers in the subtree
    it is called on and nothing else, and leaves the subtree [headed]. *)
Lemma setBranch_walk t tr de w sl m : forall c b h fuel,
  length h - c <= m -> forest h -> c < length h -> 2 * length h - c < fuel ->
  exists h',
    dispatch fuel (CSetBranch c b) (mkState h t tr de w sl)
      = Ret VUndef (mkState h' t tr de w sl) /\
    rebranched h h' /\
    (forall x, ~ descends h c x -> h' !! x = h !! x) /\
    headed h' c b.
Proof.
  induction m as [|m IH]; intros c b h fuel Hm F Hc Hfuel; [lia|].
  destruct fuel as [|f]; [lia|]. rewrite dispatch_setBranch.
  destruct (lookup_lt_is_Some_2 h c Hc) as [n Hn].
  pose proof (rebranched_insert h c n (Some b) Hn) as R1.
  pose proof (rebranched_forest _ _ R1 F) as F1.
  set (h1 := <[c := set_branch (Some b) n]> h) in *.
  assert (Hn1 : h1 !! c = Some (set_branch (Some b) n))
    by (apply (lookup_update_same h c n), Hn).
  assert (Hfr1 : forall x, ~ descends h c x -> h1 !! x = h !! x).
  { intros x Hx. apply lookup_update_other. intros ->. apply Hx. constructor. }
  assert (Hkid : forall x, x ∈ nextLinks n -> c < x < length h)
    by (intros x Hx; destruct F as [F _]; apply (F c n x Hn Hx)).
  unfold setBranch. cbn [bind]. rewrite (modify_node_eq _ _ _ _ _ _ _ _ _ Hn).
  fold h1. rewrite (get_node_eq _ _ _ _ _ _ _ _ Hn1), nextLinks_set_branch.
  destruct (Nat.eqb_spec (length (nextLinks n)) 1) as [E1|E1].
  - destruct (nextLinks n) as [|x [|]] eqn:El; try discriminate. clear E1.
    assert (Hx : c < x < length h) by (apply Hkid; rewrite ?El; apply list_elem_of_here).
    destruct (IH x b h1 f) as (h2 & Hrun & R2 & Hfr2 & Hh2);
      [destruct R1 as [-> _]; lia|exact F1|destruct R1 as [-> _]; lia
      |destruct R1 as [-> _]; lia|].
    cbn [bind]. rewrite (element_eq _ _ _ _ _ _ _ _ nextLinks 0 x Hn1)
      by now rewrite nextLinks_set_branch, ?El.
    rewrite Hrun. cbn [bind ret].
    assert (Hc2 : h2 !! c = Some (set_branch (Some b) n)).
    { rewrite Hfr2; [exact Hn1|]. intros D.
      pose proof (descends_ge _ _ _ F1 D). lia. }
    exists h2. split; [reflexivity|]. split; [eapply rebranched_trans; eauto|].
    split.
    + intros y Hy. rewrite Hfr2; [now apply Hfr1|].
      intros D. apply Hy. apply (rebranched_descends h h1 x y R1) in D.
      eapply descends_below; [exact Hn| |exact D]. rewrite ?El. apply list_elem_of_here.
    + apply (headed_node h2 c b _ Hc2); [now destruct n| |].
      * rewrite nextLinks_set_branch, ?El. intros x' [= <-]. exact Hh2.
      * rewrite nextLinks_set_branch, ?El. cbn. congruence.
  - set (I := fun (i : nat) (acc : value) (s : state) =>
        acc = VUndef /\
        exists hi, s = mkState hi t tr de w sl /\ rebranched h hi /\
          hi !! c = Some (set_branch (Some b) n) /\
          (forall x, ~ descends h c x -> hi !! x = h !! x) /\
          (forall k x, k < i -> nextLinks n !! k = Some x -> headed hi x x)).
    destruct (for_loop_rule I (length_of c nextLinks)
                (fun i _ => next <- element c nextLinks i ;; dispatch f (CSetBranch next next))
                (length (nextLinks n))) with (fuel := f) (i := 0) (acc := VUndef)
                (s := mkState h1 t tr de w sl)
      as (acc' & s' & Hloop & -> & hN & -> & RN & HcN & HfrN & HhN).
    + intros i acc s (_ & hi & -> & _ & Hci & _). unfold length_of. cbn [bind].
      rewrite (get_node_eq _ _ _ _ _ _ _ _ Hci). cbn [ret].
      now rewrite nextLinks_set_branch.
    + intros i acc s Hi (_ & hi & -> & Ri & Hci & Hfri & Hhi).
      destruct (lookup_lt_is_Some_2 _ _ Hi) as [x Hxi].
      assert (Hx : c < x < length h) by (apply Hkid; eapply list_elem_of_lookup_2; eauto).
      pose proof (rebranched_forest _ _ Ri F) as Fi.
      destruct (IH x x hi f) as (h2 & Hrun & R2 & Hfr2 & Hh2);
        [destruct Ri as [-> _]; lia|exact Fi|destruct Ri as [-> _]; lia
        |destruct Ri as [-> _]; lia|].
      cbn [bind]. rewrite (element_eq _ _ _ _ _ _ _ _ nextLinks i x Hci)
        by now rewrite nextLinks_set_branch.
      rewrite Hrun.
      exists VUndef, (mkState h2 t tr de w sl). split; [reflexivity|].
      split; [reflexivity|]. exists h2. split; [reflexivity|]. split; [eapply rebranched_trans; eauto|].
      split; [|split].
      * rewrite Hfr2; [exact Hci|]. intros D.
        pose proof (descends_ge _ _ _ Fi D). lia.
      * intros y Hy. rewrite Hfr2; [now apply Hfri|].
        intros D. apply Hy. apply (rebranched_descends h hi x y Ri) in D.
        eapply descends_below; [exact Hn| |exact D]. eapply list_elem_of_lookup_2; eauto.
      * intros k x' Hk Hx'. destruct (decide (k = i)) as [->|Hki].
        { assert (x' = x) as -> by congruence. exact Hh2. }
        apply (headed_agree hi); [apply (Hhi k); [lia|exact Hx']|].
        intros y Hy. rewrite Hfr2; [now split|].
        apply (rebranched_descends h hi x' y Ri) in Hy.
        intros D. apply (rebranched_descends h hi x y Ri) in D.
        exact (siblings_disjoint h c n k i x' x y F Hn Hx' Hxi Hki Hy D).
    + lia.
    + pose proof (children_bound h c n F Hn). lia.
    + split; [reflexivity|]. exists h1. split; [reflexivity|]. split; [exact R1|]. split; [exact Hn1|].
      split; [exact Hfr1|]. intros k x Hk. lia.
    + rewrite Hloop. exists hN. split; [reflexivity|].
      split; [exact RN|]. split; [exact HfrN|].
      apply (headed_node hN c b _ HcN); [now destruct n| |].
      * rewrite nextLinks_set_branch.
        intros x Hx. rewrite Hx in E1. now cbn in E1.
      * rewrite nextLinks_set_branch.
        intros _ x Hx. apply list_elem_of_lookup_1 in Hx as [k Hk].
        apply (HhN k x); [eapply lookup_lt_Some; eauto|exact Hk].
Qed.

(** The store after [then] has made a node and pushed it on the next links
    of [N]. *)
Lemma forest_then h N n m :
  forest h -> h !! N = Some n -> nextLinks m = [] ->
  forest (<[N := set_nextLinks (nextLinks n ++ [length h]) n]> (h ++ [m])).
Proof.
  intros [F1 F2] HN Hm.
  pose proof (lookup_lt_Some _ _ _ HN) as HlN.
  assert (Hlook : forall p np,
            <[N := set_nextLinks (nextLinks n ++ [length h]) n]> (h ++ [m]) !! p = Some np ->
            (p = N /\ nextLinks np = nextLinks n ++ [length h]) \/
            (p = length h /\ nextLinks np = []) \/
            (p <> N /\ h !! p = Some np)).
  { intros p np Hp. destruct (decide (p = N)) as [->|HpN].
    - left. rewrite list_lookup_insert_eq in Hp by (rewrite length_app; cbn; lia).
      injection Hp as <-. split; [reflexivity|now destruct n].
    - rewrite list_lookup_insert_ne in Hp by congruence.
      destruct (decide (p < length h)) as [Hlt|Hge].
      + right. right. rewrite lookup_app_l in Hp by exact Hlt. now split.
      + right. left. rewrite lookup_app_r in Hp by lia.
        destruct (p - length h) as [|k] eqn:Ek; cbn in Hp; [|discriminate].
        injection Hp as <-. split; [lia|exact Hm]. }
  assert (Hold : forall p np i c, h !! p = Some np -> nextLinks np !! i = Some c -> c < length h).
  { intros p np i c Hp Hi. apply (F1 p np c Hp). eapply list_elem_of_lookup_2, Hi. }
  split.
  - intros p np c Hp Hc. rewrite length_insert, length_app. cbn.
    destruct (Hlook p np Hp) as [[-> E]|[[-> E]|[_ Hp']]].
    + rewrite E in Hc. apply elem_of_app in Hc as [Hc|Hc].
      * pose proof (F1 N n c HN Hc). lia.
      * apply list_elem_of_singleton in Hc as ->. lia.
    + rewrite E in Hc. inversion Hc.
    + pose proof (F1 p np c Hp' Hc). lia.
  - intros p np q nq i j c Hp Hq Hi Hj.
    destruct (Hlook p np Hp) as [[-> E]|[[-> E]|[HpN Hp']]];
      destruct (Hlook q nq Hq) as [[-> E']|[[-> E']|[HqN Hq']]];
      rewrite ?E in Hi; rewrite ?E' in Hj; try discriminate.
    + split; [reflexivity|].
      destruct (decide (i < length (nextLinks n))) as [Hi'|Hi'];
        destruct (decide (j < length (nextLinks n))) as [Hj'|Hj'].
      * rewrite lookup_app_l in Hi, Hj by assumption.
        now destruct (F2 N n N n i j c HN HN Hi Hj).
      * rewrite lookup_app_l in Hi by assumption. rewrite lookup_app_r in Hj by lia.
        apply list_lookup_singleton_Some in Hj as [_ <-].
        pose proof (Hold _ _ _ _ HN Hi). lia.
      * rewrite lookup_app_l in Hj by assumption. rewrite lookup_app_r in Hi by lia.
        apply list_lookup_singleton_Some in Hi as [_ <-].
        pose proof (Hold _ _ _ _ HN Hj). lia.
      * rewrite lookup_app_r in Hi, Hj by lia.
        apply list_lookup_singleton_Some in Hi as [Hi _].
        apply list_lookup_singleton_Some in Hj as [Hj _]. lia.
    + exfalso. destruct (decide (i < length (nextLinks n))) as [Hi'|Hi'].
      * rewrite lookup_app_l in Hi by assumption.
        destruct (F2 N n q nq i j c HN Hq' Hi Hj). congruence.
      * rewrite lookup_app_r in Hi by lia.
        apply list_lookup_singleton_Some in Hi as [_ <-].
        pose proof (Hold _ _ _ _ Hq' Hj). lia.
    + exfalso. destruct (decide (j < length (nextLinks n))) as [Hj'|Hj'].
      * rewrite lookup_app_l in Hj by assumption.
        destruct (F2 p np N n i j c Hp' HN Hi Hj). congruence.
      * rewrite lookup_app_r in Hj by lia.
        apply list_lookup_singleton_Some in Hj as [_ <-].
        pose proof (Hold _ _ _ _ Hp' Hi). lia.
    + now apply (F2 p np q nq i j c).
Qed.

Lemma descends_then h N n m c y :
  h !! N = Some n -> descends h c y ->
  descends (<[N := set_nextLinks (nextLinks n ++ [length h]) n]> (h ++ [m])) c y.
Proof.
  intros HN. pose proof (lookup_lt_Some _ _ _ HN) as HlN.
  induction 1 as [|p np y _ IH Hp Hy]; [constructor|].
  destruct (decide (p = N)) as [->|HpN].
  - eapply descends_child; [exact IH| |].
    + apply list_lookup_insert_eq. rewrite length_app. cbn. lia.
    + assert (np = n) as -> by congruence.
      replace (nextLinks (set_nextLinks (nextLinks n ++ [length h]) n))
        with (nextLinks n ++ [length h]) by now destruct n.
      apply elem_of_app. now left.
  - eapply descends_child; [exact IH| |exact Hy].
    rewrite list_lookup_insert_ne by congruence. now apply lookup_app_l_Some.
Qed.

Lemma new_Deferred_eq h t tr de w sl r br :
  new_Deferred r br (mkState h t tr de w sl)
  = Ret (length h)
      (mkState (h ++ [fresh_node (default (length h) r) (default (length h) br)])
         t tr de w sl).
Proof. reflexivity. Qed.

Lemma headed_leaf h c n :
  h !! c = Some n -> branch n = Some c -> nextLinks n = [] -> headed h c c.
Proof.
  intros Hc Hb Hl. apply (headed_node h c c n Hc Hb); rewrite Hl.
  - discriminate.
  - intros _ x Hx. inversion Hx.
Qed.

Lemma headed_branch h c b :
  headed h c b -> exists n, h !! c = Some n /\ branch n = Some b.
Proof. inversion 1; subst. eauto. Qed.

(** Pushing a callback function changes no branch pointer and no next
    link. *)
Lemma headed_push_callback h N n l c b :
  h !! N = Some n -> headed h c b ->
  headed (<[N := set_callbackFunctions l n]> h) c b.
Proof.
  intros HN Hh. apply (headed_agree h); [exact Hh|]. intros y _.
  destruct (decide (y = N)) as [->|Hy].
  - rewrite (lookup_update_same h N n) by exact HN. rewrite HN. now destruct n.
  - rewrite lookup_update_other by congruence. now split.
Qed.

(** What [then] does after it has linked the new node. *)
Ltac then_tail HX :=
  cbn [bind ret];
  rewrite (modify_node_eq _ _ _ _ _ _ _ _ _ HX); cbn [bind];
  rewrite (get_node_eq _ _ _ _ _ _ _ _ (lookup_update_same _ _ _ _ HX));
  match goal with
  | |- context [aborted ?x] => destruct (aborted x)
  end;
  [|match goal with
    | |- context [errbacked ?x] => destruct (errbacked x)
    end;
    [|match goal with
      | |- context [callbacked ?x] => destruct (callbacked x)
      end]];
  cbn [bind ret setTimeout set_timers heap timers trace defaultErrorHandler
       whens selects];
  (eexists _, _; split; [reflexivity|]); cbn [heap set_timers].

(** The rearrangement that [then] starts when [N] gets its second next
    link: it returns, changes branch pointers only, and leaves both next
    links of [N] at the head of a branch of their own. *)
Lemma then_rearranges t tr de w sl h N n b c1 fuel :
  forest h -> h !! N = Some n -> nextLinks n = [c1] ->
  (b = N \/ exists nb c0,
      h !! b = Some nb /\ nextLinks nb !! 0 = Some c0 /\ descends h c0 N) ->
  2 * length h + 2 < fuel ->
  let hA := <[N := set_nextLinks (nextLinks n ++ [length h]) n]>
              (h ++ [fresh_node (default (length h) (root n)) (length h)]) in
  exists h2,
    reArrangeBranch (dispatch fuel) b (mkState hA t tr de w sl)
      = Ret VUndef (mkState h2 t tr de w sl) /\
    rebranched hA h2 /\
    headed h2 c1 c1 /\ headed h2 (length h) (length h).
Proof.
  intros F HN Hl Hhead Hfuel hA.
  pose proof (lookup_lt_Some _ _ _ HN) as HlN.
  assert (FA : forest hA) by (apply forest_then; [exact F|exact HN|reflexivity]).
  assert (LA : length hA = S (length h))
    by (unfold hA; rewrite length_insert, length_app; cbn; lia).
  assert (HNA : hA !! N = Some (set_nextLinks ([c1; length h]) n)).
  { unfold hA. rewrite Hl. apply list_lookup_insert_eq. rewrite length_app. cbn. lia. }
  assert (Hnew : hA !! length h
                 = Some (fresh_node (default (length h) (root n)) (length h))).
  { unfold hA. rewrite list_lookup_insert_ne by lia. apply lookup_alloc_new. }
  assert (Hc1 : N < c1 < length h).
  { destruct F as [F1 _]. apply (F1 N n c1 HN). rewrite Hl. apply list_elem_of_here. }
  assert (Hstart : exists nbA c0,
            hA !! b = Some nbA /\ nextLinks nbA !! 0 = Some c0 /\ c0 < length hA /\
            (c0 = c1 /\ b = N \/ descends hA c0 N)).
  { destruct Hhead as [->|(nb & c0 & Hb & H0 & HD)].
    - exists (set_nextLinks ([c1; length h]) n), c1.
      split; [exact HNA|]. split; [now destruct n|]. split; [lia|]. now left.
    - pose proof (descends_ge _ _ _ F HD) as Hge.
      assert (b < c0 < length h).
      { destruct F as [F1 _]. apply (F1 b nb c0 Hb). eapply list_elem_of_lookup_2, H0. }
      exists nb, c0. split.
      + unfold hA. rewrite list_lookup_insert_ne by lia. now apply lookup_alloc_old.
      + split; [exact H0|]. split; [lia|]. right. now apply descends_then. }
  destruct Hstart as (nbA & c0 & HbA & H0 & Hc0 & Hrel).
  destruct (setBranch_walk t tr de w sl (length hA) c0 c0 hA fuel)
    as (h2 & Hrun & R2 & Hfr2 & Hh2); [lia|exact FA|exact Hc0|lia|].
  exists h2. split.
  { unfold reArrangeBranch. cbn [bind].
    rewrite (element_eq _ _ _ _ _ _ _ _ nextLinks 0 c0 HbA H0). exact Hrun. }
  split; [exact R2|].
  destruct Hrel as [[-> ->]|HD].
  - split; [exact Hh2|].
    assert (Hnew2 : h2 !! length h = hA !! length h).
    { apply Hfr2.
      refine (siblings_disjoint hA N _ 1 0 (length h) c1 (length h) FA HNA _ _ _ _).
      - now destruct n.
      - now destruct n.
      - lia.
      - constructor. }
    rewrite Hnew in Hnew2. now apply (headed_leaf h2 _ _ Hnew2).
  - apply (rebranched_descends hA h2 c0 N R2) in HD.
    destruct (headed_descends _ _ _ _ Hh2 HD) as [b' HN2].
    inversion HN2 as [c' b'' n2 Hn2 Hb2 _ Hkids]; subst.
    destruct R2 as [_ R2]. destruct (R2 N _ HNA) as [b2 E2].
    assert (n2 = set_branch b2 (set_nextLinks [c1; length h] n)) as -> by congruence.
    rewrite nextLinks_set_branch in Hkids.
    replace (nextLinks (set_nextLinks [c1; length h] n)) with [c1; length h] in Hkids
      by now destruct n.
    split; apply Hkids; cbn; try lia.
    + apply list_elem_of_here.
    + apply list_elem_of_further, list_elem_of_here.
Qed.

(** * C1: an error that reaches a node without a handler of its own *)

(** C1 (the code departs from the claim).  The node [d] has no error
    handler and the next links [c1 :: c2 :: rest]; the first child has a
    handler.  [runErrback] on [d] asks [c1], whose handler runs, and that
    answer settles it: the error counts as handled, the default handler is
    not consulted, and no other node than [d] and [c1] is touched - so
    [runErrback] is never invoked on [c2] or on a later child, whether or
    not they have handlers. *)
Theorem runErrback_stops_at_first_handling_child
    (s : state) d n c1 c2 rest n1 e name body v fuel :
  heap s !! d = Some n ->
  errbacked n = false -> aborted n = false ->
  errbackFunctions n = [] -> nextLinks n = c1 :: c2 :: rest ->
  finallyFunction n = None ->
  heap s !! c1 = Some n1 -> c1 <> d ->
  errbacked n1 = false -> aborted n1 = false ->
  errbackFunctions n1 = [FUser name body] -> body [e] = URet v ->
  finallyFunction n1 = None ->
  exists s',
    dispatch (5 + length rest + fuel) (CRunErrback d e None) s
      = Ret (VBool true) s' /\
    trace s' = trace s ++ [EvCall name [e]] /\
    heap s' !! d = Some (unlinked (set_errbacked true e n)) /\
    heap s' !! c1 = Some (unlinked (set_errbacked true e n1)) /\
    (forall x, x <> d -> x <> c1 -> heap s' !! x = heap s !! x).
Proof.
  intros Hd He Ha Hf Hn Hfin H1 Hne He1 Ha1 Hf1 Hb Hfin1.
  open_state s.
  change (5 + length rest + fuel) with (S (S (S (S (S (length rest + fuel)))))).
  run. rewrite for_loop_unfold. run. rewrite for_loop_unfold. run.
  rewrite for_loop_unfold. run. rewrite for_loop_unfold. run.
  match goal with
  | |- context [for_loop ?f ?l ?b 1 ?a ?st] =>
      destruct (for_loop_rule (fun _ acc s' => acc = VBool true /\ s' = st)
                  l b (S (S (length rest))))
        with (fuel := f) (i := 1) (acc := a) (s := st)
        as (acc' & s' & -> & -> & ->)
  end.
  - intros i acc s' [_ ->]. run. reflexivity.
  - intros i acc s' _ [-> ->]. cbn. eauto.
  - lia.
  - lia.
  - split; reflexivity.
  - run. eexists. split; [reflexivity|]. cbn.
    split; [reflexivity|]. split; [now run|]. split; [now run|].
    intros x Hx1 Hx2. now run.
Qed.

Lemma runErrback_stops_at_first_handling_child_witness :
  exists s',
    dispatch 5 (CRunErrback 0 (VStr "E") None) (state_after two_children_one_handler)
      = Ret (VBool true) s' /\
    trace s' = [EvCall "h" [VStr "E"]] /\
    errbacked <$> heap s' !! 2 = Some false.
Proof.
  destruct (runErrback_stops_at_first_handling_child
              (state_after two_children_one_handler) 0
              (node_at (state_after two_children_one_handler) 0)
              1 2 []
              (node_at (state_after two_children_one_handler) 1)
              (VStr "E") "h" (fun _ => URet VUndef) VUndef 0)
    as (s' & H1 & H2 & _ & _ & H3); try reflexivity; try discriminate.
  exists s'. split; [exact H1|]. split; [exact H2|].
  rewrite H3 by discriminate. reflexivity.
Defined.

(** * C2: the terminal flags *)

(** C2 (the code departs from the claim).  [callback] only schedules
    [runCallback]; until that task runs the node still looks pending, so
    [abort] goes through and sets [aborted], and the task then sets
    [callbacked] as well ([runCallback] does not look at [aborted]).  In
    the same way [callback] followed by [errback] ends with both
    [callbacked] and [errbacked] set ([runErrback] does not look at
    [callbacked]). *)
Theorem two_terminal_flags_on_one_node
    (s : state) d n x e name body v fuel :
  heap s !! d = Some n ->
  callbacked n = false -> errbacked n = false -> aborted n = false ->
  abortFunctions n = [] -> nextLinks n = [] -> callbackFunctions n = [] ->
  errbackFunctions n = [FUser name body] -> body [e] = URet v ->
  finallyFunction n = None -> timers s = [] ->
  (exists s1 s2,
     (callback d [x] ;; abort (S fuel) (dispatch fuel) d []) s = Ret d s1 /\
     run_loop 1 (3 + fuel) s1 = Some s2 /\
     callbacked <$> heap s2 !! d = Some true /\
     aborted <$> heap s2 !! d = Some true) /\
  (exists s1 s2,
     (callback d [x] ;; errback d e) s = Ret d s1 /\
     run_loop 2 (3 + fuel) s1 = Some s2 /\
     callbacked <$> heap s2 !! d = Some true /\
     errbacked <$> heap s2 !! d = Some true).
Proof.
  intros Hd Hc He Ha Haf Hn Hcf Hef Hb Hfin Ht.
  open_state s. subst. split.
  - run_loops. do 2 eexists. split; [reflexivity|].
    unfold tick. run_loops. unfold tick. run_loops.
    split; [reflexivity|]. now run.
  - run_loops. do 2 eexists. split; [reflexivity|].
    unfold tick. run_loops. unfold tick. run_loops.
    split; [reflexivity|]. now run.
Qed.

Lemma two_terminal_flags_on_one_node_witness :
  (exists s1 s2,
     (callback 0 [VNum 1] ;; abort 1 (dispatch 0) 0 []) (state_after one_handler)
       = Ret 0 s1 /\
     run_loop 1 3 s1 = Some s2 /\
     callbacked <$> heap s2 !! 0 = Some true /\
     aborted <$> heap s2 !! 0 = Some true) /\
  (exists s1 s2,
     (callback 0 [VNum 1] ;; errback 0 (VStr "E")) (state_after one_handler)
       = Ret 0 s1 /\
     run_loop 2 3 s1 = Some s2 /\
     callbacked <$> heap s2 !! 0 = Some true /\
     errbacked <$> heap s2 !! 0 = Some true).
Proof.
  apply (two_terminal_flags_on_one_node (state_after one_handler) 0
           (node_at (state_after one_handler) 0) (VNum 1) (VStr "E")
           "h" (fun _ => URet VUndef) VUndef 0); reflexivity.
Defined.

(** * C3: attaching before or after the resolution *)



(** * C4: branch pointers after [then] *)


(** The rearrangement starts at the first next link of the branch head,
    not at the node that branches: below, [a] becomes the head of a branch
    of its own although it is the only next link of [r]. *)
Lemma rearrangement_starts_below_the_branch_head :
  branch (node_at (state_after branching_below_the_head) 0) = Some 0 /\
  nextLinks (node_at (state_after branching_below_the_head) 0) = [1] /\
  branch (node_at (state_after branching_below_the_head) 1) = Some 1.
Proof. repeat split; reflexivity. Qed.



(** * C5: a callback that returns a Deferred *)



(** * C6: [select] *)



(** * C7: [orIfError] on a node that has already failed *)

(** C7 (the code departs from the claim).  On an errbacked node
    [orIfError] stores the handler and schedules a task; the task calls
    the array [errbackFunctions] as if it were a function, which throws a
    TypeError that the task itself catches and logs.  After the tick the
    trace holds that log line and no call of any handler: the new handler
    [h] has not been invoked. *)
Theorem orIfError_on_errbacked_node_calls_nothing (s : state) d n h fuel :
  heap s !! d = Some n ->
  errbacked n = true -> aborted n = false -> timers s = [] ->
  exists s1 s2,
    orIfError d h s = Ret d s1 /\
    trace s1 = trace s /\
    heap s1 = <[d := set_errbackFunctions (errbackFunctions n ++ [h]) n]> (heap s) /\
    timers s1 = [TOrIfError d] /\
    tick fuel s1 = Some s2 /\
    trace s2 = trace s ++ [EvLog "error in errback, won't continue! " [TypeError]] /\
    timers s2 = [] /\
    heap s2 = heap s1.
Proof.
  intros Hd He Ha Ht. open_state s. subst. run.
  do 2 eexists. split; [reflexivity|]. cbn. do 3 (split; [reflexivity|]).
  unfold tick. run. now repeat split.
Qed.

Lemma orIfError_on_errbacked_node_calls_nothing_witness :
  exists s1 s2,
    orIfError 0 (log_fn "h") (settled (state_after failed_with_handler)) = Ret 0 s1 /\
    trace s1 = [EvCall "h0" [VStr "E"]] /\
    tick 0 s1 = Some s2 /\
    trace s2 = [EvCall "h0" [VStr "E"];
                EvLog "error in errback, won't continue! " [TypeError]].
Proof.
  destruct (orIfError_on_errbacked_node_calls_nothing
              (settled (state_after failed_with_handler)) 0
              (node_at (settled (state_after failed_with_handler)) 0)
              (log_fn "h") 0)
    as (s1 & s2 & H1 & H2 & _ & _ & H3 & H4 & _); try reflexivity.
  exists s1, s2. repeat (split; [assumption|]). exact H4.
Defined.

(** * C8: [when] after the first failure *)

Lemma callback_returns_that b args s r s1 :
  callback b args s = Ret r s1 -> r = b.
Proof.
  cbn. destruct (heap s !! b) as [n|] eqn:E; [|discriminate].
  destruct (aborted n); [now intros [= <- _]|].
  destruct (errbacked n); [now intros [= <- _]|].
  cbn. rewrite E. cbn. now intros [= <- _].
Qed.

Lemma later_success_ignored_trace s b v t :
  later_success_ignored s b v ->
  trace_after_success s b v = Some t ->
  t = trace s.
Proof.
  unfold later_success_ignored, trace_after_success. intros H.
  destruct (callback b [v] s) as [r s1| | |] eqn:E1; try discriminate.
  destruct (run_loop 16 16 s1) as [s2|] eqn:E2; [|discriminate].
  intros [= <-].
  rewrite (callback_returns_that _ _ _ _ _ E1) in H.
  exact (H _ _ eq_refl E2).
Qed.




(** * C9: [onProgress] after [progress] *)

(** C9 (the code departs from the claim).  The parameters of [progress]
    hide the variables [done] and [outOf] of the node, so a broadcast
    leaves them undefined: [progress] calls the listeners registered so
    far and changes nothing in the store.  A listener registered
    afterwards is stored but not invoked. *)
Theorem onProgress_after_progress_is_silent
    (s : state) d n name body v pf a b fuel :
  heap s !! d = Some n ->
  aborted n = false -> done n = VUndef ->
  progressFunctions n = [FUser name body] -> body [a; b] = URet v ->
  exists s1 s2,
    progress (3 + fuel) (dispatch (3 + fuel)) d a b s = Ret d s1 /\
    trace s1 = trace s ++ [EvCall name [a; b]] /\
    heap s1 = heap s /\
    onProgress (dispatch fuel) d pf s1 = Ret d s2 /\
    trace s2 = trace s1 /\
    heap s2 = <[d := set_progressFunctions [FUser name body; pf] n]> (heap s).
Proof.
  intros Hd Ha Hdone Hp Hb. open_state s. run_loops.
  do 2 eexists. split; [reflexivity|]. cbn. do 2 (split; [reflexivity|]).
  run. now repeat split.
Qed.

Lemma onProgress_after_progress_is_silent_witness :
  exists s1 s2,
    progress 3 (dispatch 3) 0 (VNum 1) (VNum 2) (state_after one_progress_listener)
      = Ret 0 s1 /\
    trace s1 = [EvCall "p0" [VNum 1; VNum 2]] /\
    onProgress (dispatch 0) 0 (log_fn "pf") s1 = Ret 0 s2 /\
    trace s2 = [EvCall "p0" [VNum 1; VNum 2]].
Proof.
  destruct (onProgress_after_progress_is_silent
              (state_after one_progress_listener) 0
              (node_at (state_after one_progress_listener) 0)
              "p0" (fun _ => URet VUndef) VUndef (log_fn "pf") (VNum 1) (VNum 2) 0)
    as (s1 & s2 & H1 & H2 & _ & H3 & H4 & _); try reflexivity.
  exists s1, s2. repeat (split; [assumption|]). now rewrite H4.
Defined.

(** * C10: the finally hook and the success callbacks *)

(** C10.  On a node with a finally hook, [runCallback] (on a node that is
    neither callbacked nor errbacked yet) records the resolution, calls
    the hook without arguments and stops: the trace gains that one call
    and nothing else, no task is scheduled, and no node other than the
    node itself changes.  None of the success callbacks ran, and every
    next link is left as it was. *)
Theorem finally_hook_preempts_callbacks (s : state) d n name body args fuel :
  heap s !! d = Some n ->
  callbacked n = false -> errbacked n = false ->
  finallyFunction n = Some (FUser name body) ->
  exists s',
    final (dispatch (2 + fuel) (CRunCallback d args) s) = Some s' /\
    trace s' = trace s ++ [EvCall name []] /\
    timers s' = timers s /\
    heap s' = <[d := set_callbacked true args n]> (heap s) /\
    (forall c, c <> d -> heap s' !! c = heap s !! c).
Proof.
  intros Hd Hc He Hf. open_state s. run.
  destruct (body []); cbn; eexists; (split; [reflexivity|]); cbn;
    do 3 (split; [reflexivity|]); intros c Hne; now run.
Qed.

Lemma finally_hook_preempts_callbacks_witness :
  exists s',
    final (dispatch 2 (CRunCallback 0 [VNum 3]) (state_after callback_and_finally))
      = Some s' /\
    trace s' = [EvCall "fin" []] /\
    pending <$> heap s' !! 1 = Some true.
Proof.
  destruct (finally_hook_preempts_callbacks
              (state_after callback_and_finally) 0
              (node_at (state_after callback_and_finally) 0)
              "fin" (fun _ => URet VUndef) [VNum 3] 0)
    as (s' & H1 & H2 & _ & _ & H3); try reflexivity.
  exists s'. split; [exact H1|]. split; [exact H2|].
  rewrite H3 by discriminate. reflexivity.
Defined.

(** * More of the code: [breakBackLinks] *)

Lemma descends_cases h c n y :
  h !! c = Some n -> descends h c y ->
  y = c \/ exists k x, nextLinks n !! k = Some x /\ descends h x y.
Proof.
  intros Hc. induction 1 as [|p np y _ IH Hp Hy]; [now left|]. right.
  destruct IH as [->|(k & x & Hk & Hx)].
  - assert (np = n) as -> by congruence.
    apply list_elem_of_lookup_1 in Hy as [k Hk]. exists k, y.
    split; [exact Hk|constructor].
  - exists k, x. split; [exact Hk|]. eapply descends_child; eauto.
Qed.

Lemma cleared_twice n :
  set_root None (set_branch None (set_root None (set_branch None n)))
  = set_root None (set_branch None n).
Proof. now destruct n. Qed.

Lemma nextLinks_cleared n :
  nextLinks (set_root None (set_branch None n)) = nextLinks n.
Proof. now destruct n. Qed.

(** [breakBackLinks] on a forest, by induction on the height left below
    the node. *)
Lemma breakBackLinks_walk t tr de w sl m : forall c h fuel,
  length h - c <= m -> forest h -> c < length h -> 2 * length h - c < fuel ->
  exists h',
    breakBackLinks fuel c (mkState h t tr de w sl)
      = Ret VUndef (mkState h' t tr de w sl) /\
    length h' = length h /\
    (forall y, nextLinks <$> h' !! y = nextLinks <$> h !! y) /\
    (forall y, ~ descends h c y -> h' !! y = h !! y) /\
    (forall y ny, h !! y = Some ny -> descends h c y ->
       h' !! y = Some (match nextLinks ny with
                       | [] => ny
                       | _ :: _ => set_root None (set_branch None ny)
                       end)).
Proof.
  induction m as [|m IH]; intros c h fuel Hm F Hc Hfuel; [lia|].
  destruct fuel as [|f]; [lia|].
  destruct (lookup_lt_is_Some_2 h c Hc) as [n Hn].
  assert (Hkid : forall x, x ∈ nextLinks n -> c < x < length h)
    by (intros x Hx; destruct F as [F _]; apply (F c n x Hn Hx)).
  change (breakBackLinks (S f) c)
    with (for_loop f (length_of c nextLinks)
            (fun i (_ : value) =>
               next <- element c nextLinks i ;;
               breakBackLinks f next ;;
               modify_node c (fun n => set_root None (set_branch None n)) ;;
               ret VUndef)
            0 VUndef).
  set (I := fun (i : nat) (acc : value) (s : state) =>
      acc = VUndef /\
      exists hi, s = mkState hi t tr de w sl /\ length hi = length h /\
        (forall y, nextLinks <$> hi !! y = nextLinks <$> h !! y) /\
        (forall y, ~ descends h c y -> hi !! y = h !! y) /\
        hi !! c = Some (if i =? 0 then n else set_root None (set_branch None n)) /\
        (forall k x, k < i -> nextLinks n !! k = Some x ->
           forall y ny, h !! y = Some ny -> descends h x y ->
           hi !! y = Some (match nextLinks ny with
                           | [] => ny
                           | _ :: _ => set_root None (set_branch None ny)
                           end)) /\
        (forall k x, i <= k -> nextLinks n !! k = Some x ->
           forall y, descends h x y -> hi !! y = h !! y)).
  destruct (for_loop_rule I (length_of c nextLinks)
              (fun i (_ : value) =>
                 next <- element c nextLinks i ;;
                 breakBackLinks f next ;;
                 modify_node c (fun n => set_root None (set_branch None n)) ;;
                 ret VUndef)
              (length (nextLinks n))) with (fuel := f) (i := 0) (acc := VUndef)
              (s := mkState h t tr de w sl)
    as (acc' & s' & Hloop & -> & hN & -> & LN & SN & HfrN & HcN & HdoneN & _).
  - intros i acc s (_ & hi & -> & _ & _ & _ & Hci & _). unfold length_of. cbn [bind].
    rewrite (get_node_eq _ _ _ _ _ _ _ _ Hci). cbn [ret].
    destruct (i =? 0); [reflexivity|now rewrite nextLinks_cleared].
  - intros i acc s Hi (_ & hi & -> & Li & Si & Hfri & Hci & Hdone & Htodo).
    destruct (lookup_lt_is_Some_2 _ _ Hi) as [x Hxi].
    assert (Hx : c < x < length h) by (apply Hkid; eapply list_elem_of_lookup_2; eauto).
    pose proof (forest_shape h hi Li Si F) as Fi.
    destruct (IH x hi f) as (h2 & Hrun & L2 & S2 & Hfr2 & Hin2);
      [lia|exact Fi|lia|lia|].
    assert (Hdesc : forall a y, descends hi a y <-> descends h a y).
    { intros a y. split; apply descends_shape; intros z; [symmetry|]; apply Si. }
    assert (Hc2 : h2 !! c
                  = Some (if i =? 0 then n else set_root None (set_branch None n))).
    { rewrite Hfr2; [exact Hci|]. intros D. apply Hdesc in D.
      pose proof (descends_ge _ _ _ F D). lia. }
    cbn [bind].
    rewrite (element_eq _ _ _ _ _ _ _ _ nextLinks i x Hci)
      by (destruct (i =? 0); [exact Hxi|now rewrite nextLinks_cleared]).
    rewrite Hrun. rewrite (modify_node_eq _ _ _ _ _ _ _ _ _ Hc2). cbn [bind ret].
    eexists _, _. split; [reflexivity|]. split; [reflexivity|].
    eexists. split; [reflexivity|].
    split; [rewrite length_insert; lia|].
    split.
    { intros y. destruct (decide (y = c)) as [->|Hy].
      - rewrite (lookup_update_same _ _ _ _ Hc2). rewrite Hn.
        cbn [fmap option_fmap option_map].
        destruct (i =? 0); now rewrite ?cleared_twice, ?nextLinks_cleared.
      - rewrite lookup_update_other by congruence. now rewrite S2. }
    split.
    { intros y Hy. rewrite lookup_update_other by (intros ->; apply Hy; constructor).
      rewrite Hfr2; [now apply Hfri|]. intros D. apply Hdesc in D. apply Hy.
      eapply descends_below; [exact Hn| |exact D]. eapply list_elem_of_lookup_2; eauto. }
    split.
    { rewrite (lookup_update_same _ _ _ _ Hc2). cbn [Nat.eqb].
      destruct (i =? 0); now rewrite ?cleared_twice. }
    split.
    + intros k x' Hk Hx' y ny Hy D.
      assert (Hyc : c <> y).
      { assert (c < x') by (apply Hkid; eapply list_elem_of_lookup_2; eauto).
        pose proof (descends_ge _ _ _ F D). lia. }
      rewrite lookup_update_other by exact Hyc.
      destruct (decide (k = i)) as [->|Hki].
      * assert (x' = x) as -> by congruence.
        apply Hin2; [|now apply Hdesc]. rewrite <- Hy. now apply (Htodo i x).
      * rewrite Hfr2; [apply (Hdone k x'); [lia|assumption..]|].
        intros D'. apply Hdesc in D'.
        exact (siblings_disjoint h c n k i x' x y F Hn Hx' Hxi Hki D D').
    + intros k x' Hk Hx' y D.
      assert (Hyc : c <> y).
      { assert (c < x') by (apply Hkid; eapply list_elem_of_lookup_2; eauto).
        pose proof (descends_ge _ _ _ F D). lia. }
      rewrite lookup_update_other by exact Hyc.
      rewrite Hfr2; [apply (Htodo k x'); [lia|assumption..]|].
      intros D'. apply Hdesc in D'.
      assert (k <> i) by lia.
      exact (siblings_disjoint h c n k i x' x y F Hn Hx' Hxi ltac:(assumption) D D').
  - lia.
  - pose proof (children_bound h c n F Hn). lia.
  - split; [reflexivity|]. exists h. split; [reflexivity|].
    split; [reflexivity|]. split; [reflexivity|]. split; [reflexivity|].
    split; [exact Hn|]. split; [intros; lia|]. reflexivity.
  - rewrite Hloop. exists hN. split; [reflexivity|]. split; [exact LN|].
    split; [exact SN|]. split; [exact HfrN|].
    intros y ny Hy D.
    destruct (descends_cases h c n y Hn D) as [->|(k & x & Hk & Hx)].
    + assert (ny = n) as -> by congruence. rewrite HcN.
      destruct (nextLinks n); reflexivity.
    + apply (HdoneN k x); [eapply lookup_lt_Some; eauto|assumption..].
Qed.

(** Stores of a few nodes are forests by inspection. *)
Ltac small_forest :=
  split;
  [ intros p np c Hp Hc;
    do 6 (try (destruct p as [|p];
               [vm_compute in Hp; injection Hp as <-; vm_compute in Hc;
                repeat (apply elem_of_cons in Hc as [->|Hc]; [vm_compute; lia|]);
                inversion Hc|]));
    vm_compute in Hp; discriminate
  | intros p np q nq i j c Hp Hq Hi Hj;
    do 6 (try (destruct p as [|p];
               [vm_compute in Hp; injection Hp as <-|]));
    try (vm_compute in Hp; discriminate);
    do 6 (try (destruct q as [|q];
               [vm_compute in Hq; injection Hq as <-|]));
    try (vm_compute in Hq; discriminate);
    do 6 (try (destruct i as [|i]; [vm_compute in Hi|]));
    try (vm_compute in Hi; discriminate);
    do 6 (try (destruct j as [|j]; [vm_compute in Hj|]));
    try (vm_compute in Hj; discriminate);
    try (split; reflexivity); congruence ].

(** X1.  On a forest [breakBackLinks] returns.  Of the nodes at and below
    the one it is called on, those with at least one next link lose their
    [root] and [branch]; those without a next link (the leaves, and so a
    node without continuation that the method is called on directly) keep
    both.  No other node and no other field changes. *)
Theorem breakBackLinks_spares_leaves (s : state) c fuel :
  forest (heap s) -> c < length (heap s) -> 2 * length (heap s) < fuel ->
  exists h',
    breakBackLinks fuel c s = Ret VUndef (set_heap h' s) /\
    (forall y ny, heap s !! y = Some ny -> descends (heap s) c y ->
       nextLinks ny <> [] ->
       h' !! y = Some (set_root None (set_branch None ny))) /\
    (forall y ny, heap s !! y = Some ny -> descends (heap s) c y ->
       nextLinks ny = [] -> h' !! y = Some ny) /\
    (forall y, ~ descends (heap s) c y -> h' !! y = heap s !! y).
Proof.
  destruct s as [h t tr de w sl]. cbn [heap]. intros F Hc Hfuel.
  destruct (breakBackLinks_walk t tr de w sl (length h) c h fuel)
    as (h' & Hrun & _ & _ & Hout & Hin); [lia|exact F|exact Hc|lia|].
  exists h'. split; [exact Hrun|]. split; [|split; [|exact Hout]].
  - intros y ny Hy D Hl. rewrite (Hin y ny Hy D). now destruct (nextLinks ny).
  - intros y ny Hy D Hl. rewrite (Hin y ny Hy D). now rewrite Hl.
Qed.

(** The theorem at [d = new Deferred(); a = d.then(f1); b = d.then(f2);
    a.orIfError(h)], called on [d]. *)
Lemma breakBackLinks_spares_leaves_witness :
  exists h',
    breakBackLinks 7 0 (state_after two_children_one_handler)
      = Ret VUndef (set_heap h' (state_after two_children_one_handler)) /\
    (forall y ny, heap (state_after two_children_one_handler) !! y = Some ny ->
       descends (heap (state_after two_children_one_handler)) 0 y ->
       nextLinks ny <> [] ->
       h' !! y = Some (set_root None (set_branch None ny))) /\
    (forall y ny, heap (state_after two_children_one_handler) !! y = Some ny ->
       descends (heap (state_after two_children_one_handler)) 0 y ->
       nextLinks ny = [] -> h' !! y = Some ny) /\
    (forall y, ~ descends (heap (state_after two_children_one_handler)) 0 y ->
       h' !! y = heap (state_after two_children_one_handler) !! y).
Proof.
  apply (breakBackLinks_spares_leaves (state_after two_children_one_handler) 0 7).
  - small_forest.
  - vm_compute. lia.
  - vm_compute. lia.
Defined.

(** * More of the code: [abort] and its propagation *)

Lemma abort_trace_agree m : forall h h' c,
  forest h ->
  (forall y, descends h c y -> h' !! y = h !! y) ->
  abort_trace m h' c = abort_trace m h c.
Proof.
  induction m as [|m IH]; intros h h' c F Hag; [reflexivity|].
  cbn [abort_trace]. rewrite (Hag c (descends_here h c)).
  destruct (h !! c) as [n|] eqn:Hc; [|reflexivity]. f_equal.
  assert (Hk : forall x, x ∈ nextLinks n -> abort_trace m h' x = abort_trace m h x).
  { intros x Hx. apply IH; [exact F|]. intros y Hy. apply Hag.
    eapply descends_below; eauto. }
  induction (nextLinks n) as [|x l IHl]; [reflexivity|]. cbn [flat_map].
  rewrite (Hk x) by apply list_elem_of_here. f_equal. apply IHl.
  intros z Hz. apply Hk. now apply list_elem_of_further.
Qed.

Lemma flat_map_take_S {A B} (f : A -> list B) l i x :
  l !! i = Some x -> flat_map f (take (S i) l) = flat_map f (take i l) ++ f x.
Proof.
  intros Hi. erewrite take_S_r by exact Hi. rewrite flat_map_app. cbn.
  now rewrite app_nil_r.
Qed.

Lemma nextLinks_aborted_with a n : nextLinks (aborted_with a n) = nextLinks n.
Proof. now destruct n. Qed.
Lemma nextLinks_set_aborted b a n : nextLinks (set_aborted b a n) = nextLinks n.
Proof. now destruct n. Qed.

(** [propagateAbort] on a forest, by induction on the height left below
    the node: nothing at or below the node has been aborted before, and
    the abort listeners there are user functions that return. *)
Lemma propagateAbort_walk t de w sl L m : forall c args h tr fuel,
  length h - c <= m -> forest h -> c < length h ->
  2 * length h - c + L < fuel ->
  (forall y ny, h !! y = Some ny -> descends h c y ->
     aborted ny = false /\
     Forall (fun f => returns_on [] f = true) (abortFunctions ny) /\
     length (abortFunctions ny) <= L) ->
  exists h',
    dispatch fuel (CPropagateAbort c args) (mkState h t tr de w sl)
      = Ret VUndef (mkState h' t (tr ++ abort_trace m h c) de w sl) /\
    length h' = length h /\
    (forall y, nextLinks <$> h' !! y = nextLinks <$> h !! y) /\
    (forall y, ~ descends h c y -> h' !! y = h !! y) /\
    h' !! c = aborted_with args <$> h !! c /\
    (forall y ny, h !! y = Some ny -> descends h c y -> y <> c ->
       h' !! y = Some (aborted_with [] ny)).
Proof.
  induction m as [|m IH]; intros c args h tr fuel Hm F Hc Hfuel Hsub; [lia|].
  destruct fuel as [|f]; [lia|]. rewrite dispatch_propagateAbort.
  destruct (lookup_lt_is_Some_2 h c Hc) as [n Hn].
  destruct (Hsub c n Hn (descends_here h c)) as (Hab & Hret & HL).
  assert (Hkid : forall x, x ∈ nextLinks n -> c < x < length h)
    by (intros x Hx; destruct F as [F _]; apply (F c n x Hn Hx)).
  unfold propagateAbort. cbn [bind].
  rewrite (get_node_eq _ _ _ _ _ _ _ _ Hn), Hab. cbn [bind].
  rewrite (modify_node_eq _ _ _ _ _ _ _ _ _ Hn). cbn [bind].
  set (h1 := <[c := set_aborted true args n]> h).
  assert (Hn1 : h1 !! c = Some (set_aborted true args n))
    by (apply (lookup_update_same h c n), Hn).
  assert (L1 : length h1 = length h) by apply length_insert.
  (* the listeners of the node *)
  assert (Hlisten :
    runAbortFunctions f (dispatch f) c [] (mkState h1 t tr de w sl)
    = Ret tt (mkState h1 t
                (tr ++ (if negb (callbacked n) && negb (errbacked n)
                        then calls (abortFunctions n) [] else []))
                de w sl)).
  { unfold runAbortFunctions. cbn [bind].
    rewrite (get_node_eq _ _ _ _ _ _ _ _ Hn1).
    replace (callbacked (set_aborted true args n)) with (callbacked n) by now destruct n.
    replace (errbacked (set_aborted true args n)) with (errbacked n) by now destruct n.
    destruct (negb (callbacked n) && negb (errbacked n)).
    - rewrite (broadcast_loop abortFunctions (mkState h1 t tr de w sl) c
                 (set_aborted true args n) [] f f Hn1).
      + cbn [set_trace heap timers trace defaultErrorHandler whens selects].
        now destruct n.
      + now destruct n.
      + replace (abortFunctions (set_aborted true args n)) with (abortFunctions n)
          by now destruct n.
        lia.
      + lia.
    - cbn [ret]. now rewrite app_nil_r. }
  rewrite Hlisten. cbn [bind].
  set (tr1 := tr ++ (if negb (callbacked n) && negb (errbacked n)
                     then calls (abortFunctions n) [] else [])).
  set (I := fun (i : nat) (acc : unit) (s : state) =>
      exists hi, s = mkState hi t (tr1 ++ flat_map (abort_trace m h) (take i (nextLinks n)))
                       de w sl /\
        length hi = length h /\
        (forall y, nextLinks <$> hi !! y = nextLinks <$> h !! y) /\
        (forall y, ~ descends h c y -> hi !! y = h !! y) /\
        hi !! c = Some (set_aborted true args n) /\
        (forall k x, k < i -> nextLinks n !! k = Some x ->
           forall y ny, h !! y = Some ny -> descends h x y ->
           hi !! y = Some (aborted_with [] ny)) /\
        (forall k x, i <= k -> nextLinks n !! k = Some x ->
           forall y, descends h x y -> hi !! y = h !! y)).
  destruct (for_loop_rule I (length_of c nextLinks)
              (fun i (_ : unit) =>
                 next <- element c nextLinks i ;;
                 dispatch f (CPropagateAbort next []) ;;
                 ret tt)
              (length (nextLinks n))) with (fuel := f) (i := 0) (acc := tt)
              (s := mkState h1 t tr1 de w sl)
    as (acc' & s' & Hloop & hN & -> & LN & SN & HfrN & HcN & HdoneN & _).
  - intros i acc s (hi & -> & _ & _ & _ & Hci & _). unfold length_of. cbn [bind].
    rewrite (get_node_eq _ _ _ _ _ _ _ _ Hci). cbn [ret].
    now rewrite nextLinks_set_aborted.
  - intros i acc s Hi (hi & -> & Li & Si & Hfri & Hci & Hdone & Htodo).
    destruct (lookup_lt_is_Some_2 _ _ Hi) as [x Hxi].
    assert (Hx : c < x < length h) by (apply Hkid; eapply list_elem_of_lookup_2; eauto).
    pose proof (forest_shape h hi Li Si F) as Fi.
    assert (Hdesc : forall a y, descends hi a y <-> descends h a y).
    { intros a y. split; apply descends_shape; intros z; [symmetry|]; apply Si. }
    assert (Hsame : forall y, descends h x y -> hi !! y = h !! y)
      by (intros y D; now apply (Htodo i x)).
    destruct (IH x [] hi
                (tr1 ++ flat_map (abort_trace m h) (take i (nextLinks n))) f)
      as (h2 & Hrun & L2 & S2 & Hfr2 & Hx2 & Hin2); [lia|exact Fi|lia|lia| |].
    { intros y ny Hy D. apply Hdesc in D. rewrite (Hsame y D) in Hy.
      apply (Hsub y ny Hy). eapply descends_below; [exact Hn| |exact D].
      eapply list_elem_of_lookup_2; eauto. }
    cbn [bind].
    rewrite (element_eq _ _ _ _ _ _ _ _ nextLinks i x Hci)
      by now rewrite nextLinks_set_aborted.
    rewrite Hrun. cbn [bind ret].
    exists tt. eexists. split; [reflexivity|]. exists h2. split.
    { f_equal. rewrite <- app_assoc. f_equal.
      rewrite (flat_map_take_S _ _ _ _ Hxi). f_equal.
      apply abort_trace_agree; [exact F|exact Hsame]. }
    split; [lia|]. split; [intros y; now rewrite S2|].
    split.
    { intros y Hy. rewrite Hfr2; [now apply Hfri|]. intros D. apply Hdesc in D.
      apply Hy. eapply descends_below; [exact Hn| |exact D].
      eapply list_elem_of_lookup_2; eauto. }
    split.
    { rewrite Hfr2; [exact Hci|]. intros D. apply Hdesc in D.
      pose proof (descends_ge _ _ _ F D). lia. }
    split.
    + intros k x' Hk Hx' y ny Hy D.
      destruct (decide (k = i)) as [->|Hki].
      * assert (x' = x) as -> by congruence.
        destruct (decide (y = x)) as [->|Hyx].
        -- rewrite Hx2, (Hsame x (descends_here h x)), Hy. reflexivity.
        -- apply Hin2; [|now apply Hdesc|exact Hyx]. now rewrite (Hsame y D).
      * rewrite Hfr2; [apply (Hdone k x'); [lia|assumption..]|].
        intros D'. apply Hdesc in D'.
        exact (siblings_disjoint h c n k i x' x y F Hn Hx' Hxi Hki D D').
    + intros k x' Hk Hx' y D.
      rewrite Hfr2; [apply (Htodo k x'); [lia|assumption..]|].
      intros D'. apply Hdesc in D'.
      assert (k <> i) by lia.
      exact (siblings_disjoint h c n k i x' x y F Hn Hx' Hxi ltac:(assumption) D D').
  - lia.
  - pose proof (children_bound h c n F Hn). lia.
  - exists h1. split; [cbn [take flat_map]; now rewrite app_nil_r|].
    split; [exact L1|]. split.
    { intros y. destruct (decide (y = c)) as [->|Hy].
      - rewrite Hn1, Hn. cbn [fmap option_fmap option_map].
        now rewrite nextLinks_set_aborted.
      - unfold h1. now rewrite lookup_update_other by congruence. }
    split.
    { intros y Hy. unfold h1. apply lookup_update_other. intros ->. apply Hy. constructor. }
    split; [exact Hn1|]. split; [intros; lia|].
    intros k x _ Hx y D. unfold h1. apply lookup_update_other.
    assert (c < x) by (apply Hkid; eapply list_elem_of_lookup_2; eauto).
    pose proof (descends_ge _ _ _ F D). lia.
  - rewrite Hloop. cbn [bind]. rewrite (modify_node_eq _ _ _ _ _ _ _ _ _ HcN).
    cbn [bind ret]. eexists. split.
    { f_equal. f_equal. unfold tr1. rewrite <- app_assoc. f_equal.
      cbn [abort_trace]. rewrite Hn. f_equal. now rewrite firstn_all. }
    split; [rewrite length_insert; exact LN|]. split.
    { intros y. destruct (decide (y = c)) as [->|Hy].
      - rewrite (lookup_update_same _ _ _ _ HcN), Hn.
        cbn [fmap option_fmap option_map]. now destruct n.
      - rewrite lookup_update_other by congruence. apply SN. }
    split.
    { intros y Hy. rewrite lookup_update_other by (intros ->; apply Hy; constructor).
      now apply HfrN. }
    split.
    { rewrite (lookup_update_same _ _ _ _ HcN), Hn. reflexivity. }
    intros y ny Hy D Hyc. rewrite lookup_update_other by congruence.
    destruct (descends_cases h c n y Hn D) as [->|(k & x & Hk & Hx)]; [congruence|].
    apply (HdoneN k x); [eapply lookup_lt_Some; eauto|assumption..].
Qed.

(** X2.  [abort] on a node that is neither callbacked nor errbacked, in a
    forest where nothing at or below the node has been aborted and the
    abort listeners there are user functions that return: the call
    returns the node; every node at and below it is marked aborted and
    loses [root] and [branch]; the node itself stores the arguments of
    the call, the nodes below store none; the abort listeners run parent
    first and next links in order (but not those of nodes that had been
    callbacked or errbacked); no other node changes and no task is
    scheduled. *)
Theorem abort_reaches_the_whole_subtree (s : state) c n args L fuel :
  forest (heap s) ->
  heap s !! c = Some n -> callbacked n = false -> errbacked n = false ->
  (forall y ny, heap s !! y = Some ny -> descends (heap s) c y ->
     aborted ny = false /\
     Forall (fun f => returns_on [] f = true) (abortFunctions ny) /\
     length (abortFunctions ny) <= L) ->
  2 * length (heap s) + L < fuel ->
  exists h',
    abort fuel (dispatch fuel) c args s
    = Ret c (set_trace (trace s ++ abort_trace (length (heap s)) (heap s) c)
               (set_heap h' s)) /\
    h' !! c = Some (aborted_with args n) /\
    (forall y ny, heap s !! y = Some ny -> descends (heap s) c y -> y <> c ->
       h' !! y = Some (aborted_with [] ny)) /\
    (forall y, ~ descends (heap s) c y -> h' !! y = heap s !! y).
Proof.
  destruct s as [h t tr de w sl]. cbn [heap trace]. intros F Hn Hcb Heb Hsub Hfuel.
  destruct (Hsub c n Hn (descends_here h c)) as (Hab & _).
  destruct (propagateAbort_walk t de w sl L (length h) c args h tr (S fuel))
    as (h' & Hrun & _ & _ & Hout & Hc & Hin);
    [lia|exact F|eapply lookup_lt_Some; eauto|lia|exact Hsub|].
  rewrite dispatch_propagateAbort in Hrun.
  exists h'. split.
  - unfold abort. cbn [bind]. rewrite (get_node_eq _ _ _ _ _ _ _ _ Hn), Hab, Hcb, Heb.
    cbn [bind]. rewrite Hrun. reflexivity.
  - split; [now rewrite Hc, Hn|]. split; [exact Hin|exact Hout].
Qed.

(** The theorem at [d = new Deferred(); a = d.then(f1); b = d.then(f2);
    a.onAbort(g)], for [d.abort("why")]. *)
Lemma abort_reaches_the_whole_subtree_witness :
  exists h',
    abort 8 (dispatch 8) 0 [VStr "why"] (state_after two_children_one_listener)
    = Ret 0 (set_trace
               (trace (state_after two_children_one_listener)
                ++ abort_trace (length (heap (state_after two_children_one_listener)))
                     (heap (state_after two_children_one_listener)) 0)
               (set_heap h' (state_after two_children_one_listener))) /\
    h' !! 0 = Some (aborted_with [VStr "why"]
                      (node_at (state_after two_children_one_listener) 0)) /\
    (forall y ny, heap (state_after two_children_one_listener) !! y = Some ny ->
       descends (heap (state_after two_children_one_listener)) 0 y -> y <> 0 ->
       h' !! y = Some (aborted_with [] ny)) /\
    (forall y, ~ descends (heap (state_after two_children_one_listener)) 0 y ->
       h' !! y = heap (state_after two_children_one_listener) !! y).
Proof.
  apply (abort_reaches_the_whole_subtree (state_after two_children_one_listener) 0
           (node_at (state_after two_children_one_listener) 0) [VStr "why"] 1 8).
  - small_forest.
  - reflexivity.
  - reflexivity.
  - reflexivity.
  - intros y ny Hy _.
    do 3 (destruct y as [|y];
          [vm_compute in Hy; injection Hy as <-;
           repeat split; try (vm_compute; lia);
           repeat constructor|]).
    vm_compute in Hy. discriminate.
  - vm_compute. lia.
Defined.

(** X3.  The arguments of [abort] reach only late listeners: the
    listeners registered before the abort are called without arguments,
    whatever [abort] was called with, while a listener registered
    afterwards with [onAbort] is called at once, alone, with the
    arguments of the abort. *)
Theorem abort_arguments_reach_late_listeners_only
    (s : state) d n args g fuel :
  heap s !! d = Some n ->
  callbacked n = false -> errbacked n = false -> aborted n = false ->
  nextLinks n = [] ->
  Forall (fun f => returns_on [] f = true) (abortFunctions n) ->
  returns_on args g = true ->
  length (abortFunctions n) < fuel ->
  exists s1 s2,
    abort (S fuel) (dispatch (S fuel)) d args s = Ret d s1 /\
    trace s1 = trace s ++ calls (abortFunctions n) [] /\
    heap s1 = <[d := aborted_with args n]> (heap s) /\
    onAbort (dispatch (S fuel)) d g s1 = Ret d s2 /\
    trace s2 = trace s1 ++ calls [g] args /\
    heap s2 = <[d := set_abortFunctions (abortFunctions n ++ [g])
                       (aborted_with args n)]> (heap s).
Proof.
  intros Hd Hcb Heb Hab Hl Hall Hg Hfuel.
  destruct (returns_on_inv _ _ Hg) as (gn & gb & gv & -> & Hgb).
  destruct s as [h t tr de w sl]. cbn [heap trace] in *.
  assert (Hd1 : <[d := set_aborted true args n]> h !! d
                = Some (set_aborted true args n))
    by (apply (lookup_update_same _ _ _ _ Hd)).
  eexists _, _. split.
  { unfold abort, propagateAbort, runAbortFunctions. cbn [bind].
    rewrite (get_node_eq _ _ _ _ _ _ _ _ Hd), Hab, Hcb, Heb. cbn [bind].
    rewrite (get_node_eq _ _ _ _ _ _ _ _ Hd), Hab. cbn [bind].
    rewrite (modify_node_eq _ _ _ _ _ _ _ _ _ Hd). cbn [bind].
    rewrite (get_node_eq _ _ _ _ _ _ _ _ Hd1).
    replace (callbacked (set_aborted true args n)) with false by now destruct n.
    replace (errbacked (set_aborted true args n)) with false by now destruct n.
    cbn [negb andb bind].
    erewrite (broadcast_loop abortFunctions) with (n := set_aborted true args n);
      [|exact Hd1|now destruct n
       |replace (abortFunctions (set_aborted true args n)) with (abortFunctions n)
          by (now destruct n); lia|lia].
    cbn [bind set_trace heap timers trace defaultErrorHandler whens selects].
    erewrite for_loop_done;
      [|unfold length_of, get_node; cbn; rewrite Hd1; reflexivity
       |rewrite ?nextLinks_set_aborted, Hl; cbn; lia].
    unfold set_trace. cbn [bind heap timers trace defaultErrorHandler whens selects].
    rewrite (modify_node_eq _ _ _ _ _ _ _ _ _ Hd1). cbn [bind ret].
    reflexivity. }
  cbn [trace heap].
  split; [now destruct n|]. split; [now rewrite list_insert_insert_eq|].
  rewrite list_insert_insert_eq.
  assert (Hd2 : <[d := set_root None (set_branch None (set_aborted true args n))]> h !! d
                = Some (aborted_with args n))
    by (apply (lookup_update_same _ _ _ _ Hd)).
  split.
  { unfold onAbort. cbn [bind]. rewrite (modify_node_eq _ _ _ _ _ _ _ _ _ Hd2).
    cbn [bind]. rewrite list_insert_insert_eq.
    erewrite get_node_eq by (apply (lookup_update_same _ _ _ _ Hd)).
    replace (aborted (set_abortFunctions _ (aborted_with args n))) with true
      by now destruct n.
    cbn [bind].
    erewrite element_eq;
      [|apply (lookup_update_same _ _ _ _ Hd)
       |replace (abortFunctions (set_abortFunctions (abortFunctions (aborted_with args n) ++ [FUser gn gb]) (aborted_with args n)))
          with (abortFunctions (aborted_with args n) ++ [FUser gn gb]) by (now destruct n);
        rewrite length_app; cbn [length];
        replace (length (abortFunctions (aborted_with args n)) + 1 - 1)
          with (length (abortFunctions (aborted_with args n))) by lia;
        apply list_lookup_middle; reflexivity].
    replace (abortArgs (set_abortFunctions _ (aborted_with args n))) with args
      by now destruct n.
    rewrite dispatch_apply. unfold apply. cbn [bind emit]. rewrite Hgb.
    cbn [bind ret set_trace heap timers trace defaultErrorHandler whens selects].
    reflexivity. }
  cbn [trace heap]. split; [reflexivity|]. now destruct n.
Qed.

(** The theorem at [d = new Deferred(); d.onAbort(g1); d.onAbort(g2)], for
    [d.abort("why")] followed by [d.onAbort(late)]. *)
Lemma abort_arguments_reach_late_listeners_only_witness :
  exists s1 s2,
    abort 4 (dispatch 4) 0 [VStr "why"] (state_after two_listeners) = Ret 0 s1 /\
    trace s1 = trace (state_after two_listeners)
               ++ calls (abortFunctions (node_at (state_after two_listeners) 0)) [] /\
    heap s1 = <[0 := aborted_with [VStr "why"] (node_at (state_after two_listeners) 0)]>
                (heap (state_after two_listeners)) /\
    onAbort (dispatch 4) 0 (log_fn "late") s1 = Ret 0 s2 /\
    trace s2 = trace s1 ++ calls [log_fn "late"] [VStr "why"] /\
    heap s2 = <[0 := set_abortFunctions
                       (abortFunctions (node_at (state_after two_listeners) 0)
                        ++ [log_fn "late"])
                       (aborted_with [VStr "why"]
                          (node_at (state_after two_listeners) 0))]>
                (heap (state_after two_listeners)).
Proof.
  apply (abort_arguments_reach_late_listeners_only (state_after two_listeners) 0
           (node_at (state_after two_listeners) 0) [VStr "why"] (log_fn "late") 3);
    try reflexivity.
  - repeat constructor.
  - vm_compute. lia.
Defined.

(** X4.  [abortAll] on any node whose [root] is still set aborts the
    whole tree of that root, as [abort] on the root without arguments
    does, and returns the node it was called on. *)
Theorem abortAll_aborts_the_tree_of_the_root (s : state) x nx r nr L fuel :
  forest (heap s) ->
  heap s !! x = Some nx -> root nx = Some r ->
  heap s !! r = Some nr -> callbacked nr = false -> errbacked nr = false ->
  (forall y ny, heap s !! y = Some ny -> descends (heap s) r y ->
     aborted ny = false /\
     Forall (fun f => returns_on [] f = true) (abortFunctions ny) /\
     length (abortFunctions ny) <= L) ->
  2 * length (heap s) + L < fuel ->
  exists h',
    abortAll fuel (dispatch fuel) x s
    = Ret x (set_trace (trace s ++ abort_trace (length (heap s)) (heap s) r)
               (set_heap h' s)) /\
    (forall y ny, heap s !! y = Some ny -> descends (heap s) r y ->
       h' !! y = Some (aborted_with [] ny)) /\
    (forall y, ~ descends (heap s) r y -> h' !! y = heap s !! y).
Proof.
  destruct s as [h t tr de w sl]. cbn [heap trace].
  intros F Hx Hroot Hr Hcb Heb Hsub Hfuel.
  destruct (Hsub r nr Hr (descends_here h r)) as (Hab & _).
  destruct (propagateAbort_walk t de w sl L (length h) r [] h tr (S fuel))
    as (h' & Hrun & _ & _ & Hout & Hc & Hin);
    [lia|exact F|eapply lookup_lt_Some; eauto|lia|exact Hsub|].
  rewrite dispatch_propagateAbort in Hrun.
  exists h'. split.
  - unfold abortAll, abort. cbn [bind].
    rewrite (get_node_eq _ _ _ _ _ _ _ _ Hx), Hroot. cbn [bind].
    rewrite (get_node_eq _ _ _ _ _ _ _ _ Hr), Hab, Hcb, Heb.
    cbn [bind]. rewrite Hrun. reflexivity.
  - split; [|exact Hout]. intros y ny Hy D.
    destruct (decide (y = r)) as [->|Hyr]; [|now apply Hin].
    rewrite Hc, Hy. reflexivity.
Qed.

(** The theorem at [d = new Deferred(); a = d.then(f1); b = d.then(f2);
    a.onAbort(g)], for [b.abortAll()]. *)
Lemma abortAll_aborts_the_tree_of_the_root_witness :
  exists h',
    abortAll 8 (dispatch 8) 2 (state_after two_children_one_listener)
    = Ret 2 (set_trace
               (trace (state_after two_children_one_listener)
                ++ abort_trace (length (heap (state_after two_children_one_listener)))
                     (heap (state_after two_children_one_listener)) 0)
               (set_heap h' (state_after two_children_one_listener))) /\
    (forall y ny, heap (state_after two_children_one_listener) !! y = Some ny ->
       descends (heap (state_after two_children_one_listener)) 0 y ->
       h' !! y = Some (aborted_with [] ny)) /\
    (forall y, ~ descends (heap (state_after two_children_one_listener)) 0 y ->
       h' !! y = heap (state_after two_children_one_listener) !! y).
Proof.
  apply (abortAll_aborts_the_tree_of_the_root
           (state_after two_children_one_listener) 2
           (node_at (state_after two_children_one_listener) 2) 0
           (node_at (state_after two_children_one_listener) 0) 1 8).
  - small_forest.
  - reflexivity.
  - reflexivity.
  - reflexivity.
  - reflexivity.
  - reflexivity.
  - intros y ny Hy _.
    do 3 (destruct y as [|y];
          [vm_compute in Hy; injection Hy as <-;
           repeat split; try (vm_compute; lia);
           repeat constructor|]).
    vm_compute in Hy. discriminate.
  - vm_compute. lia.
Defined.

(** X5.  Once a node has been resolved (its back links are cleared and
    one of the three flags is set), [abortBranch] on it throws a
    TypeError and changes nothing, while [abortAll] on it returns the
    node and only logs why it cannot be aborted. *)
Theorem abortBranch_throws_where_abortAll_logs (s : state) x nx fuel rec :
  heap s !! x = Some nx ->
  root nx = None -> branch nx = None ->
  aborted nx || callbacked nx || errbacked nx = true ->
  abortBranch fuel rec x s = Throw TypeError s /\
  exists msg,
    abortAll fuel rec x s = Ret x (set_trace (trace s ++ [EvLog msg []]) s) /\
    msg = (if aborted nx
           then "Deferred has already been aborted, can't abort again!"
           else if callbacked nx
           then "Deferred has already been callbacked, can't abort after that!"
           else "Deferred has already been errbacked, can't abort after that!").
Proof.
  destruct s as [h t tr de w sl]. cbn [heap trace]. intros Hx Hr Hb Hflag.
  split.
  - unfold abortBranch. cbn [bind]. rewrite (get_node_eq _ _ _ _ _ _ _ _ Hx), Hb.
    reflexivity.
  - eexists. split; [|reflexivity].
    unfold abortAll, abort. cbn [bind].
    rewrite (get_node_eq _ _ _ _ _ _ _ _ Hx), Hr. cbn [bind].
    rewrite (get_node_eq _ _ _ _ _ _ _ _ Hx).
    destruct (aborted nx), (callbacked nx), (errbacked nx); try discriminate;
      reflexivity.
Qed.

(** The theorem at [d = new Deferred(); d.callback(1)], once the event loop
    has run. *)
Lemma abortBranch_throws_where_abortAll_logs_witness :
  abortBranch 4 (dispatch 4) 0 resolved_alone = Throw TypeError resolved_alone /\
  exists msg,
    abortAll 4 (dispatch 4) 0 resolved_alone
    = Ret 0 (set_trace (trace resolved_alone ++ [EvLog msg []]) resolved_alone) /\
    msg = (if aborted (node_at resolved_alone 0)
           then "Deferred has already been aborted, can't abort again!"
           else if callbacked (node_at resolved_alone 0)
           then "Deferred has already been callbacked, can't abort after that!"
           else "Deferred has already been errbacked, can't abort after that!").
Proof.
  apply (abortBranch_throws_where_abortAll_logs resolved_alone 0
           (node_at resolved_alone 0) 4 (dispatch 4)); reflexivity.
Defined.

(** * More of the code: resolving a node *)

Ltac by_fields n := destruct n; cbn in *; subst; first [reflexivity|congruence].

Ltac open_st s :=
  destruct s as [h t tr de w sl];
  cbn [heap trace timers defaultErrorHandler whens selects] in *.

(** X6.  When an error is handled on the node itself, the finally hook
    runs once, without arguments, after all the error handlers. *)
Theorem finally_runs_after_the_error_handlers
    (s : state) d n e faulty fname fbody v fuel :
  heap s !! d = Some n ->
  errbacked n = false -> aborted n = false ->
  errbackFunctions n <> [] ->
  Forall (fun f => returns_on [e] f = true) (errbackFunctions n) ->
  finallyFunction n = Some (FUser fname fbody) -> fbody [] = URet v ->
  dispatch (2 + length (errbackFunctions n) + fuel) (CRunErrback d e faulty) s
  = Ret (VBool true)
      (set_trace (trace s ++ calls (errbackFunctions n) [e] ++ [EvCall fname []])
         (set_heap (<[d := unlinked (set_errbacked true e n)]> (heap s)) s)).
Proof.
  intros Hd He Ha Hne Hall Hfin Hfb. open_st s.
  remember (errbackFunctions n) as hs eqn:Hhs. symmetry in Hhs.
  change (2 + length hs + fuel) with (S (S (length hs + fuel))).
  run.
  match goal with
  | |- context [for_loop ?f ?l ?b 0 ?a ?st] =>
      destruct (for_loop_rule
                  (fun j acc s' =>
                     acc = (if j is 0 then VBool false else VBool true) /\
                     s' = set_trace (trace st ++ calls (take j hs) [e]) st)
                  l b (length hs))
        with (fuel := f) (i := 0) (acc := a) (s := st)
        as (acc' & s' & -> & -> & ->)
  end.
  - intros i acc s' [_ ->]. run. reflexivity.
  - intros i acc s' Hi [-> ->].
    destruct (lookup_lt_is_Some_2 hs i Hi) as [f Hf].
    destruct (returns_on_inv _ _ (Forall_lookup_1 _ _ _ _ Hall Hf))
      as (name & body & v' & -> & Hb).
    eexists _, _. split; [run; reflexivity|]. split; [reflexivity|].
    rewrite (calls_take_S _ _ _ _ _ Hf). cbn. now rewrite app_assoc.
  - lia.
  - lia.
  - split; [reflexivity|]. cbn. now rewrite calls_nil, app_nil_r.
  - destruct hs as [|h0 hs']; [congruence|]. rewrite firstn_all. run.
    norm. now rewrite <- app_assoc.
Qed.

(** The theorem at [d = new Deferred(); d.orIfError(h); d.andAtLast(fin)]. *)
Lemma finally_runs_after_the_error_handlers_witness :
  dispatch 3 (CRunErrback 0 (VStr "E") None) (state_after handler_and_finally)
  = Ret (VBool true)
      (set_trace
         (trace (state_after handler_and_finally)
          ++ calls (errbackFunctions (node_at (state_after handler_and_finally) 0))
               [VStr "E"]
          ++ [EvCall "fin" []])
         (set_heap
            (<[0 := unlinked (set_errbacked true (VStr "E")
                                (node_at (state_after handler_and_finally) 0))]>
               (heap (state_after handler_and_finally)))
            (state_after handler_and_finally))).
Proof.
  apply (finally_runs_after_the_error_handlers (state_after handler_and_finally) 0
           (node_at (state_after handler_and_finally) 0) (VStr "E") None
           "fin" (fun _ => URet VUndef) VUndef 0); try reflexivity.
  - discriminate.
  - repeat constructor.
Defined.



(** X8.  [callback] called twice on a pending node before the event loop
    runs: both calls are accepted and the arguments of the second replace
    those of the first, so the continuation runs once, on the second
    arguments; the second task then throws "already callbacked", which
    nobody catches. *)
Theorem last_callback_arguments_win
    (s : state) d n c nc name body a1 a2 v fuel :
  heap s !! d = Some n ->
  callbacked n = false -> errbacked n = false -> aborted n = false ->
  callbackFunctions n = [FUser name body] -> nextLinks n = [c] ->
  finallyFunction n = None ->
  body a2 = URet v -> (forall i, v <> VDef i) ->
  heap s !! c = Some nc -> c <> d ->
  callbacked nc = false -> errbacked nc = false -> aborted nc = false ->
  callbackFunctions nc = [] -> finallyFunction nc = None ->
  timers s = [] ->
  exists s1 s2,
    (callback d a1 ;; callback d a2) s = Ret d s1 /\
    trace s1 = trace s /\
    run_loop 2 (4 + fuel) s1 = Some s2 /\
    trace s2 = trace s ++ [EvCall name a2;
                           EvUncaught (VErr "Deferred has already been callbacked!")] /\
    heap s2 !! d = Some (unlinked (set_callbacked true a2 n)) /\
    heap s2 !! c = Some (unlinked (set_callbacked true [v] nc)).
Proof.
  intros Hd Hcb Heb Hab Hcf Hnl Hfin Hbody Hv Hc Hcd Hccb Hceb Hcab Hccf Hcfin Ht.
  open_st s. subst.
  eexists _, _. split; [run; norm; reflexivity|]. split; [reflexivity|].
  split.
  { cbn [run_loop timers]. unfold tick. run_loops.
    destruct v; try (now destruct (Hv d0)); run_loops; reflexivity. }
  destruct v; try (now destruct (Hv d0)); cbn [trace heap];
    (split; [now rewrite <- app_assoc|]); split; now run.
Qed.

(** The theorem at [d = new Deferred(); c = d.then(f)]. *)
Lemma last_callback_arguments_win_witness :
  exists s1 s2,
    (callback 0 [VNum 1] ;; callback 0 [VNum 2]) (state_after one_link) = Ret 0 s1 /\
    trace s1 = trace (state_after one_link) /\
    run_loop 2 4 s1 = Some s2 /\
    trace s2 = trace (state_after one_link)
               ++ [EvCall "f" [VNum 2];
                   EvUncaught (VErr "Deferred has already been callbacked!")] /\
    heap s2 !! 0 = Some (unlinked (set_callbacked true [VNum 2]
                                     (node_at (state_after one_link) 0))) /\
    heap s2 !! 1 = Some (unlinked (set_callbacked true [VUndef]
                                     (node_at (state_after one_link) 1))).
Proof.
  apply (last_callback_arguments_win (state_after one_link) 0
           (node_at (state_after one_link) 0) 1 (node_at (state_after one_link) 1)
           "f" (fun _ => URet VUndef) [VNum 1] [VNum 2] VUndef 0);
    try reflexivity; try discriminate.
Defined.

(** X9.  [errback] called twice on a pending node before the event loop
    runs: both calls are accepted, but only the first error is delivered;
    the second task finds the node errbacked and does nothing.  A third
    call, after that, only logs. *)
Theorem first_errback_wins (s : state) d n e1 e2 e3 fuel :
  heap s !! d = Some n ->
  errbacked n = false -> aborted n = false ->
  errbackFunctions n <> [] ->
  Forall (fun f => returns_on [e1] f = true) (errbackFunctions n) ->
  finallyFunction n = None ->
  timers s = [] ->
  exists s1 s2,
    (errback d e1 ;; errback d e2) s = Ret d s1 /\
    trace s1 = trace s /\
    run_loop 2 (2 + length (errbackFunctions n) + fuel) s1 = Some s2 /\
    s2 = set_trace (trace s ++ calls (errbackFunctions n) [e1])
           (set_heap (<[d := unlinked (set_errbacked true e1 n)]> (heap s)) s) /\
    errback d e3 s2
    = Ret d (set_trace
               (trace s2
                ++ [EvLog "Deferred is already errbacked, won't run errback!" []])
               s2).
Proof.
  intros Hd He Ha Hne Hall Hfin Ht.
  pose proof (runErrback_handled
                (set_timers [TRunErrback d e2] s) d n e1 None fuel Hd He Ha Hne Hall Hfin)
    as Hrun.
  open_st s. subst.
  remember (2 + length (errbackFunctions n) + fuel) as F eqn:HF.
  eexists _, _. split; [run; reflexivity|]. split; [reflexivity|].
  split.
  { unfold set_timers, set_trace, set_heap in Hrun.
    cbn [heap timers trace defaultErrorHandler whens selects] in Hrun.
    cbn [run_loop timers]. unfold tick, set_timers.
    cbn [run_task heap timers trace defaultErrorHandler whens selects].
    rewrite Hrun. cbn [run_loop timers]. unfold tick, set_timers.
    cbn [run_task heap timers trace defaultErrorHandler whens selects].
    rewrite HF. cbn [Nat.add]. rewrite dispatch_runErrback. run. reflexivity. }
  split; [reflexivity|]. now run.
Qed.

(** The theorem at [d = new Deferred(); d.orIfError(h)]. *)
Lemma first_errback_wins_witness :
  exists s1 s2,
    (errback 0 (VStr "E1") ;; errback 0 (VStr "E2")) (state_after one_handler)
      = Ret 0 s1 /\
    trace s1 = trace (state_after one_handler) /\
    run_loop 2 (2 + length (errbackFunctions (node_at (state_after one_handler) 0)) + 0)
      s1 = Some s2 /\
    s2 = set_trace
           (trace (state_after one_handler)
            ++ calls (errbackFunctions (node_at (state_after one_handler) 0))
                 [VStr "E1"])
           (set_heap
              (<[0 := unlinked (set_errbacked true (VStr "E1")
                                  (node_at (state_after one_handler) 0))]>
                 (heap (state_after one_handler)))
              (state_after one_handler)) /\
    errback 0 (VStr "E3") s2
    = Ret 0 (set_trace
               (trace s2
                ++ [EvLog "Deferred is already errbacked, won't run errback!" []])
               s2).
Proof.
  apply (first_errback_wins (state_after one_handler) 0
           (node_at (state_after one_handler) 0) (VStr "E1") (VStr "E2") (VStr "E3") 0);
    try reflexivity.
  - discriminate.
  - repeat constructor.
Defined.

(** X10.  [runCallback] does not run a callback whose next link has been
    aborted.  When every next link has been aborted, no callback runs at
    all: the node is marked callbacked, loses its back links, and nothing
    else happens. *)
Theorem callbacks_of_aborted_links_are_skipped (s : state) d n args fuel :
  heap s !! d = Some n ->
  callbacked n = false -> errbacked n = false ->
  finallyFunction n = None ->
  length (callbackFunctions n) = length (nextLinks n) ->
  (forall c, c ∈ nextLinks n ->
     exists nc, heap s !! c = Some nc /\ aborted nc = true) ->
  length (callbackFunctions n) < fuel ->
  dispatch (S fuel) (CRunCallback d args) s
  = Ret VUndef
      (set_heap (<[d := unlinked (set_callbacked true args n)]> (heap s)) s).
Proof.
  intros Hd Hcb Heb Hfin Hlen Hkids Hfuel. open_st s.
  rewrite dispatch_runCallback. unfold runCallback. cbn [bind].
  rewrite (get_node_eq _ _ _ _ _ _ _ _ Hd), Hcb, Heb. cbn [bind].
  rewrite (modify_node_eq _ _ _ _ _ _ _ _ _ Hd), Hfin. cbn [bind].
  set (h1 := <[d := set_callbacked true args n]> h).
  assert (Hd1 : h1 !! d = Some (set_callbacked true args n))
    by apply (lookup_update_same _ _ _ _ Hd).
  assert (Hkids1 : forall c, c ∈ nextLinks n ->
            exists nc, h1 !! c = Some nc /\ aborted nc = true).
  { intros c Hc. destruct (Hkids c Hc) as (nc & Hnc & Hab).
    destruct (decide (c = d)) as [->|Hcd].
    - exists (set_callbacked true args n). split; [exact Hd1|].
      assert (nc = n) as -> by congruence. now destruct n.
    - exists nc. split; [|exact Hab]. unfold h1.
      now rewrite lookup_update_other by congruence. }
  match goal with
  | |- context [for_loop ?f ?l ?b 0 ?a ?st] =>
      destruct (for_loop_rule (fun (_ : nat) (_ : unit) s' => s' = st)
                  l b (length (callbackFunctions n)))
        with (fuel := f) (i := 0) (acc := a) (s := st)
        as (acc' & s' & -> & ->)
  end.
  - intros i acc s' ->. unfold length_of. cbn [bind].
    rewrite (get_node_eq _ _ _ _ _ _ _ _ Hd1). cbn [ret]. now destruct n.
  - intros i acc s' Hi ->. rewrite Hlen in Hi.
    destruct (lookup_lt_is_Some_2 _ _ Hi) as [c Hc].
    destruct (Hkids1 c (list_elem_of_lookup_2 _ _ _ Hc)) as (nc & Hnc & Hab).
    exists tt. eexists. split; [|reflexivity]. cbn [bind].
    rewrite (element_eq _ _ _ _ _ _ _ _ nextLinks i c Hd1) by now destruct n.
    unfold isAborted. cbn [bind].
    rewrite (get_node_eq _ _ _ _ _ _ _ _ Hnc), Hab. reflexivity.
  - lia.
  - lia.
  - reflexivity.
  - cbn [bind]. rewrite (modify_node_eq _ _ _ _ _ _ _ _ _ Hd1). cbn [bind ret].
    unfold h1. now rewrite list_insert_insert_eq.
Qed.

(** The theorem at [d = new Deferred(); a = d.then(f1); b = d.then(f2);
    a.abort(); b.abort()]. *)
Lemma callbacks_of_aborted_links_are_skipped_witness :
  dispatch 4 (CRunCallback 0 [VNum 1]) (state_after both_links_aborted)
  = Ret VUndef
      (set_heap
         (<[0 := unlinked (set_callbacked true [VNum 1]
                             (node_at (state_after both_links_aborted) 0))]>
            (heap (state_after both_links_aborted)))
         (state_after both_links_aborted)).
Proof.
  apply (callbacks_of_aborted_links_are_skipped (state_after both_links_aborted) 0
           (node_at (state_after both_links_aborted) 0) [VNum 1] 3);
    try reflexivity.
  - intros c Hc. vm_compute in Hc.
    apply elem_of_cons in Hc as [->|Hc]; [eexists; split; reflexivity|].
    apply elem_of_cons in Hc as [->|Hc]; [eexists; split; reflexivity|].
    inversion Hc.
  - vm_compute. lia.
Defined.

(** X11.  What a callback throws is handed to its own next link: the
    error handlers of that link are called with the thrown value, the
    link ends errbacked with it, and [runCallback] returns normally. *)
Theorem thrown_error_reaches_the_handlers_of_the_link
    (s : state) d n c nc name body args e fuel :
  heap s !! d = Some n ->
  callbacked n = false -> errbacked n = false ->
  finallyFunction n = None ->
  callbackFunctions n = [FUser name body] -> nextLinks n = [c] ->
  body args = UThrow e ->
  heap s !! c = Some nc -> c <> d ->
  errbacked nc = false -> aborted nc = false ->
  errbackFunctions nc <> [] ->
  Forall (fun f => returns_on [e] f = true) (errbackFunctions nc) ->
  finallyFunction nc = None ->
  dispatch (3 + length (errbackFunctions nc) + fuel) (CRunCallback d args) s
  = Ret VUndef
      (set_trace (trace s ++ EvCall name args :: calls (errbackFunctions nc) [e])
         (set_heap
            (<[d := unlinked (set_callbacked true args n)]>
               (<[c := unlinked (set_errbacked true e nc)]> (heap s)))
            s)).
Proof.
  intros Hd Hcb Heb Hfin Hcf Hnl Hbody Hc Hcd Hceb Hcab Hne Hall Hcfin.
  pose proof (fun s' H => runErrback_handled s' c nc e (Some (FUser name body)) fuel
                H Hceb Hcab Hne Hall Hcfin) as Hrun.
  open_st s.
  change (3 + length (errbackFunctions nc) + fuel)
    with (S (2 + length (errbackFunctions nc) + fuel)).
  remember (2 + length (errbackFunctions nc) + fuel) as F eqn:HF.
  assert (F = S (S (length (errbackFunctions nc) + fuel))) as HF' by lia.
  rewrite dispatch_runCallback. unfold runCallback. cbn [bind].
  rewrite (get_node_eq _ _ _ _ _ _ _ _ Hd), Hcb, Heb. cbn [bind].
  rewrite (modify_node_eq _ _ _ _ _ _ _ _ _ Hd), Hfin. cbn [bind].
  set (h1 := <[d := set_callbacked true args n]> h).
  assert (Hd1 : h1 !! d = Some (set_callbacked true args n))
    by apply (lookup_update_same _ _ _ _ Hd).
  assert (Hc1 : h1 !! c = Some nc)
    by (unfold h1; now rewrite lookup_update_other by congruence).
  rewrite HF' at 1. rewrite for_loop_unfold. cbn [bind]. unfold length_of at 1.
  cbn [bind]. rewrite (get_node_eq _ _ _ _ _ _ _ _ Hd1). cbn [ret].
  replace (callbackFunctions (set_callbacked true args n)) with [FUser name body]
    by by_fields n.
  cbn [length Nat.ltb Nat.leb bind].
  rewrite (element_eq _ _ _ _ _ _ _ _ nextLinks 0 c Hd1) by by_fields n.
  unfold isAborted. cbn [bind]. rewrite (get_node_eq _ _ _ _ _ _ _ _ Hc1), Hcab.
  cbn [ret]. unfold try_catch. cbn [bind].
  erewrite (element_eq _ _ _ _ _ _ _ _ callbackFunctions 0 _ Hd1) by by_fields n.
  rewrite HF' at 1. rewrite dispatch_apply. unfold apply. cbn [bind emit].
  rewrite Hbody. unfold set_trace at 1.
  cbn [heap timers trace defaultErrorHandler whens selects throw bind].
  rewrite (element_eq _ _ _ _ _ _ _ _ nextLinks 0 c Hd1) by by_fields n.
  rewrite (get_node_eq _ _ _ _ _ _ _ _ Hd1).
  replace (callbackFunctions (set_callbacked true args n) !! 0)
    with (Some (FUser name body)) by by_fields n.
  rewrite (Hrun (mkState h1 t (tr ++ [EvCall name args]) de w sl) Hc1).
  unfold set_trace, set_heap.
  cbn [heap timers trace defaultErrorHandler whens selects bind ret].
  rewrite for_loop_unfold. cbn [bind]. unfold length_of. cbn [bind].
  erewrite get_node_eq
    by (rewrite list_lookup_insert_ne by congruence; exact Hd1).
  cbn [ret]. replace (callbackFunctions (set_callbacked true args n))
    with [FUser name body] by by_fields n.
  cbn [length Nat.ltb Nat.leb bind ret].
  erewrite modify_node_eq
    by (rewrite list_lookup_insert_ne by congruence; exact Hd1).
  cbn [bind ret]. rewrite <- app_assoc. cbn [app]. unfold h1.
  rewrite (list_insert_insert_ne _ c d) by congruence.
  rewrite list_insert_insert_eq. reflexivity.
Qed.

(** The theorem at [d = new Deferred(); c = d.then(f); c.orIfError(h)],
    where [f] throws "boom". *)
Lemma thrown_error_reaches_the_handlers_of_the_link_witness :
  dispatch (3 + length (errbackFunctions (node_at (state_after link_with_handler) 1)) + 0)
    (CRunCallback 0 [VNum 1]) (state_after link_with_handler)
  = Ret VUndef
      (set_trace
         (trace (state_after link_with_handler)
          ++ EvCall "f" [VNum 1]
             :: calls (errbackFunctions (node_at (state_after link_with_handler) 1))
                  [VStr "boom"])
         (set_heap
            (<[0 := unlinked (set_callbacked true [VNum 1]
                                (node_at (state_after link_with_handler) 0))]>
               (<[1 := unlinked (set_errbacked true (VStr "boom")
                                   (node_at (state_after link_with_handler) 1))]>
                  (heap (state_after link_with_handler))))
            (state_after link_with_handler))).
Proof.
  apply (thrown_error_reaches_the_handlers_of_the_link
           (state_after link_with_handler) 0
           (node_at (state_after link_with_handler) 0) 1
           (node_at (state_after link_with_handler) 1)
           "f" (fun _ => UThrow (VStr "boom")) [VNum 1] (VStr "boom") 0);
    try reflexivity; try discriminate.
  repeat constructor.
Defined.

(** X12.  When a callback throws and its next link has no error handler
    and no next link of its own, and no default handler is registered,
    the error leaves [runCallback]: the callbacks registered after the
    throwing one are never called, and the node, although marked
    callbacked, keeps [root] and [branch]. *)
Theorem unhandled_throw_stops_the_remaining_callbacks
    (s : state) d n c nc name body rest links args e fuel :
  heap s !! d = Some n ->
  callbacked n = false -> errbacked n = false ->
  finallyFunction n = None ->
  callbackFunctions n = FUser name body :: rest -> nextLinks n = c :: links ->
  body args = UThrow e ->
  heap s !! c = Some nc -> c <> d ->
  errbacked nc = false -> aborted nc = false ->
  errbackFunctions nc = [] -> nextLinks nc = [] ->
  defaultErrorHandler s = None ->
  dispatch (3 + fuel) (CRunCallback d args) s
  = Throw e
      (set_trace
         (trace s ++ [EvCall name args; EvLog "Error in callback Function: " []])
         (set_heap
            (<[c := set_errbacked true e nc]>
               (<[d := set_callbacked true args n]> (heap s)))
            s)).
Proof.
  intros Hd Hcb Heb Hfin Hcf Hnl Hbody Hc Hcd Hceb Hcab Hcef Hcnl Hde.
  open_st s. subst. run_loops. now rewrite <- app_assoc.
Qed.

(** The theorem at [d = new Deferred(); d.then(f1); d.then(f2)], where
    [f1] throws "boom": [f2] is not called. *)
Lemma unhandled_throw_stops_the_remaining_callbacks_witness :
  dispatch 3 (CRunCallback 0 [VNum 1]) (state_after two_callbacks_first_throws)
  = Throw (VStr "boom")
      (set_trace
         (trace (state_after two_callbacks_first_throws)
          ++ [EvCall "f1" [VNum 1]; EvLog "Error in callback Function: " []])
         (set_heap
            (<[1 := set_errbacked true (VStr "boom")
                      (node_at (state_after two_callbacks_first_throws) 1)]>
               (<[0 := set_callbacked true [VNum 1]
                         (node_at (state_after two_callbacks_first_throws) 0)]>
                  (heap (state_after two_callbacks_first_throws))))
            (state_after two_callbacks_first_throws))).
Proof.
  apply (unhandled_throw_stops_the_remaining_callbacks
           (state_after two_callbacks_first_throws) 0
           (node_at (state_after two_callbacks_first_throws) 0) 1
           (node_at (state_after two_callbacks_first_throws) 1)
           "f1" (fun _ => UThrow (VStr "boom")) [log_fn "f2"] [2] [VNum 1]
           (VStr "boom") 0);
    try reflexivity; try discriminate.
Defined.

(** X13.  What a callback returns (when it is not a Deferred) is the
    single argument of the callback of its next link, and so on down the
    chain; every node gone through ends callbacked with what it
    received. *)
Theorem return_values_feed_the_chain
    (s : state) d n c nc g ng fname fbody gname gbody args v u fuel :
  heap s !! d = Some n ->
  callbacked n = false -> errbacked n = false -> finallyFunction n = None ->
  callbackFunctions n = [FUser fname fbody] -> nextLinks n = [c] ->
  fbody args = URet v -> (forall i, v <> VDef i) ->
  heap s !! c = Some nc -> c <> d ->
  callbacked nc = false -> errbacked nc = false -> aborted nc = false ->
  finallyFunction nc = None ->
  callbackFunctions nc = [FUser gname gbody] -> nextLinks nc = [g] ->
  gbody [v] = URet u -> (forall i, u <> VDef i) ->
  heap s !! g = Some ng -> g <> d -> g <> c ->
  callbacked ng = false -> errbacked ng = false -> aborted ng = false ->
  finallyFunction ng = None -> callbackFunctions ng = [] ->
  dispatch (5 + fuel) (CRunCallback d args) s
  = Ret VUndef
      (set_trace (trace s ++ [EvCall fname args; EvCall gname [v]])
         (set_heap
            (<[d := unlinked (set_callbacked true args n)]>
               (<[c := unlinked (set_callbacked true [v] nc)]>
                  (<[g := unlinked (set_callbacked true [u] ng)]> (heap s))))
            s)).
Proof.
  intros Hd Hcb Heb Hfin Hcf Hnl Hfb Hv Hc Hcd Hccb Hceb Hcab Hcfin Hccf Hcnl
    Hgb Hu Hg Hgd Hgc Hgcb Hgeb Hgab Hgfin Hgcf.
  open_st s. subst. run_loops.
  destruct v; try (now destruct (Hv d0)); run_loops;
    (destruct u; try (now destruct (Hu d0)); run_loops; norm;
     f_equal; st_eq;
     first [reflexivity|now rewrite <- ?app_assoc|heap_eq (d, (c, (g, tt)))]).
Qed.

(** The theorem at [d = new Deferred(); d.then(f).then(g)], where [f]
    returns 5. *)
Lemma return_values_feed_the_chain_witness :
  dispatch 5 (CRunCallback 0 [VNum 1]) (state_after chain_of_callbacks)
  = Ret VUndef
      (set_trace
         (trace (state_after chain_of_callbacks)
          ++ [EvCall "f" [VNum 1]; EvCall "g" [VNum 5]])
         (set_heap
            (<[0 := unlinked (set_callbacked true [VNum 1]
                                (node_at (state_after chain_of_callbacks) 0))]>
               (<[1 := unlinked (set_callbacked true [VNum 5]
                                   (node_at (state_after chain_of_callbacks) 1))]>
                  (<[2 := unlinked (set_callbacked true [VUndef]
                                      (node_at (state_after chain_of_callbacks) 2))]>
                     (heap (state_after chain_of_callbacks)))))
            (state_after chain_of_callbacks))).
Proof.
  apply (return_values_feed_the_chain (state_after chain_of_callbacks) 0
           (node_at (state_after chain_of_callbacks) 0) 1
           (node_at (state_after chain_of_callbacks) 1) 2
           (node_at (state_after chain_of_callbacks) 2)
           "f" (fun _ => URet (VNum 5)) "g" (fun _ => URet VUndef)
           [VNum 1] (VNum 5) VUndef 0);
    try reflexivity; try discriminate.
Defined.



(** X15.  A continuation attached to a node that has already failed (and
    whose back links are therefore cleared) is never called: at the next
    turn of the event loop the new link fails with the error the node
    failed with, and an error handler put on that link in the meantime
    receives it. *)
Theorem late_continuation_of_a_failed_node
    (s : state) d n f hname hbody v fuel :
  heap s !! d = Some n ->
  errbacked n = true -> aborted n = false -> branch n = None ->
  timers s = [] ->
  hbody [errbackError n] = URet v ->
  exists s1 s2,
    (c <- then_ (dispatch fuel) d f ;; orIfError c (FUser hname hbody)) s
      = Ret (length (heap s)) s1 /\
    trace s1 = trace s /\
    tick (3 + fuel) s1 = Some s2 /\
    trace s2 = trace s ++ [EvCall hname [errbackError n]] /\
    heap s2 !! length (heap s)
    = Some (unlinked
              (set_errbacked true (errbackError n)
                 (set_errbackFunctions [FUser hname hbody]
                    (fresh_node (default (length (heap s)) (root n))
                       (length (heap s)))))) /\
    timers s2 = [].
Proof.
  intros Hd Heb Hab Hbr Ht Hh. open_st s. subst.
  pose proof (lookup_lt_Some _ _ _ Hd) as Hlt.
  set (m := fresh_node (default (length h) (root n)) (length h)).
  set (n1 := set_callbackFunctions (callbackFunctions n ++ [f])
               (set_nextLinks (nextLinks n ++ [length h]) n)).
  set (m1 := set_errbackFunctions [FUser hname hbody] m).
  assert (Hd0 : (h ++ [m]) !! d = Some n) by now apply lookup_alloc_old.
  assert (Hd1 : <[d := n1]> (h ++ [m]) !! d = Some n1)
    by apply (lookup_update_same _ _ _ _ Hd0).
  assert (Hm1 : <[d := n1]> (h ++ [m]) !! length h = Some m).
  { rewrite list_lookup_insert_ne by lia. apply lookup_alloc_new. }
  assert (Hprog : (c <- then_ (dispatch fuel) d f ;; orIfError c (FUser hname hbody))
                    (mkState h [] tr de w sl)
                  = Ret (length h)
                      (mkState (<[length h := m1]> (<[d := n1]> (h ++ [m])))
                         [TThenErrback (length h) d] tr de w sl)).
  { unfold then_. cbn [bind]. rewrite (get_node_eq _ _ _ _ _ _ _ _ Hd).
    destruct (0 <? length (callbackFunctions n)).
    - rewrite Hbr. cbn [bind]. rewrite new_Deferred_eq. cbn [bind default]. fold m.
      rewrite (modify_node_eq _ _ _ _ _ _ _ _ _ Hd0). cbn [bind ret].
      erewrite modify_node_eq by apply (lookup_update_same _ _ _ _ Hd0).
      cbn [bind]. rewrite list_insert_insert_eq.
      replace (set_callbackFunctions _ (set_nextLinks (nextLinks n ++ [length h]) n))
        with n1 by by_fields n.
      rewrite (get_node_eq _ _ _ _ _ _ _ _ Hd1).
      replace (aborted n1) with false by by_fields n.
      replace (errbacked n1) with true by by_fields n.
      unfold setTimeout, set_timers, orIfError.
      cbn [bind heap timers trace defaultErrorHandler whens selects ret app].
      rewrite (get_node_eq _ _ _ _ _ _ _ _ Hm1). change (aborted m) with false.
      cbn [bind]. rewrite (modify_node_eq _ _ _ _ _ _ _ _ _ Hm1).
      change (errbacked m) with false. reflexivity.
    - rewrite Hbr. cbn [bind]. rewrite new_Deferred_eq. cbn [bind default]. fold m.
      rewrite (modify_node_eq _ _ _ _ _ _ _ _ _ Hd0). cbn [bind ret].
      erewrite modify_node_eq by apply (lookup_update_same _ _ _ _ Hd0).
      cbn [bind]. rewrite list_insert_insert_eq.
      replace (set_callbackFunctions _ (set_nextLinks (nextLinks n ++ [length h]) n))
        with n1 by by_fields n.
      rewrite (get_node_eq _ _ _ _ _ _ _ _ Hd1).
      replace (aborted n1) with false by by_fields n.
      replace (errbacked n1) with true by by_fields n.
      unfold setTimeout, set_timers, orIfError.
      cbn [bind heap timers trace defaultErrorHandler whens selects ret app].
      rewrite (get_node_eq _ _ _ _ _ _ _ _ Hm1). change (aborted m) with false.
      cbn [bind]. rewrite (modify_node_eq _ _ _ _ _ _ _ _ _ Hm1).
      change (errbacked m) with false. reflexivity. }
  eexists _, _. split; [exact Hprog|]. cbn [trace]. split; [reflexivity|].
  assert (Hd2 : <[length h := m1]> (<[d := n1]> (h ++ [m])) !! d = Some n1)
    by (rewrite list_lookup_insert_ne by lia; exact Hd1).
  assert (Hm2 : <[length h := m1]> (<[d := n1]> (h ++ [m])) !! length h = Some m1)
    by apply (lookup_update_same _ _ _ _ Hm1).
  split.
  { unfold tick, set_timers.
    cbn [timers heap trace defaultErrorHandler whens selects run_task bind].
    rewrite (get_node_eq _ _ _ _ _ _ _ _ Hd2).
    replace (errbackError n1) with (errbackError n) by by_fields n.
    change (3 + fuel) with (2 + length (errbackFunctions m1) + fuel).
    rewrite (runErrback_handled
               (mkState (<[length h := m1]> (<[d := n1]> (h ++ [m]))) [] tr de w sl)
               (length h) m1 (errbackError n) None fuel Hm2);
      try reflexivity; [discriminate|].
    repeat constructor. cbn. now rewrite Hh. }
  cbn [trace heap timers set_trace set_heap]. split; [reflexivity|].
  split; [|reflexivity]. apply (lookup_update_same _ _ _ _ Hm2).
Qed.

(** The theorem at [d = new Deferred(); d.orIfError(h0); d.errback("E")],
    once the event loop has run. *)
Lemma late_continuation_of_a_failed_node_witness :
  exists s1 s2,
    (c <- then_ (dispatch 0) 0 (log_fn "f") ;; orIfError c (FUser "h" (fun _ => URet VUndef)))
      failed_and_handled
      = Ret (length (heap failed_and_handled)) s1 /\
    trace s1 = trace failed_and_handled /\
    tick (3 + 0) s1 = Some s2 /\
    trace s2 = trace failed_and_handled
               ++ [EvCall "h" [errbackError (node_at failed_and_handled 0)]] /\
    heap s2 !! length (heap failed_and_handled)
    = Some (unlinked
              (set_errbacked true (errbackError (node_at failed_and_handled 0))
                 (set_errbackFunctions [FUser "h" (fun _ => URet VUndef)]
                    (fresh_node
                       (default (length (heap failed_and_handled))
                          (root (node_at failed_and_handled 0)))
                       (length (heap failed_and_handled)))))) /\
    timers s2 = [].
Proof.
  apply (late_continuation_of_a_failed_node failed_and_handled 0 (node_at failed_and_handled 0)
           (log_fn "f") "h" (fun _ => URet VUndef) VUndef 0); reflexivity.
Defined.

(** * More of the code: errors below a node, listeners, the finally hook *)

(** X16.  An error reaches a node without error handler whose next links
    are all leaves without error handler, and a default handler is
    registered: the default handler is called once for every next link
    (not once for the error), every next link ends errbacked while
    keeping its back links, and the node itself counts as done: it loses
    its back links and [runErrback] returns [undefined]. *)
Theorem default_handler_runs_once_per_leaf
    (s : state) d n e hname hbody v fuel :
  heap s !! d = Some n ->
  errbacked n = false -> aborted n = false ->
  errbackFunctions n = [] -> finallyFunction n = None ->
  nextLinks n <> [] -> NoDup (nextLinks n) -> d ∉ nextLinks n ->
  (forall c, c ∈ nextLinks n ->
     exists nc, heap s !! c = Some nc /\
       errbacked nc = false /\ aborted nc = false /\
       errbackFunctions nc = [] /\ nextLinks nc = []) ->
  defaultErrorHandler s = Some (FUser hname hbody) -> hbody [e] = URet v ->
  length (nextLinks n) < fuel ->
  exists h',
    dispatch (3 + fuel) (CRunErrback d e None) s
    = Ret VUndef
        (set_trace (trace s ++ replicate (length (nextLinks n)) (EvCall hname [e]))
           (set_heap h' s)) /\
    h' !! d = Some (unlinked (set_errbacked true e n)) /\
    (forall c nc, c ∈ nextLinks n -> heap s !! c = Some nc ->
       h' !! c = Some (set_errbacked true e nc)) /\
    (forall x, x <> d -> x ∉ nextLinks n -> h' !! x = heap s !! x).
Proof.
  intros Hd Heb Hab Hef Hfin Hne Hnd Hdn Hkids Hde Hb Hfuel. open_st s. subst.
  change (3 + fuel) with (S (S (S fuel))).
  rewrite dispatch_runErrback. unfold runErrback. cbn [bind].
  rewrite (get_node_eq _ _ _ _ _ _ _ _ Hd), Heb, Hab. cbn [bind].
  rewrite (modify_node_eq _ _ _ _ _ _ _ _ _ Hd). cbn [bind].
  set (h1 := <[d := set_errbacked true e n]> h).
  assert (Hd1 : h1 !! d = Some (set_errbacked true e n))
    by apply (lookup_update_same _ _ _ _ Hd).
  erewrite for_loop_done;
    [|unfold length_of, get_node; cbn [bind heap]; rewrite Hd1; reflexivity
     |replace (errbackFunctions (set_errbacked true e n)) with (@nil fn)
        by by_fields n; cbn; lia].
  cbn [bind is_false].
  set (cs := nextLinks n) in *.
  set (I := fun (j : nat) (acc : value) (s' : state) =>
      acc = (if j is 0 then VBool false else VUndef) /\
      exists hj, s' = mkState hj t (tr ++ replicate j (EvCall hname [e]))
                        (Some (FUser hname hbody)) w sl /\
        hj !! d = Some (set_errbacked true e n) /\
        (forall k c nc, k < j -> cs !! k = Some c -> h !! c = Some nc ->
           hj !! c = Some (set_errbacked true e nc)) /\
        (forall k c, j <= k -> cs !! k = Some c -> hj !! c = h !! c) /\
        (forall x, x <> d -> x ∉ cs -> hj !! x = h !! x)).
  match goal with
  | |- context [for_loop ?f ?l ?b 0 ?a ?st] =>
      destruct (for_loop_rule I l b (length cs))
        with (fuel := f) (i := 0) (acc := a) (s := st)
        as (acc' & s' & Hloop & -> & hN & -> & HdN & HdoneN & _ & HotherN)
  end.
  - intros j acc s' (_ & hj & -> & Hdj & _). unfold length_of. cbn [bind].
    rewrite (get_node_eq _ _ _ _ _ _ _ _ Hdj). cbn [ret].
    unfold cs. now destruct n.
  - intros j acc s' Hj (-> & hj & -> & Hdj & Hdone & Htodo & Hother).
    destruct (lookup_lt_is_Some_2 _ _ Hj) as [c Hc].
    assert (Hcin : c ∈ cs) by (eapply list_elem_of_lookup_2; eauto).
    destruct (Hkids c Hcin) as (nc & Hnc & Hceb & Hcab & Hcef & Hcnl).
    assert (Hcd : c <> d) by (intros ->; now apply Hdn).
    assert (Hcj : hj !! c = Some nc) by (rewrite (Htodo j c); [exact Hnc|lia|exact Hc]).
    eexists _, _. split.
    { replace (truthy (if j is 0 then VBool false else VUndef)) with false
        by now destruct j.
      cbn [bind].
      rewrite (element_eq _ _ _ _ _ _ _ _ nextLinks j c Hdj) by by_fields n.
      rewrite (get_node_eq _ _ _ _ _ _ _ _ Hdj).
      replace (errbackError (set_errbacked true e n)) with e by by_fields n.
      rewrite dispatch_runErrback. unfold runErrback. cbn [bind].
      rewrite (get_node_eq _ _ _ _ _ _ _ _ Hcj), Hceb, Hcab. cbn [bind].
      rewrite (modify_node_eq _ _ _ _ _ _ _ _ _ Hcj). cbn [bind].
      assert (Hc2 : <[c := set_errbacked true e nc]> hj !! c
                    = Some (set_errbacked true e nc))
        by apply (lookup_update_same _ _ _ _ Hcj).
      destruct fuel as [|fuel']; [lia|].
      erewrite for_loop_done;
        [|unfold length_of, get_node; cbn [bind heap]; rewrite Hc2; reflexivity
         |replace (errbackFunctions (set_errbacked true e nc)) with (@nil fn)
            by by_fields nc; cbn; lia].
      cbn [bind is_false].
      erewrite for_loop_done;
        [|unfold length_of, get_node; cbn [bind heap]; rewrite Hc2; reflexivity
         |replace (nextLinks (set_errbacked true e nc)) with (@nil nat)
            by by_fields nc; cbn; lia].
      cbn [bind is_false get_state defaultErrorHandler].
      rewrite (get_node_eq _ _ _ _ _ _ _ _ Hc2).
      replace (errbackError (set_errbacked true e nc)) with e by by_fields nc.
      rewrite dispatch_apply. unfold apply. cbn [bind emit]. rewrite Hb.
      unfold set_trace. cbn [bind ret heap timers trace defaultErrorHandler whens
                               selects].
      reflexivity. }
    split; [reflexivity|]. eexists. split.
    { f_equal. rewrite <- app_assoc. f_equal.
      change (S j) with (1 + j). rewrite Nat.add_comm, replicate_add. reflexivity. }
    split; [rewrite list_lookup_insert_ne by congruence; exact Hdj|].
    split; [|split].
    + intros k c' nc' Hk Hc' Hnc'. destruct (decide (k = j)) as [->|Hkj].
      * assert (c' = c) as -> by congruence. assert (nc' = nc) as -> by congruence.
        apply (lookup_update_same _ _ _ _ Hcj).
      * assert (c' <> c).
        { intros ->. apply Hkj. exact (NoDup_lookup _ _ _ _ Hnd Hc' Hc). }
        rewrite list_lookup_insert_ne by congruence. apply (Hdone k); [lia|assumption..].
    + intros k c' Hk Hc'.
      assert (c' <> c).
      { intros ->. assert (k = j) by exact (NoDup_lookup _ _ _ _ Hnd Hc' Hc). lia. }
      rewrite list_lookup_insert_ne by congruence. apply (Htodo k); [lia|assumption].
    + intros x Hxd Hx.
      assert (x <> c) by (intros ->; now apply Hx).
      rewrite list_lookup_insert_ne by congruence. now apply Hother.
  - lia.
  - lia.
  - split; [reflexivity|]. exists h1. split; [cbn; now rewrite app_nil_r|].
    split; [exact Hd1|]. split; [intros; lia|]. split.
    + intros k c _ Hc. unfold h1. apply lookup_update_other.
      intros ->. apply Hdn. eapply list_elem_of_lookup_2; eauto.
    + intros x Hxd _. unfold h1. now apply lookup_update_other.
  - rewrite Hloop. cbn [bind].
    destruct (length cs) as [|k] eqn:Hk.
    { destruct cs; [congruence|discriminate]. }
    cbn [is_false]. unfold runErrback_finish. cbn [bind].
    rewrite (modify_node_eq _ _ _ _ _ _ _ _ _ HdN). cbn [bind].
    erewrite get_node_eq by apply (lookup_update_same _ _ _ _ HdN).
    replace (finallyFunction _) with (@None fn) by by_fields n.
    cbn [bind ret]. exists (<[d := unlinked (set_errbacked true e n)]> hN).
    split; [reflexivity|].
    split; [apply (lookup_update_same _ _ _ _ HdN)|]. split.
    + intros c nc Hc Hnc. apply list_elem_of_lookup_1 in Hc as [j Hj].
      rewrite list_lookup_insert_ne
        by (intros ->; apply Hdn; eapply list_elem_of_lookup_2; eauto).
      apply (HdoneN j c nc); [|exact Hj|exact Hnc].
      rewrite <- Hk. eapply lookup_lt_Some; eauto.
    + intros x Hxd Hx. rewrite list_lookup_insert_ne by congruence.
      now apply HotherN.
Qed.

(** The theorem at [d = new Deferred(); d.then(f1); d.then(f2)] with a
    default handler registered: the handler is called twice. *)
Lemma default_handler_runs_once_per_leaf_witness :
  exists h',
    dispatch (3 + 3) (CRunErrback 0 (VStr "E") None)
      (state_after two_links_and_default_handler)
    = Ret VUndef
        (set_trace
           (trace (state_after two_links_and_default_handler)
            ++ replicate
                 (length (nextLinks (node_at (state_after two_links_and_default_handler) 0)))
                 (EvCall "dflt" [VStr "E"]))
           (set_heap h' (state_after two_links_and_default_handler))) /\
    h' !! 0 = Some (unlinked (set_errbacked true (VStr "E")
                                (node_at (state_after two_links_and_default_handler) 0))) /\
    (forall c nc,
       c ∈ nextLinks (node_at (state_after two_links_and_default_handler) 0) ->
       heap (state_after two_links_and_default_handler) !! c = Some nc ->
       h' !! c = Some (set_errbacked true (VStr "E") nc)) /\
    (forall x, x <> 0 ->
       x ∉ nextLinks (node_at (state_after two_links_and_default_handler) 0) ->
       h' !! x = heap (state_after two_links_and_default_handler) !! x).
Proof.
  apply (default_handler_runs_once_per_leaf
           (state_after two_links_and_default_handler) 0
           (node_at (state_after two_links_and_default_handler) 0) (VStr "E")
           "dflt" (fun _ => URet VUndef) VUndef 3);
    try reflexivity; try discriminate.
  - repeat (constructor;
            [intros H; repeat (apply elem_of_cons in H as [H|H]; [discriminate|]);
             now apply elem_of_nil in H|]).
    constructor.
  - intros H. repeat (apply elem_of_cons in H as [H|H]; [discriminate|]).
    now apply elem_of_nil in H.
  - intros c Hc. vm_compute in Hc.
    apply elem_of_cons in Hc as [->|Hc]; [eexists; repeat split; reflexivity|].
    apply elem_of_cons in Hc as [->|Hc]; [eexists; repeat split; reflexivity|].
    inversion Hc.
  - vm_compute. lia.
Defined.



(** X18.  [progress] and [partialResult] call every listener registered
    so far, in the order of registration and with the arguments given,
    and change nothing in the store; [progress] returns the node,
    [partialResult] returns [undefined].  On an aborted node both only
    log, and both return the node. *)
Theorem broadcasts_reach_every_listener (s : state) d n a b v fuel :
  heap s !! d = Some n ->
  Forall (fun f => returns_on [a; b] f = true) (progressFunctions n) ->
  Forall (fun f => returns_on [v] f = true) (partialResultFunctions n) ->
  length (progressFunctions n) < fuel ->
  length (partialResultFunctions n) < fuel ->
  (aborted n = false ->
   progress fuel (dispatch fuel) d a b s
   = Ret d (set_trace (trace s ++ calls (progressFunctions n) [a; b]) s) /\
   partialResult fuel (dispatch fuel) d v s
   = Ret VUndef (set_trace (trace s ++ calls (partialResultFunctions n) [v]) s)) /\
  (aborted n = true ->
   progress fuel (dispatch fuel) d a b s
   = Ret d (set_trace
              (trace s ++ [EvLog "The deferred has been aborted, can't set progress!" []])
              s) /\
   partialResult fuel (dispatch fuel) d v s
   = Ret (VDef d)
       (set_trace
          (trace s
           ++ [EvLog "The deferred has been aborted, won't call partial result!" []])
          s)).
Proof.
  intros Hd Hp Hr Hfp Hfr. open_st s. split; intros Hab.
  - split.
    + unfold progress. cbn [bind]. rewrite (get_node_eq _ _ _ _ _ _ _ _ Hd), Hab.
      cbn [bind].
      rewrite (broadcast_loop progressFunctions (mkState h t tr de w sl) d n [a; b]
                 fuel fuel Hd Hp Hfp) by lia.
      reflexivity.
    + unfold partialResult. cbn [bind]. rewrite (get_node_eq _ _ _ _ _ _ _ _ Hd), Hab.
      cbn [bind].
      rewrite (broadcast_loop partialResultFunctions (mkState h t tr de w sl) d n [v]
                 fuel fuel Hd Hr Hfr) by lia.
      reflexivity.
  - split.
    + unfold progress. cbn [bind]. rewrite (get_node_eq _ _ _ _ _ _ _ _ Hd), Hab.
      reflexivity.
    + unfold partialResult. cbn [bind]. rewrite (get_node_eq _ _ _ _ _ _ _ _ Hd), Hab.
      reflexivity.
Qed.

(** The theorem at [d = new Deferred(); d.onProgress(p1);
    d.onProgress(p2); d.onPartialResult(r1)]. *)
Lemma broadcasts_reach_every_listener_witness :
  progress 3 (dispatch 3) 0 (VNum 1) (VNum 2) (state_after three_listeners)
  = Ret 0 (set_trace
             (trace (state_after three_listeners)
              ++ calls (progressFunctions (node_at (state_after three_listeners) 0))
                   [VNum 1; VNum 2])
             (state_after three_listeners)) /\
  partialResult 3 (dispatch 3) 0 (VStr "part") (state_after three_listeners)
  = Ret VUndef
      (set_trace
         (trace (state_after three_listeners)
          ++ calls (partialResultFunctions (node_at (state_after three_listeners) 0))
               [VStr "part"])
         (state_after three_listeners)).
Proof.
  refine (proj1 (broadcasts_reach_every_listener (state_after three_listeners) 0
                   (node_at (state_after three_listeners) 0)
                   (VNum 1) (VNum 2) (VStr "part") 3 _ _ _ _ _) _);
    try reflexivity; try (repeat constructor); try (vm_compute; lia).
Defined.

(** X19.  The finally hook can be set once: [andAtLast] stores the hook
    and returns [undefined]; a second registration, through [andAtLast]
    or through [finally], throws and leaves the first hook in place. *)
Theorem finally_hook_can_be_set_once (s : state) d n f g :
  heap s !! d = Some n -> finallyFunction n = None ->
  let s1 := set_heap (<[d := set_finallyFunction (Some f) n]> (heap s)) s in
  andAtLast d f s = Ret VUndef s1 /\
  finally d f s = Ret VUndef s1 /\
  andAtLast d g s1 = Throw (VErr "Finally function already exists") s1 /\
  finally d g s1 = Throw (VErr "Finally function already exists") s1.
Proof.
  intros Hd Hfin s1. subst s1. open_st s.
  assert (Hd1 : <[d := set_finallyFunction (Some f) n]> h !! d
                = Some (set_finallyFunction (Some f) n))
    by apply (lookup_update_same _ _ _ _ Hd).
  unfold finally, andAtLast, set_heap. cbn [bind heap timers trace defaultErrorHandler
                                              whens selects].
  rewrite !(get_node_eq _ _ _ _ _ _ _ _ Hd), Hfin. cbn [bind].
  rewrite !(modify_node_eq _ _ _ _ _ _ _ _ _ Hd). cbn [bind ret].
  rewrite !(get_node_eq _ _ _ _ _ _ _ _ Hd1).
  replace (finallyFunction (set_finallyFunction (Some f) n)) with (Some f)
    by by_fields n.
  repeat split; reflexivity.
Qed.

(** The theorem at [d = new Deferred()]. *)
Lemma finally_hook_can_be_set_once_witness :
  let s := state_after (new_Deferred None None) in
  let s1 := set_heap (<[0 := set_finallyFunction (Some (log_fn "fin"))
                               (node_at s 0)]> (heap s)) s in
  andAtLast 0 (log_fn "fin") s = Ret VUndef s1 /\
  finally 0 (log_fn "fin") s = Ret VUndef s1 /\
  andAtLast 0 (log_fn "other") s1 = Throw (VErr "Finally function already exists") s1 /\
  finally 0 (log_fn "other") s1 = Throw (VErr "Finally function already exists") s1.
Proof.
  apply (finally_hook_can_be_set_once (state_after (new_Deferred None None)) 0
           (node_at (state_after (new_Deferred None None)) 0)
           (log_fn "fin") (log_fn "other")); reflexivity.
Defined.

(** * More of the code: [when] when every input succeeds *)

Lemma array_set_same a i v : array_set a i v !! i = Some v.
Proof.
  unfold array_set. destruct (Nat.ltb_spec i (length a)).
  - now apply list_lookup_insert_eq.
  - rewrite lookup_app_r by lia. rewrite lookup_app_r by (rewrite length_replicate; lia).
    rewrite length_replicate. now replace (i - length a - (i - length a)) with 0 by lia.
Qed.

Lemma array_set_other a i j v x :
  j <> i -> a !! j = Some x -> array_set a i v !! j = Some x.
Proof.
  intros Hne Hj. unfold array_set. destruct (Nat.ltb_spec i (length a)).
  - now rewrite list_lookup_insert_ne by congruence.
  - now apply lookup_app_l_Some.
Qed.

Lemma array_set_length a i v n :
  length a <= n -> i < n -> length (array_set a i v) <= n.
Proof.
  intros Ha Hi. unfold array_set. destruct (Nat.ltb_spec i (length a)).
  - now rewrite length_insert.
  - rewrite !length_app, length_replicate. cbn. lia.
Qed.

(** One input of a [when] succeeds while the Deferred [J] that [when]
    returned is still as [when] made it. *)
Lemma when_input_succeeds t0 tr de w sl h fr wf J a na t nt i v fuel :
  w !! fr = Some wf -> when_d wf = J ->
  h !! J = Some (fresh_node J J) ->
  h !! a = Some na ->
  callbacked na = false -> errbacked na = false -> aborted na = false ->
  callbackFunctions na = [FWhenThen fr i] -> nextLinks na = [t] ->
  finallyFunction na = None ->
  h !! t = Some nt ->
  callbacked nt = false -> errbacked nt = false -> aborted nt = false ->
  callbackFunctions nt = [] -> finallyFunction nt = None ->
  a <> t -> a <> J -> t <> J ->
  t0 = [] ->
  let rv := array_set (returnValues wf) i v in
  let fin := deferredsDone wf + 1 =? when_total wf in
  exists s1,
    callback a [v] (mkState h t0 tr de w sl) = Ret a s1 /\
    tick (4 + fuel) s1
    = Some (mkState
              (<[a := unlinked (set_callbacked true [v] na)]>
                 (<[t := unlinked (set_callbacked true [VUndef] nt)]>
                    (if fin then <[J := set_callbackArgs rv (fresh_node J J)]> h
                     else h)))
              (if fin then [TRunCallback J] else [])
              tr de
              (<[fr := mkWhen (when_d wf) rv (when_total wf) (deferredsDone wf + 1)
                         (when_args wf)]> w)
              sl).
Proof.
  intros Hfr HwJ HJ Ha Hac Hae Haa Hacf Han Haf Ht Htc Hte Hta Htcf Htf
    Hne1 Hne2 Hne3 -> rv fin.
  change (4 + fuel) with (S (S (S (S fuel)))).
  run.
  eexists. split; [reflexivity|].
  unfold tick. run_loops.
  subst fin. destruct (deferredsDone wf + 1 =? when_total wf).
  - run_loops. f_equal. st_eq; try reflexivity.
    heap_eq (a, (t, (J, tt))).
  - run_loops. f_equal. st_eq; try reflexivity.
    heap_eq (a, (t, tt)).
Qed.

Lemma indices_bound (l : list nat) n :
  NoDup l -> (forall i, i ∈ l -> i < n) -> length l <= n.
Proof.
  intros ND Hlt. replace n with (length (seq 0 n)) by apply length_seq.
  apply submseteq_length, NoDup_submseteq; [exact ND|].
  intros i Hi. apply elem_of_seq. specialize (Hlt i Hi). lia.
Qed.

(** The inputs left succeed one after the other: the last of them
    schedules the resolution of [J] with the aggregate, which holds the
    values in the order of the inputs. *)
Lemma when_all_succeed fr ds vs J fuel : forall todo s,
  when_progress s fr ds vs J todo -> todo <> [] -> length vs = length ds ->
  exists s1,
    succeed_in_order (4 + fuel) ds vs todo s = Some s1 /\
    timers s1 = [TRunCallback J] /\ trace s1 = trace s /\
    heap s1 !! J = Some (set_callbackArgs vs (fresh_node J J)).
Proof.
  induction todo as [|i rest IH]; intros s Hinv Hne Hlen; [congruence|]. clear Hne.
  destruct Hinv as (Ht & (rv & Hw & Hrvlen & Hrv) & Hnd & Hndt & Hwire & HJ).
  assert (Hbound : forall j, j ∈ i :: rest -> j < length ds).
  { intros j Hj. destruct (Hwire j Hj) as (a & _ & _ & Ha & _).
    eapply lookup_lt_Some, Ha. }
  pose proof (indices_bound _ _ Hndt Hbound) as Hcount. cbn [length] in Hcount.
  destruct (Hwire i (list_elem_of_here _ _))
    as (a & na & nt & Hi & HaJ & Ha & Hac & Hae & Haa & Haf & Hacf & Han
        & Hnt & Htc & Hte & Hta & Htcf & Htf).
  pose proof (lookup_lt_Some _ _ _ Hi) as Hilt.
  destruct (lookup_lt_is_Some_2 vs i) as [v Hv]; [lia|].
  destruct s as [h t tr de w sl].
  cbn [heap timers trace whens] in *.
  destruct (when_input_succeeds t tr de w sl h fr _ J a na (J + 1 + i) nt i v fuel
              Hw eq_refl HJ Ha Hac Hae Haa Hacf Han Haf Hnt Htc Hte Hta Htcf Htf)
    as (s1 & Hcb & Htick); [lia|lia|lia|exact Ht|].
  cbn [returnValues deferredsDone when_total when_d when_args] in Htick.
  cbn [succeed_in_order]. rewrite Hi, Hv, Hcb, Htick. clear Hcb Htick s1.
  apply NoDup_cons in Hndt as [Hirest Hndrest].
  assert (Hfr : fr < length w) by (eapply lookup_lt_Some, Hw).
  destruct rest as [|i' rest'].
  - (* the last input *)
    cbn [length] in *.
    replace (length ds - 1 + 1 =? length ds) with true
      by (symmetry; apply Nat.eqb_eq; lia).
    cbn [succeed_in_order]. eexists. split; [reflexivity|].
    cbn [timers trace heap]. split; [reflexivity|]. split; [reflexivity|].
    rewrite list_lookup_insert_ne by lia. rewrite list_lookup_insert_ne by lia.
    rewrite (lookup_update_same _ _ _ _ HJ). do 2 f_equal.
    apply list_eq. intros j.
    destruct (decide (j < length ds)) as [Hj|Hj].
    + destruct (decide (j = i)) as [->|Hji].
      * now rewrite array_set_same, Hv.
      * destruct (lookup_lt_is_Some_2 vs j) as [x Hx]; [lia|].
        rewrite Hx. apply array_set_other; [exact Hji|].
        rewrite Hrv; [exact Hx|exact Hj|].
        intros Hin. apply list_elem_of_singleton in Hin. congruence.
    + rewrite (lookup_ge_None_2 vs j) by lia. apply lookup_ge_None_2.
      pose proof (array_set_length rv i v (length ds) Hrvlen Hilt). lia.
  - (* more inputs are left *)
    cbn [length] in Hcount.
    replace (length ds - length (i :: i' :: rest') + 1 =? length ds) with false
      by (symmetry; apply Nat.eqb_neq; cbn [length]; lia).
    match goal with
    | |- exists s1, succeed_in_order _ _ _ _ ?s2 = _ /\ _ =>
        destruct (IH s2) as (s1 & Hrun & Htm & Htr & HJ1)
    end.
    + split; [reflexivity|]. cbn [whens heap]. split.
      { exists (array_set rv i v). split.
        - rewrite list_lookup_insert_eq by exact Hfr. do 2 f_equal.
          cbn [length]. lia.
        - split; [now apply array_set_length|].
          intros j Hj Hjr. destruct (decide (j = i)) as [->|Hji].
          + now rewrite array_set_same, Hv.
          + destruct (lookup_lt_is_Some_2 vs j) as [x Hx]; [lia|].
            rewrite Hx. apply array_set_other; [exact Hji|].
            rewrite Hrv; [exact Hx|exact Hj|].
            intros Hin. apply elem_of_cons in Hin as [?|?]; [congruence|].
            now apply Hjr. }
      split; [exact Hnd|]. split; [exact Hndrest|]. split.
      * intros j Hj.
        destruct (Hwire j (list_elem_of_further _ _ _ Hj))
          as (a' & na' & nt' & Hi' & HaJ' & Ha' & Hrest).
        assert (Hji : j <> i) by (intros ->; now apply Hirest).
        assert (Haa' : a' <> a).
        { intros Heq. apply Hji. rewrite Heq in Hi'.
          exact (NoDup_lookup _ _ _ _ Hnd Hi' Hi). }
        destruct Hrest as (? & ? & ? & ? & ? & ? & Hnt' & ?).
        exists a', na', nt'. split; [exact Hi'|]. split; [exact HaJ'|].
        split.
        { rewrite list_lookup_insert_ne by congruence.
          rewrite list_lookup_insert_ne by lia. exact Ha'. }
        do 6 (split; [assumption|]). split; [|assumption].
        rewrite list_lookup_insert_ne by lia.
        rewrite list_lookup_insert_ne by lia. exact Hnt'.
      * rewrite list_lookup_insert_ne by lia.
        rewrite list_lookup_insert_ne by lia. exact HJ.
    + discriminate.
    + exact Hlen.
    + exists s1. split; [exact Hrun|]. split; [exact Htm|]. split; [|exact HJ1].
      rewrite Htr. reflexivity.
Qed.

(** X20.  [when] on distinct inputs that nothing has been attached to:
    when the inputs succeed, in whatever order, each with one value, the
    Deferred that [when] returned stays pending until the last of them has
    succeeded, and is then resolved with the values in the order of the
    inputs (not in the order in which they arrived). *)
Theorem when_gathers_results_in_argument_order
    (s : state) ds vs order fuel :
  (forall i a, ds !! i = Some a ->
     exists na, heap s !! a = Some na /\ unattached na /\
       errbackFunctions na = []) ->
  NoDup ds -> timers s = [] ->
  ds <> [] -> length vs = length ds ->
  order ≡ₚ seq 0 (length ds) ->
  length ds < fuel ->
  exists J s0 s1 s2,
    when fuel (VDef <$> ds) s = Ret J s0 /\
    succeed_in_order (4 + fuel) ds vs order s0 = Some s1 /\
    timers s1 = [TRunCallback J] /\
    callbacked <$> heap s1 !! J = Some false /\
    tick (2 + fuel) s1 = Some s2 /\
    heap s2 !! J = Some (unlinked (set_callbacked true vs (fresh_node J J))) /\
    trace s2 = trace s /\ timers s2 = [].
Proof.
  intros Hin Hnd Ht Hne Hlen Hperm Hfuel.
  destruct (when_wires s ds fuel Hin Hnd Hfuel)
    as (s0 & Hwhen & (Hw & _ & Hwire & HJ) & Htm & Htr).
  set (J := length (heap s)) in *. set (fr := length (whens s)) in *.
  assert (Hlo : length order = length ds).
  { rewrite Hperm. apply length_seq. }
  assert (Hprog : when_progress s0 fr ds vs J order).
  { split; [now rewrite Htm|]. split.
    { exists []. split; [now rewrite Hlo, Nat.sub_diag|]. split; [cbn; lia|].
      intros i Hi Hni. exfalso. apply Hni. rewrite Hperm. apply elem_of_seq. lia. }
    split; [exact Hnd|]. split; [rewrite Hperm; apply NoDup_seq|].
    split; [|exact HJ].
    intros i Hi. rewrite Hperm in Hi. apply elem_of_seq in Hi.
    destruct (lookup_lt_is_Some_2 ds i) as [a Ha]; [lia|].
    destruct (Hwire i a Ha)
      as (HaJ & na & nt & Hna & ? & ? & ? & ? & ? & ? & ? & Hnt
          & (? & ? & ? & ? & ? & ? & ?)).
    exists a, na, nt. repeat (split; [assumption|]). assumption. }
  destruct (when_all_succeed fr ds vs J fuel order s0 Hprog) as
    (s1 & Hrun & Htm1 & Htr1 & HJ1); [|exact Hlen|].
  { intros ->. apply Hne. destruct ds; [reflexivity|discriminate]. }
  exists J, s0, s1. destruct s1 as [h1 t1 tr1 de1 w1 sl1].
  cbn [heap timers trace] in *. subst t1.
  eexists. split; [exact Hwhen|]. split; [exact Hrun|]. split; [reflexivity|].
  split; [now rewrite HJ1|].
  change (2 + fuel) with (S (S fuel)).
  split; [unfold tick; run_loops; reflexivity|].
  split; [now run|]. split; [cbn; congruence|reflexivity].
Qed.

(** The theorem at three fresh inputs that succeed in the order third,
    first, second. *)
Lemma when_gathers_results_in_argument_order_witness :
  exists J s0 s1 s2,
    when 4 (VDef <$> [0; 1; 2]) (state_after three_inputs) = Ret J s0 /\
    succeed_in_order (4 + 4) [0; 1; 2] [VNum 10; VNum 20; VNum 30] [2; 0; 1] s0
      = Some s1 /\
    timers s1 = [TRunCallback J] /\
    callbacked <$> heap s1 !! J = Some false /\
    tick (2 + 4) s1 = Some s2 /\
    heap s2 !! J
    = Some (unlinked (set_callbacked true [VNum 10; VNum 20; VNum 30]
                        (fresh_node J J))) /\
    trace s2 = trace (state_after three_inputs) /\ timers s2 = [].
Proof.
  apply (when_gathers_results_in_argument_order (state_after three_inputs)
           [0; 1; 2] [VNum 10; VNum 20; VNum 30] [2; 0; 1] 4);
    try reflexivity; try discriminate; try (cbn; lia).
  - intros [|[|[|n]]] a Hn; inversion Hn; subst; eexists;
      (split; [reflexivity|]); repeat split.
  - repeat (constructor;
            [intros H; repeat (apply elem_of_cons in H as [H|H]; [discriminate|]);
             now apply elem_of_nil in H|]).
    constructor.
  - apply (bool_decide_unpack _). reflexivity.
Defined.

(** A loop that goes through a first range as another loop does, and
    whose next iteration throws. *)
Lemma for_loop_throws_after_prefix {A} (body body' : nat -> A -> M A) n m e :
  (forall i a st, i < n -> body' i a st = body i a st) -> n < m ->
  forall fuel i acc s acc' s' s'',
    i <= n ->
    for_loop fuel (ret n) body i acc s = Ret acc' s' ->
    body' n acc' s' = Throw e s'' ->
    for_loop fuel (ret m) body' i acc s = Throw e s''.
Proof.
  intros Hsame Hnm fuel.
  induction fuel as [|fuel IH]; intros i acc s acc' s' s'' Hi Hrun Hthrow;
    [discriminate|].
  rewrite for_loop_unfold in Hrun |- *. cbn [bind ret] in Hrun |- *.
  destruct (Nat.ltb_spec i n) as [Hlt|Hge].
  - destruct (Nat.ltb_spec i m) as [_|?]; [|lia]. cbn [bind] in Hrun |- *.
    rewrite (Hsame i acc s Hlt).
    destruct (body i acc s) as [a1 s1| | |]; try discriminate.
    apply (IH (S i) a1 s1 acc' s' s''); [lia|exact Hrun|exact Hthrow].
  - assert (i = n) as -> by lia. injection Hrun as -> ->.
    destruct (Nat.ltb_spec n m) as [_|?]; [|lia]. cbn [bind].
    now rewrite Hthrow.
Qed.



(** X22.  Without arguments, [when] and [select] return a Deferred that
    nothing will ever resolve: they attach no listener and schedule no
    task, so with an empty queue the event loop has nothing to run and the
    Deferred they return (and, for [select], the one behind it) stays
    pending.  ([when] does not resolve at once with an empty aggregate.) *)
Theorem when_and_select_without_arguments (s : state) fuel rounds :
  timers s = [] -> 0 < fuel ->
  (exists s1,
     when fuel [] s = Ret (length (heap s)) s1 /\
     heap s1 = heap s ++ [fresh_node (length (heap s)) (length (heap s))] /\
     trace s1 = trace s /\
     run_loop rounds fuel s1 = Some s1) /\
  (exists s1,
     select fuel [] s = Ret (length (heap s) + 1) s1 /\
     heap s1
     = heap s
       ++ [set_callbackFunctions [FSelectId]
             (set_nextLinks [length (heap s) + 1]
                (fresh_node (length (heap s)) (length (heap s))));
           fresh_node (length (heap s)) (length (heap s))] /\
     trace s1 = trace s /\
     run_loop rounds fuel s1 = Some s1).
Proof.
  intros Ht Hfuel. destruct fuel as [|fuel]; [lia|].
  destruct s as [h t tr de w sl]. cbn [heap timers trace] in *. subst. split.
  - eexists. split; [run_loops; reflexivity|]. cbn [heap trace].
    split; [reflexivity|]. split; [reflexivity|]. now destruct rounds.
  - eexists. split; [run_loops; rewrite ?length_app; cbn [length]; reflexivity|].
    cbn [heap trace set_heap set_selects].
    split; [|split; [reflexivity|now destruct rounds]].
    rewrite list_insert_insert_eq.
    apply list_eq. intros x.
    destruct (decide (x < length h)) as [Hx|Hx].
    + rewrite !lookup_app_l by (rewrite ?length_app; cbn; lia).
      rewrite list_lookup_insert_ne by lia.
      now rewrite !lookup_app_l by (rewrite ?length_app; cbn; lia).
    + destruct (decide (x = length h)) as [->|Hx'].
      * rewrite list_lookup_insert_eq by (rewrite !length_app; cbn; lia).
        rewrite (lookup_app_r h) by lia. now rewrite Nat.sub_diag.
      * rewrite list_lookup_insert_ne by lia.
        rewrite (lookup_app_r (h ++ _)) by (rewrite length_app; cbn; lia).
        rewrite (lookup_app_r h) by lia.
        rewrite length_app. cbn [length].
        destruct (x - length h) as [|[|k]] eqn:Ek; try lia.
        -- replace (x - (length h + 1)) with 0 by lia. reflexivity.
        -- replace (x - (length h + 1)) with (S k) by lia. reflexivity.
Qed.

(** The theorem in the initial state. *)
Lemma when_and_select_without_arguments_witness :
  (exists s1,
     when 1 [] initial = Ret (length (heap initial)) s1 /\
     heap s1 = heap initial
               ++ [fresh_node (length (heap initial)) (length (heap initial))] /\
     trace s1 = trace initial /\
     run_loop 3 1 s1 = Some s1) /\
  (exists s1,
     select 1 [] initial = Ret (length (heap initial) + 1) s1 /\
     heap s1
     = heap initial
       ++ [set_callbackFunctions [FSelectId]
             (set_nextLinks [length (heap initial) + 1]
                (fresh_node (length (heap initial)) (length (heap initial))));
           fresh_node (length (heap initial)) (length (heap initial))] /\
     trace s1 = trace initial /\
     run_loop 3 1 s1 = Some s1).
Proof.
  apply (when_and_select_without_arguments initial 1 3); [reflexivity|lia].
Defined.

(** * More of the code: [select] when inputs fail *)

(** An input of a [select] fails: its next link hands the error to the
    Deferred [d] of the [select], unless an error has been handed over
    before. *)
Lemma select_input_fails h tr de w sl fr wf a na ta nta e fuel :
  sl !! fr = Some wf ->
  h !! a = Some na ->
  errbacked na = false -> aborted na = false -> errbackFunctions na = [] ->
  nextLinks na = [ta] -> finallyFunction na = None ->
  h !! ta = Some nta ->
  errbacked nta = false -> aborted nta = false ->
  errbackFunctions nta = [FSelectErr fr] -> finallyFunction nta = None ->
  a <> ta ->
  (errored wf = true \/
   exists nd, h !! select_d wf = Some nd /\ aborted nd = false /\
     errbacked nd = false /\ select_d wf <> a /\ select_d wf <> ta) ->
  errback a e (mkState h [] tr de w sl)
  = Ret a (mkState h [TRunErrback a e] tr de w sl) /\
  tick (4 + fuel) (mkState h [TRunErrback a e] tr de w sl)
  = Some (mkState
            (<[a := unlinked (set_errbacked true e na)]>
               (<[ta := unlinked (set_errbacked true e nta)]> h))
            (if errored wf then [] else [TRunErrback (select_d wf) e])
            tr de w
            (<[fr := mkSelect (select_d wf) (select_done wf) (select_total wf)
                       (winner wf) (select_args wf) true]> sl)).
Proof.
  intros Hfr Ha Hae Haa Haf Han Hafin Hta Htae Htaa Htaf Htafin Hne Hd.
  change (4 + fuel) with (S (S (S (S fuel)))).
  split; [now run|]. unfold tick. run_loops.
  destruct Hd as [Herr|(nd & Hd & Hda & Hde & Nda & Ndt)].
  - rewrite Herr. run_loops. f_equal. st_eq; try reflexivity.
    heap_eq (a, (ta, tt)).
  - destruct (errored wf) eqn:Herr.
    + run_loops. f_equal. st_eq; try reflexivity. heap_eq (a, (ta, tt)).
    + run_loops. f_equal. st_eq; try reflexivity. heap_eq (a, (ta, tt)).
Qed.

(** The error goes from [d] to the handler of its next link [o]. *)
Lemma select_error_reaches_the_output h t tr de w sl d nd o no e hname hbody v fuel :
  h !! d = Some nd ->
  errbacked nd = false -> aborted nd = false -> errbackFunctions nd = [] ->
  nextLinks nd = [o] -> finallyFunction nd = None ->
  h !! o = Some no ->
  errbacked no = false -> aborted no = false ->
  errbackFunctions no = [FUser hname hbody] -> hbody [e] = URet v ->
  finallyFunction no = None ->
  d <> o ->
  tick (4 + fuel) (mkState h (TRunErrback d e :: t) tr de w sl)
  = Some (mkState
            (<[d := unlinked (set_errbacked true e nd)]>
               (<[o := unlinked (set_errbacked true e no)]> h))
            t (tr ++ [EvCall hname [e]]) de w sl).
Proof.
  intros Hd Hde Hda Hdf Hdn Hdfin Ho Hoe Hoa Hof Hh Hofin Hne.
  change (4 + fuel) with (S (S (S (S fuel)))).
  unfold tick. run_loops. f_equal. st_eq; try reflexivity.
  heap_eq (d, (o, tt)).
Qed.

(** X23.  The inputs [a] and [b] of a [select] are wired as [select]
    leaves them ([ta] and [tb] are their next links, [d] the Deferred
    that [select] created and [o] the one it returned, which has an error
    handler).  When [a] fails, the error reaches the handler of [o] after
    two turns of the event loop, and the other input is not aborted.  When
    [b] fails afterwards, nothing is reported: the handler is not called
    again and [o] is left as it was. *)
Theorem select_reports_the_first_failure_only
    (s : state) fr wf d nd o no a na ta nta b nb tb ntb e e' hname hbody v fuel :
  selects s !! fr = Some wf -> select_d wf = d -> errored wf = false ->
  heap s !! a = Some na ->
  errbacked na = false -> aborted na = false -> errbackFunctions na = [] ->
  nextLinks na = [ta] -> finallyFunction na = None ->
  heap s !! ta = Some nta ->
  errbacked nta = false -> aborted nta = false ->
  errbackFunctions nta = [FSelectErr fr] -> finallyFunction nta = None ->
  heap s !! b = Some nb ->
  errbacked nb = false -> aborted nb = false -> errbackFunctions nb = [] ->
  nextLinks nb = [tb] -> finallyFunction nb = None ->
  heap s !! tb = Some ntb ->
  errbacked ntb = false -> aborted ntb = false ->
  errbackFunctions ntb = [FSelectErr fr] -> finallyFunction ntb = None ->
  heap s !! d = Some nd ->
  errbacked nd = false -> aborted nd = false -> errbackFunctions nd = [] ->
  nextLinks nd = [o] -> finallyFunction nd = None ->
  heap s !! o = Some no ->
  errbacked no = false -> aborted no = false ->
  errbackFunctions no = [FUser hname hbody] -> hbody [e] = URet v ->
  finallyFunction no = None ->
  NoDup [a; ta; b; tb; d; o] ->
  timers s = [] ->
  exists s1 s2 s3 s4,
    errback a e s = Ret a s1 /\
    run_loop 2 (4 + fuel) s1 = Some s2 /\
    trace s2 = trace s ++ [EvCall hname [e]] /\
    heap s2 !! o = Some (unlinked (set_errbacked true e no)) /\
    heap s2 !! b = Some nb /\
    timers s2 = [] /\
    errback b e' s2 = Ret b s3 /\
    run_loop 2 (4 + fuel) s3 = Some s4 /\
    trace s4 = trace s2 /\
    heap s4 !! o = heap s2 !! o /\
    heap s4 !! b = Some (unlinked (set_errbacked true e' nb)).
Proof.
  intros Hfr Hwd Hwe Ha Hae Haa Haf Han Hafin Hta Htae Htaa Htaf Htafin
    Hb Hbe Hba Hbf Hbn Hbfin Htb Htbe Htba Htbf Htbfin
    Hd Hde Hda Hdf Hdn Hdfin Ho Hoe Hoa Hof Hh Hofin Hnd Ht.
  assert (Hne : a <> ta /\ a <> b /\ a <> tb /\ a <> d /\ a <> o /\
                ta <> b /\ ta <> tb /\ ta <> d /\ ta <> o /\
                b <> tb /\ b <> d /\ b <> o /\ tb <> d /\ tb <> o /\ d <> o).
  { repeat match goal with
           | H : NoDup (_ :: _) |- _ => apply NoDup_cons in H as [? ?]
           end.
    repeat match goal with
           | H : _ ∉ _ :: _ |- _ => apply not_elem_of_cons in H as [? ?]
           end.
    repeat split; assumption. }
  destruct Hne as (? & ? & ? & ? & ? & ? & ? & ? & ? & ? & ? & ? & ? & ? & ?).
  clear Hnd. open_st s. subst t.
  (* the first failure *)
  destruct (select_input_fails h tr de w sl fr wf a na ta nta e fuel)
    as [E1 T1]; try assumption.
  { right. exists nd. rewrite Hwd. repeat split; auto. }
  rewrite Hwe, Hwd in T1.
  set (h1 := <[a := unlinked (set_errbacked true e na)]>
               (<[ta := unlinked (set_errbacked true e nta)]> h)) in *.
  set (sl1 := <[fr := mkSelect d (select_done wf) (select_total wf) (winner wf)
                        (select_args wf) true]> sl) in *.
  assert (L1 : forall x, x <> a -> x <> ta -> h1 !! x = h !! x).
  { intros x ? ?. unfold h1. now rewrite !list_lookup_insert_ne by congruence. }
  pose proof (select_error_reaches_the_output h1 [] tr de w sl1 d nd o no e
                hname hbody v fuel) as T2.
  rewrite !L1 in T2 by congruence.
  specialize (T2 Hd Hde Hda Hdf Hdn Hdfin Ho Hoe Hoa Hof Hh Hofin ltac:(assumption)).
  set (h2 := <[d := unlinked (set_errbacked true e nd)]>
               (<[o := unlinked (set_errbacked true e no)]> h1)) in *.
  assert (L2 : forall x, x <> d -> x <> o -> h2 !! x = h1 !! x).
  { intros x ? ?. unfold h2. now rewrite !list_lookup_insert_ne by congruence. }
  (* the second failure *)
  assert (Hfr1 : sl1 !! fr
                 = Some (mkSelect d (select_done wf) (select_total wf) (winner wf)
                           (select_args wf) true)).
  { unfold sl1. apply list_lookup_insert_eq. eapply lookup_lt_Some, Hfr. }
  pose proof (select_input_fails h2 (tr ++ [EvCall hname [e]]) de w sl1 fr _
                b nb tb ntb e' fuel Hfr1) as T3.
  rewrite !L2, !L1 in T3 by congruence.
  destruct (T3 Hb Hbe Hba Hbf Hbn Hbfin Htb Htbe Htba Htbf Htbfin ltac:(assumption))
    as [E3 T4]; [now left|].
  cbn [errored select_d select_done select_total winner select_args] in T4.
  exists (mkState h [TRunErrback a e] tr de w sl).
  exists (mkState h2 [] (tr ++ [EvCall hname [e]]) de w sl1).
  exists (mkState h2 [TRunErrback b e'] (tr ++ [EvCall hname [e]]) de w sl1).
  eexists.
  split; [exact E1|]. split.
  { cbn [run_loop timers]. rewrite T1. cbn [run_loop timers]. rewrite T2. reflexivity. }
  cbn [trace heap timers]. split; [reflexivity|].
  split; [unfold h2; rewrite list_lookup_insert_ne by congruence;
          apply list_lookup_insert_eq; unfold h1; rewrite !length_insert;
          eapply lookup_lt_Some, Ho|].
  split; [now rewrite L2, L1 by congruence|]. split; [reflexivity|].
  split; [exact E3|]. split.
  { cbn [run_loop timers]. rewrite T4. reflexivity. }
  cbn [trace heap timers]. split; [reflexivity|]. split.
  - now rewrite !list_lookup_insert_ne by congruence.
  - apply list_lookup_insert_eq. unfold h2, h1. rewrite !length_insert.
    eapply lookup_lt_Some, Hb.
Qed.

(** The theorem at [a = new Deferred(); b = new Deferred();
    o = select(a, b); o.orIfError(h)]. *)
Lemma select_reports_the_first_failure_only_witness :
  let s := state_after select_with_handler in
  exists s1 s2 s3 s4,
    errback 0 (VStr "E") s = Ret 0 s1 /\
    run_loop 2 (4 + 0) s1 = Some s2 /\
    trace s2 = trace s ++ [EvCall "h" [VStr "E"]] /\
    heap s2 !! 5 = Some (unlinked (set_errbacked true (VStr "E") (node_at s 5))) /\
    heap s2 !! 1 = Some (node_at s 1) /\
    timers s2 = [] /\
    errback 1 (VStr "F") s2 = Ret 1 s3 /\
    run_loop 2 (4 + 0) s3 = Some s4 /\
    trace s4 = trace s2 /\
    heap s4 !! 5 = heap s2 !! 5 /\
    heap s4 !! 1 = Some (unlinked (set_errbacked true (VStr "F") (node_at s 1))).
Proof.
  intros s.
  apply (select_reports_the_first_failure_only s 0
           (mkSelect 2 false 2 VUndef [VDef 0; VDef 1] false)
           2 (node_at s 2) 5 (node_at s 5) 0 (node_at s 0) 3 (node_at s 3)
           1 (node_at s 1) 4 (node_at s 4) (VStr "E") (VStr "F")
           "h" (fun _ => URet VUndef) VUndef 0); try reflexivity.
  apply (bool_decide_unpack _). reflexivity.
Defined.

(** * More of the code: [setBranch], and a spliced Deferred that succeeds *)

(** X24.  [setBranch] on a node of a forest returns, changes branch
    pointers only, and only at and below the node; afterwards the node
    points at the new branch head, an only next link continues that
    branch all the way down, and the next links of a node with several of
    them each head a branch of their own. *)
Theorem setBranch_heads_the_subtree (s : state) c b fuel :
  forest (heap s) -> c < length (heap s) -> 2 * length (heap s) < fuel ->
  exists h',
    dispatch fuel (CSetBranch c b) s = Ret VUndef (set_heap h' s) /\
    rebranched (heap s) h' /\
    (forall x, ~ descends (heap s) c x -> h' !! x = heap s !! x) /\
    headed h' c b /\
    (forall y, on_chain h' c y -> branch <$> h' !! y = Some (Some b)).
Proof.
  destruct s as [h t tr de w sl]. cbn [heap]. intros F Hc Hfuel.
  destruct (setBranch_walk t tr de w sl (length h) c b h fuel)
    as (h' & Hrun & R & Hout & Hh); [lia|exact F|exact Hc|lia|].
  exists h'. split; [exact Hrun|]. split; [exact R|]. split; [exact Hout|].
  split; [exact Hh|]. intros y Hy.
  destruct (headed_chain _ _ _ _ Hh Hy) as (ny & Hny & Hb & _).
  now rewrite Hny, <- Hb.
Qed.

(** The theorem at [r = new Deferred(); a = r.then(f); a.then(g)], for
    [r.setBranch(a)]. *)
Lemma setBranch_heads_the_subtree_witness :
  exists h',
    dispatch 7 (CSetBranch 0 1) (state_after chain_of_three)
      = Ret VUndef (set_heap h' (state_after chain_of_three)) /\
    rebranched (heap (state_after chain_of_three)) h' /\
    (forall x, ~ descends (heap (state_after chain_of_three)) 0 x ->
       h' !! x = heap (state_after chain_of_three) !! x) /\
    headed h' 0 1 /\
    (forall y, on_chain h' 0 y -> branch <$> h' !! y = Some (Some 1)).
Proof.
  apply (setBranch_heads_the_subtree (state_after chain_of_three) 0 1 7).
  - small_forest.
  - vm_compute. lia.
  - vm_compute. lia.
Defined.

(** The link [t] that a splice has put on [inner] resolves the next link
    [c] of [p] when [inner] succeeds. *)
Lemma spliced_inner_succeeds
    h tr de w sl p np c nc g ng inner ni t nt gname gbody vals u fuel :
  h !! p = Some np -> nextLinks np = [c] ->
  h !! c = Some nc ->
  callbacked nc = false -> errbacked nc = false -> aborted nc = false ->
  finallyFunction nc = None ->
  callbackFunctions nc = [FUser gname gbody] -> nextLinks nc = [g] ->
  gbody vals = URet u -> (forall i, u <> VDef i) ->
  h !! g = Some ng ->
  callbacked ng = false -> errbacked ng = false -> aborted ng = false ->
  finallyFunction ng = None -> callbackFunctions ng = [] ->
  h !! inner = Some ni ->
  callbacked ni = false -> errbacked ni = false -> aborted ni = false ->
  finallyFunction ni = None ->
  callbackFunctions ni = [FSpliceThen p 0 inner] -> nextLinks ni = [t] ->
  h !! t = Some nt ->
  callbacked nt = false -> errbacked nt = false -> aborted nt = false ->
  finallyFunction nt = None -> callbackFunctions nt = [] ->
  NoDup [p; c; g; inner; t] ->
  exists h',
    (callback inner vals (mkState h [] tr de w sl)
     = Ret inner (mkState (<[inner := set_callbackArgs vals ni]> h)
                    [TRunCallback inner] tr de w sl)) /\
    tick (6 + fuel) (mkState (<[inner := set_callbackArgs vals ni]> h)
                       [TRunCallback inner] tr de w sl)
    = Some (mkState h' [] (tr ++ [EvCall gname vals]) de w sl) /\
    h' !! c = Some (unlinked (set_callbacked true vals nc)) /\
    h' !! g = Some (unlinked (set_callbacked true [u] ng)) /\
    h' !! inner = Some (unlinked (set_callbacked true vals ni)).
Proof.
  intros Hp Hpn Hc Hcc Hce Hca Hcfin Hccf Hcn Hgb Hu Hg Hgc Hge Hga Hgfin Hgcf
    Hi Hic Hie Hia Hifin Hicf Hin Ht Htc Hte Hta Htfin Htcf Hnd.
  assert (Hne : p <> c /\ p <> g /\ p <> inner /\ p <> t /\ c <> g /\ c <> inner /\
                c <> t /\ g <> inner /\ g <> t /\ inner <> t).
  { repeat match goal with
           | H : NoDup (_ :: _) |- _ => apply NoDup_cons in H as [? ?]
           end.
    repeat match goal with
           | H : _ ∉ _ :: _ |- _ => apply not_elem_of_cons in H as [? ?]
           end.
    repeat split; assumption. }
  destruct Hne as (? & ? & ? & ? & ? & ? & ? & ? & ? & ?). clear Hnd.
  change (6 + fuel) with (S (S (S (S (S (S fuel)))))).
  eexists. split; [now run|]. split.
  { unfold tick. run_loops.
    destruct u; try (now destruct (Hu d)); run_loops; reflexivity. }
  destruct u; try (now destruct (Hu d)); repeat split; now run.
Qed.

(** X25.  A callback of [p] returns the pending Deferred [inner]: the
    next link [c] of [p] is not resolved by [runCallback] on [p], but
    later, when [inner] succeeds, and then with all the values [inner]
    succeeded with: the callback of [c] is called on them. *)
Theorem splice_passes_on_the_results_of_the_inner_deferred
    (s : state) p np c nc g ng inner ni fname fbody args gname gbody vals u fuel :
  heap s !! p = Some np ->
  callbacked np = false -> errbacked np = false -> finallyFunction np = None ->
  callbackFunctions np = [FUser fname fbody] -> nextLinks np = [c] ->
  fbody args = URet (VDef inner) ->
  heap s !! c = Some nc ->
  callbacked nc = false -> errbacked nc = false -> aborted nc = false ->
  finallyFunction nc = None ->
  callbackFunctions nc = [FUser gname gbody] -> nextLinks nc = [g] ->
  gbody vals = URet u -> (forall i, u <> VDef i) ->
  heap s !! g = Some ng ->
  callbacked ng = false -> errbacked ng = false -> aborted ng = false ->
  finallyFunction ng = None -> callbackFunctions ng = [] ->
  heap s !! inner = Some ni ->
  callbacked ni = false -> errbacked ni = false -> aborted ni = false ->
  finallyFunction ni = None -> callbackFunctions ni = [] -> nextLinks ni = [] ->
  NoDup [p; c; g; inner] ->
  timers s = [] ->
  exists s1 s2 s3,
    dispatch (3 + fuel) (CRunCallback p args) s = Ret VUndef s1 /\
    trace s1 = trace s ++ [EvCall fname args] /\
    heap s1 !! c = Some nc /\
    callback inner vals s1 = Ret inner s2 /\
    tick (6 + fuel) s2 = Some s3 /\
    trace s3 = trace s1 ++ [EvCall gname vals] /\
    heap s3 !! c = Some (unlinked (set_callbacked true vals nc)) /\
    heap s3 !! g = Some (unlinked (set_callbacked true [u] ng)) /\
    callbacked <$> heap s3 !! inner = Some true.
Proof.
  intros Hp Hpc Hpe Hpfin Hpcf Hpn Hfb Hc Hcc Hce Hca Hcfin Hccf Hcn Hgb Hu
    Hg Hgc Hge Hga Hgfin Hgcf Hi Hic Hie Hia Hifin Hicf Hin Hnd Ht.
  assert (Hne : p <> c /\ p <> g /\ p <> inner /\ c <> g /\ c <> inner /\ g <> inner).
  { repeat match goal with
           | H : NoDup (_ :: _) |- _ => apply NoDup_cons in H as [? ?]
           end.
    repeat match goal with
           | H : _ ∉ _ :: _ |- _ => apply not_elem_of_cons in H as [? ?]
           end.
    repeat split; assumption. }
  destruct Hne as (? & ? & ? & ? & ? & ?). clear Hnd.
  open_st s. subst t.
  assert (Hstep : exists h1,
            dispatch (3 + fuel) (CRunCallback p args) (mkState h [] tr de w sl)
            = Ret VUndef (mkState h1 [] (tr ++ [EvCall fname args]) de w sl) /\
            h1 !! p = Some (unlinked (set_callbacked true args np)) /\
            h1 !! c = Some nc /\ h1 !! g = Some ng /\
            h1 !! inner
            = Some (set_callbackFunctions [FSpliceThen p 0 inner]
                      (set_nextLinks [length h] ni)) /\
            h1 !! length h
            = Some (set_errbackFunctions [FSpliceErr p 0 inner]
                      (fresh_node (default (length h) (root ni))
                         (default (length h) (branch ni))))).
  { eexists. split; [run_loops; reflexivity|]. repeat split; now run. }
  destruct Hstep as (h1 & Hrun & Hp1 & Hc1 & Hg1 & Hi1 & Ht1).
  pose proof (lookup_lt_Some _ _ _ Hp). pose proof (lookup_lt_Some _ _ _ Hc).
  pose proof (lookup_lt_Some _ _ _ Hg). pose proof (lookup_lt_Some _ _ _ Hi).
  destruct (spliced_inner_succeeds h1 (tr ++ [EvCall fname args]) de w sl
              p (unlinked (set_callbacked true args np)) c nc g ng
              inner (set_callbackFunctions [FSpliceThen p 0 inner]
                       (set_nextLinks [length h] ni))
              (length h)
              (set_errbackFunctions [FSpliceErr p 0 inner]
                 (fresh_node (default (length h) (root ni))
                    (default (length h) (branch ni))))
              gname gbody vals u fuel Hp1)
    as (h3 & Hcb & Htick & Hc3 & Hg3 & Hi3);
    try eassumption; try reflexivity; try (now destruct np); try (now destruct ni).
  { apply (bool_decide_unpack _). apply bool_decide_pack.
    repeat (apply NoDup_cons; split;
            [rewrite ?not_elem_of_cons; repeat split;
             try assumption; try lia; try apply not_elem_of_nil|]).
    apply NoDup_nil_2. }
  eexists _, _, _. split; [exact Hrun|]. cbn [trace heap].
  split; [reflexivity|]. split; [exact Hc1|]. split; [exact Hcb|].
  split; [exact Htick|]. cbn [trace heap]. split; [reflexivity|].
  split; [exact Hc3|]. split; [exact Hg3|].
  rewrite Hi3. reflexivity.
Qed.

(** The theorem at [p = new Deferred(); inner = new Deferred();
    c = p.then(function () { return inner; }); c.then(g)]. *)
Lemma splice_passes_on_the_results_of_the_inner_deferred_witness :
  let s := state_after splice_with_continuation in
  exists s1 s2 s3,
    dispatch (3 + 0) (CRunCallback 0 [VNum 1]) s = Ret VUndef s1 /\
    trace s1 = trace s ++ [EvCall "f" [VNum 1]] /\
    heap s1 !! 2 = Some (node_at s 2) /\
    callback 1 [VNum 7; VNum 8] s1 = Ret 1 s2 /\
    tick (6 + 0) s2 = Some s3 /\
    trace s3 = trace s1 ++ [EvCall "g" [VNum 7; VNum 8]] /\
    heap s3 !! 2 = Some (unlinked (set_callbacked true [VNum 7; VNum 8] (node_at s 2))) /\
    heap s3 !! 3 = Some (unlinked (set_callbacked true [VUndef] (node_at s 3))) /\
    callbacked <$> heap s3 !! 1 = Some true.
Proof.
  intros s.
  apply (splice_passes_on_the_results_of_the_inner_deferred s
           0 (node_at s 0) 2 (node_at s 2) 3 (node_at s 3) 1 (node_at s 1)
           "f" (fun _ => URet (VDef 1)) [VNum 1] "g" (fun _ => URet VUndef)
           [VNum 7; VNum 8] VUndef 0); try reflexivity; try discriminate.
  apply (bool_decide_unpack _). reflexivity.
Defined.
